(** * Jaco: a shallow embedding of the Japanese text wrapper (src/src/jaco.ts)

    Strings are JavaScript strings: finite sequences of 16-bit code units.
    The wrapper class [Jaco] holds one such string in its field [$]; every
    mutating method is modelled as a function from the receiver to the
    receiver after the call. *)

From Stdlib Require Import ZArith List Bool Lia QArith Qround.
Import ListNotations.

Open Scope Z_scope.

(** ** The platform: JavaScript strings, numbers and arrays *)

Module JS.

(** A code unit is an integer in 0 .. 65535. *)
Definition unit16 := Z.
Definition jsstring := list unit16.

Definition isHighSurrogate (c : unit16) : bool := (0xD800 <=? c) && (c <=? 0xDBFF).
Definition isLowSurrogate (c : unit16) : bool := (0xDC00 <=? c) && (c <=? 0xDFFF).
Definition isSurrogate (c : unit16) : bool := (0xD800 <=? c) && (c <=? 0xDFFF).

(** String.fromCharCode keeps the low 16 bits of its argument. *)
Definition fromCharCode (n : Z) : unit16 := n mod 65536.

Fixpoint str_eqb (a b : jsstring) : bool :=
  match a, b with
  | [], [] => true
  | x :: a', y :: b' => (x =? y) && str_eqb a' b'
  | _, _ => false
  end.

(** [stripPrefix p s] is the rest of [s] after the prefix [p], if [s] starts with [p]. *)
Fixpoint stripPrefix (p s : jsstring) : option jsstring :=
  match p with
  | [] => Some s
  | a :: p' =>
      match s with
      | [] => None
      | b :: s' => if a =? b then stripPrefix p' s' else None
      end
  end.

(** Line terminators of the regular expression grammar: LF, CR, LS, PS. *)
Definition isLineTerminator (c : unit16) : bool :=
  (c =? 0x000A) || (c =? 0x000D) || (c =? 0x2028) || (c =? 0x2029).

(** JavaScript numbers, as far as the wrapper looks at them: the three
    non-finite values and the finite ones with their exact value. What an
    addition or a subtraction gives is rounded ([toBinary64] below). *)
Inductive number : Type :=
| NaN
| PosInfinity
| NegInfinity
| Finite (q : Q).

Definition ofZ (z : Z) : number := Finite (inject_Z z).

(** The result of an addition or a subtraction is the binary64 value
    nearest to the exact one (round to nearest, ties to even): 53
    significant bits from the leading one, the unit in the last place never
    below 2^-1074, and infinity from 2^1024 - 2^970 on.

    [divNearestEven n d] is [n / d] rounded to the nearest integer, a tie
    going to the even one, for [0 <= n] and [0 < d]; [floorLog2 n d] is the
    exponent of the leading bit of [n / d], for [0 < n] and [0 < d]: the
    difference of the two bit lengths, or one less. *)
Definition divNearestEven (n d : Z) : Z :=
  match 2 * (n mod d) ?= d with
  | Lt => n / d
  | Gt => n / d + 1
  | Eq => if Z.even (n / d) then n / d else n / d + 1
  end.

Definition floorLog2 (n d : Z) : Z :=
  let e := Z.log2 n - Z.log2 d in
  if (if 0 <=? e then 2 ^ e * d <=? n else d <=? n * 2 ^ (- e)) then e else e - 1.

Definition toBinary64 (q : Q) : number :=
  let n := Z.abs (Qnum q) in
  let d := Zpos (Qden q) in
  if n =? 0 then Finite 0
  else
    let e := Z.max (floorLog2 n d) (-1022) in
    let s := e - 52 in
    let m := if 0 <=? s then divNearestEven n (d * 2 ^ s)
             else divNearestEven (n * 2 ^ (- s)) d in
    if (1024 <=? e) || ((e =? 1023) && (m =? 2 ^ 53))
    then (if Qnum q <? 0 then NegInfinity else PosInfinity)
    else
      let magnitude := if 0 <=? s then inject_Z (m * 2 ^ s)
                       else Qmake m (Z.to_pos (2 ^ (- s))) in
      Finite (if Qnum q <? 0 then Qopp magnitude else magnitude).

(** ToIntegerOrInfinity followed by the clamping every index argument gets:
    the result is a position in 0 .. len, counted from the end when negative. *)
Definition Qtruncate (q : Q) : Z := if Qle_bool 0 q then Qfloor q else Qceiling q.

Definition relativeIndex (len : Z) (n : number) : Z :=
  match n with
  | NaN => 0
  | PosInfinity => len
  | NegInfinity => 0
  | Finite q =>
      let i := Qtruncate q in
      if i <? 0 then Z.max (len + i) 0 else Z.min i len
  end.

(** String.prototype.slice(start, end); an absent [end] is the length. *)
Definition slice (s : jsstring) (start : number) (end_ : option number) : jsstring :=
  let len := Z.of_nat (length s) in
  let from := relativeIndex len start in
  let to := match end_ with None => len | Some e => relativeIndex len e end in
  firstn (Z.to_nat (Z.max (to - from) 0)) (skipn (Z.to_nat from) s).

(** String.prototype.substr(start, length), the operation the name refers to:
    an absent [length] runs to the end, a count is clamped to what is left. *)
Definition substr (s : jsstring) (start : number) (length_ : option number) : jsstring :=
  let len := Z.of_nat (length s) in
  let from := relativeIndex len start in
  let count :=
    match length_ with
    | None => len - from
    | Some NaN => 0
    | Some PosInfinity => len - from
    | Some NegInfinity => 0
    | Some (Finite q) => Z.min (Z.max (Qtruncate q) 0) (len - from)
    end in
  firstn (Z.to_nat count) (skipn (Z.to_nat from) s).

(** Array.prototype.indexOf on an array of strings, compared with [===]. *)
Fixpoint indexFrom (a : list jsstring) (x : jsstring) (i : Z) : Z :=
  match a with
  | [] => -1
  | y :: a' => if str_eqb y x then i else indexFrom a' x (i + 1)
  end.

Definition Array_indexOf (a : list jsstring) (x : jsstring) (fromIndex : number) : Z :=
  let len := Z.of_nat (length a) in
  match fromIndex with
  | PosInfinity => -1
  | _ =>
      let k := relativeIndex len fromIndex in
      indexFrom (skipn (Z.to_nat k) a) x k
  end.

(** Array.prototype.lastIndexOf on an array of strings: the search runs
    downwards from the start index [k]. *)
Definition Array_lastIndexOf (a : list jsstring) (x : jsstring) (fromIndex : number) : Z :=
  let len := Z.of_nat (length a) in
  let start :=
    match fromIndex with
    | NaN => Some (Z.min 0 (len - 1))
    | PosInfinity => Some (len - 1)
    | NegInfinity => None
    | Finite q =>
        let n := Qtruncate q in
        Some (if 0 <=? n then Z.min n (len - 1) else len + n)
    end in
  match start with
  | None => -1
  | Some k =>
      if k <? 0 then -1
      else
        match indexFrom (rev (firstn (Z.to_nat (k + 1)) a)) x 0 with
        | -1 => -1
        | j => k - j
        end
  end.

(** encodeURIComponent: the unreserved characters (letters, digits and
    [-_.!~*'()]) stay; every other code point is written as the escapes
    [%XX] of its UTF-8 octets; a surrogate outside a pair throws URIError
    ([None]). *)
Definition isUnreserved (c : unit16) : bool :=
  ((0x41 <=? c) && (c <=? 0x5A)) || ((0x61 <=? c) && (c <=? 0x7A))
  || ((0x30 <=? c) && (c <=? 0x39))
  || existsb (Z.eqb c) [0x2D; 0x5F; 0x2E; 0x21; 0x7E; 0x2A; 0x27; 0x28; 0x29].

Definition surrogatePairToCodePoint (lead trail : unit16) : Z :=
  (lead - 0xD800) * 0x400 + (trail - 0xDC00) + 0x10000.

Definition utf8 (cp : Z) : list Z :=
  if cp <? 0x80 then [cp]
  else if cp <? 0x800 then
    [Z.lor 0xC0 (Z.shiftr cp 6); Z.lor 0x80 (Z.land cp 0x3F)]
  else if cp <? 0x10000 then
    [Z.lor 0xE0 (Z.shiftr cp 12); Z.lor 0x80 (Z.land (Z.shiftr cp 6) 0x3F);
     Z.lor 0x80 (Z.land cp 0x3F)]
  else
    [Z.lor 0xF0 (Z.shiftr cp 18); Z.lor 0x80 (Z.land (Z.shiftr cp 12) 0x3F);
     Z.lor 0x80 (Z.land (Z.shiftr cp 6) 0x3F); Z.lor 0x80 (Z.land cp 0x3F)].

Definition hexDigit (d : Z) : unit16 := if d <? 10 then 0x30 + d else 0x41 + (d - 10).

Definition escape (octet : Z) : jsstring :=
  [0x25; hexDigit (Z.land (Z.shiftr octet 4) 0xF); hexDigit (Z.land octet 0xF)].

Fixpoint encodeURIComponent (s : jsstring) : option jsstring :=
  match s with
  | [] => Some []
  | c :: tl =>
      if isUnreserved c then option_map (cons c) (encodeURIComponent tl)
      else if isLowSurrogate c then None
      else if isHighSurrogate c then
        match tl with
        | d :: rest =>
            if isLowSurrogate d
            then option_map (app (flat_map escape (utf8 (surrogatePairToCodePoint c d))))
                   (encodeURIComponent rest)
            else None
        | [] => None
        end
      else option_map (app (flat_map escape (utf8 c))) (encodeURIComponent tl)
  end.

(** The class [\s]: white space and the line terminators. *)
Definition isWhiteSpace (c : unit16) : bool :=
  existsb (Z.eqb c)
    [0x0009; 0x000B; 0x000C; 0x0020; 0x00A0; 0x1680; 0x202F; 0x205F; 0x3000; 0xFEFF]
  || ((0x2000 <=? c) && (c <=? 0x200A))
  || isLineTerminator c.

End JS.

Import JS.

(** ** The regular expressions the wrapper builds

    The wrapper uses a handful of pattern shapes; each is given its matching
    semantics directly. *)

Module RegExp.

(** The body of a character class, as it is spliced between [[] and []]:
    single code units and ranges [a-b] (a [-] that cannot stand between two
    atoms is a literal). *)
Fixpoint classMatches (body : jsstring) (c : unit16) : bool :=
  match body with
  | [] => false
  | a :: tl =>
      match tl with
      | d :: b :: rest =>
          if d =? 0x002D
          then ((a <=? c) && (c <=? b)) || classMatches rest c
          else (c =? a) || classMatches tl c
      | _ => (c =? a) || classMatches tl c
      end
  end.

(** Class bodies the model reads as the platform does: no backslash, no
    closing bracket, no leading caret, and ranges in increasing order. *)
Fixpoint rangesOrdered (body : jsstring) : bool :=
  match body with
  | [] => true
  | a :: tl =>
      match tl with
      | d :: b :: rest =>
          if d =? 0x002D then (a <=? b) && rangesOrdered rest else rangesOrdered tl
      | _ => rangesOrdered tl
      end
  end.

Definition classOK (body : jsstring) : bool :=
  forallb (fun c => negb ((c =? 0x005C) || (c =? 0x005D))) body
  && negb (match body with c :: _ => c =? 0x005E | [] => false end)
  && rangesOrdered body.

(** Unanchored patterns.
    - [Literal k]: [new RegExp(k)] for a string [k] of ordinary characters;
    - [AnyOf body]: [[body]], also written as an alternation [a|b|c] of single
      code units;
    - [Pair first second]: [[first][second]], one unit of the first class
      followed by one of the second (the capture group, if any, is the first
      unit). *)
Inductive pattern : Type :=
| Literal (k : jsstring)
| AnyOf (body : jsstring)
| Pair (first second : jsstring).

(** The length of the match that starts at the head of [s], if there is one. *)
Definition matchLen (p : pattern) (s : jsstring) : option nat :=
  match p with
  | Literal k =>
      match stripPrefix k s with
      | Some _ => Some (List.length k)
      | None => None
      end
  | AnyOf body =>
      match s with
      | c :: _ => if classMatches body c then Some 1%nat else None
      | [] => None
      end
  | Pair first second =>
      match s with
      | c :: d :: _ =>
          if classMatches first c && classMatches second d then Some 2%nat else None
      | _ => None
      end
  end.

(** [s.replace(p, f)] with the [g] flag: matches are taken from left to
    right, do not overlap, and each is replaced by what the replacer [f]
    returns for the matched text. [skip] counts the units of a match that
    are still to be passed over. *)
Fixpoint replaceAll_aux (p : pattern) (f : jsstring -> jsstring) (skip : nat) (s : jsstring)
  : jsstring :=
  match s with
  | [] =>
      match skip, matchLen p [] with
      | O, Some _ => f []
      | _, _ => []
      end
  | c :: tl =>
      match skip with
      | S k => replaceAll_aux p f k tl
      | O =>
          match matchLen p s with
          | Some (S n) => f (firstn (S n) s) ++ replaceAll_aux p f n tl
          | Some O => f [] ++ c :: replaceAll_aux p f O tl
          | None => c :: replaceAll_aux p f O tl
          end
      end
  end.

Definition replaceAll (p : pattern) (f : jsstring -> jsstring) (s : jsstring) : jsstring :=
  replaceAll_aux p f O s.

(** [p.test(s)] without anchors: is there a match anywhere? *)
Fixpoint matchesSomewhere (p : pattern) (s : jsstring) : bool :=
  match matchLen p s with
  | Some _ => true
  | None =>
      match s with
      | [] => false
      | _ :: tl => matchesSomewhere p tl
      end
  end.

(** [s.split(p)[0]]: the text before the first separator. The separator
    search skips a match that ends at position 0 (an empty match at the
    start); without a separator the whole string is the only piece. For the
    empty string the array is empty or holds the empty string. *)
Fixpoint splitHead_aux (p : pattern) (atStart : bool) (s : jsstring) : jsstring :=
  match s with
  | [] => []
  | c :: tl =>
      match matchLen p s with
      | Some n =>
          if atStart && (n =? 0)%nat then c :: splitHead_aux p false tl else []
      | None => c :: splitHead_aux p false tl
      end
  end.

Definition splitHead (p : pattern) (s : jsstring) : option jsstring :=
  match s with
  | [] => match matchLen p [] with Some _ => None | None => Some [] end
  | _ => Some (splitHead_aux p true s)
  end.

(** [^[body]+$] with the flags [gm], matched at a line start: some non-empty
    run of class members that stops at the end of the input or before a
    line terminator. *)
Definition atLineEnd (s : jsstring) : bool :=
  match s with
  | [] => true
  | d :: _ => isLineTerminator d
  end.

Fixpoint matchRunToLineEnd (body : jsstring) (s : jsstring) : bool :=
  match s with
  | [] => false
  | c :: rest => classMatches body c && (atLineEnd rest || matchRunToLineEnd body rest)
  end.

(** The search for a match tries every position; [^] holds at position 0 and
    after a line terminator. *)
Fixpoint testLinesFrom (body : jsstring) (atLineStart : bool) (s : jsstring) : bool :=
  (atLineStart && matchRunToLineEnd body s)
  || match s with
     | [] => false
     | c :: rest => testLinesFrom body (isLineTerminator c) rest
     end.

(** The regular expressions handed to [test]. *)
Inductive regexp : Type :=
| Unanchored (p : pattern)
| OnlyLines (body : jsstring).

Definition test (r : regexp) (s : jsstring) : bool :=
  match r with
  | Unanchored p => matchesSomewhere p s
  | OnlyLines body => testLinesFrom body true s
  end.

End RegExp.

Import RegExp.

(** ** The wrapper class *)

Module Jaco.

(** The class has one field, the held string [$]. *)
Record t : Type := new { str : jsstring }.

(** What a call can do besides returning: throw. *)
Inductive error : Type := RangeError.

Inductive completion (A : Type) : Type :=
| Return (a : A)
| Throw (e : error).
Arguments Return {A} a.
Arguments Throw {A} e.

(** *** String primitives *)

(** [_toArray]: [this.$.match(/[\uD800-\uDBFF][\uDC00-\uDFFF]|[^\uD800-\uDFFF]/g) || []].
    A global match collects the matches from left to right; where neither
    alternative matches (a surrogate that is not the head of a pair) the scan
    moves on by one code unit and collects nothing. *)
Fixpoint toArray_str (s : jsstring) : list jsstring :=
  match s with
  | [] => []
  | c :: tl =>
      match tl with
      | d :: rest =>
          if isHighSurrogate c && isLowSurrogate d then [c; d] :: toArray_str rest
          else if isSurrogate c then toArray_str tl
          else [c] :: toArray_str tl
      | [] => if isSurrogate c then [] else [[c]]
      end
  end.

Definition _toArray (this : t) : list jsstring := toArray_str (str this).

(** [get length]: the number of elements of the array. *)
Definition length (this : t) : Z := Z.of_nat (List.length (_toArray this)).

(** [size]: the number of code units. *)
Definition size (this : t) : Z := Z.of_nat (List.length (str this)).

(** [indexOf (str, fromIndex = 0)]: the array's own [indexOf]. *)
Definition indexOf (search : jsstring) (fromIndex : number) (this : t) : Z :=
  Array_indexOf (_toArray this) search fromIndex.

(** [repeat]: the counter of [while (times--)] is a number; it is tested,
    then decremented, and the decrement is a binary64 subtraction. *)
Definition Math_max (a b : number) : number :=
  match a, b with
  | NaN, _ | _, NaN => NaN
  | PosInfinity, _ | _, PosInfinity => PosInfinity
  | NegInfinity, x | x, NegInfinity => x
  | Finite p, Finite q => if Qle_bool p q then Finite q else Finite p
  end.

Definition Math_floor (a : number) : number :=
  match a with
  | Finite q => Finite (inject_Z (Qfloor q))
  | _ => a
  end.

Definition truthy (a : number) : bool :=
  match a with
  | NaN => false
  | Finite q => negb (Qeq_bool q 0)
  | _ => true
  end.

Definition decrement (a : number) : number :=
  match a with
  | Finite q => toBinary64 (q - 1)
  | _ => a
  end.

Fixpoint repeat_loop (fuel : nat) (times : number) (s : jsstring) (res : list jsstring)
  : option (list jsstring) :=
  match fuel with
  | O => None
  | S fuel' =>
      if truthy times
      then repeat_loop fuel' (decrement times) s (res ++ [s])
      else Some res
  end.

(** [None] only when the fuel does not cover the loop. *)
Definition repeat (fuel : nat) (times : number) (this : t) : option (completion t) :=
  let times := Math_floor (Math_max times (ofZ 0)) in
  match times with
  | PosInfinity => Some (Throw RangeError)
  | _ =>
      match repeat_loop fuel times (str this) [] with
      | Some res => Some (Return (new (concat res)))
      | None => None
      end
  end.

(** [replace (pattern, replacement)] with a global pattern and a replacement
    without [$] references; [remove (pattern)]. *)
Definition replace (p : pattern) (replacement : jsstring) (this : t) : t :=
  new (replaceAll p (fun _ => replacement) (str this)).

Definition remove (p : pattern) (this : t) : t := replace p [] this.

(** [replaceFromMap]: the keys in insertion order, each compiled with the
    flag [g] and applied to the string as the previous ones left it. *)
Definition replaceFromMap (convMap : list (jsstring * jsstring)) (this : t) : t :=
  fold_left (fun acc kv => replace (Literal (fst kv)) (snd kv) acc) convMap this.

(** [search]: a string or a wrapper is compiled to a pattern first; the
    result is the length of what [split] leaves before the first match. *)
Definition search (searcher : pattern) (this : t) : Z :=
  let before := match splitHead searcher (str this) with Some b => b | None => [] end in
  length (new before).

(** [slice], [substr]: a new wrapper; the receiver is not assigned to.
    [substr] hands its two arguments to [String.prototype.slice]. *)
Definition slice (from : number) (to : option number) (this : t) : t :=
  new (JS.slice (str this) from to).

Definition substr (start : number) (length_ : option number) (this : t) : t :=
  new (JS.slice (str this) start length_).

(** [test (pattern)]: equality for a string, [pattern.test] otherwise. *)
Definition test (pattern : jsstring + regexp) (this : t) : bool :=
  match pattern with
  | inl s => str_eqb (str this) s
  | inr r => RegExp.test r (str this)
  end.

(** [isOnly (characters)]: [new RegExp('^[' + characters + ']+$', 'gm')]. *)
Definition isOnly (characters : jsstring) (this : t) : bool :=
  test (inr (OnlyLines characters)) this.

(** [_shift (needle, shiftNum)] with [needle] the pattern of a class. *)
Definition _shift (needle : pattern) (shiftNum : Z) (this : t) : t :=
  new (replaceAll needle
         (fun char => [fromCharCode (nth 0 char 0 + shiftNum)]) (str this)).

(** *** The mapping tables, as the object literals list them *)

(** [combinateSoundMarks]: base kana and combining mark, to the precomposed kana. *)
Definition combineTable : list (jsstring * jsstring) :=
  [
   ([0x304B; 0x3099], [0x304C]); ([0x304D; 0x3099], [0x304E]); ([0x304F; 0x3099], [0x3050]);
   ([0x3051; 0x3099], [0x3052]); ([0x3053; 0x3099], [0x3054]); ([0x3055; 0x3099], [0x3056]);
   ([0x3057; 0x3099], [0x3058]); ([0x3059; 0x3099], [0x305A]); ([0x305B; 0x3099], [0x305C]);
   ([0x305D; 0x3099], [0x305E]); ([0x305F; 0x3099], [0x3060]); ([0x3061; 0x3099], [0x3062]);
   ([0x3064; 0x3099], [0x3065]); ([0x3066; 0x3099], [0x3067]); ([0x3068; 0x3099], [0x3069]);
   ([0x306F; 0x3099], [0x3070]); ([0x3072; 0x3099], [0x3073]); ([0x3075; 0x3099], [0x3076]);
   ([0x3078; 0x3099], [0x3079]); ([0x307B; 0x3099], [0x307C]); ([0x30AB; 0x3099], [0x30AC]);
   ([0x30AD; 0x3099], [0x30AE]); ([0x30AF; 0x3099], [0x30B0]); ([0x30B1; 0x3099], [0x30B2]);
   ([0x30B3; 0x3099], [0x30B4]); ([0x30B5; 0x3099], [0x30B6]); ([0x30B7; 0x3099], [0x30B8]);
   ([0x30B9; 0x3099], [0x30BA]); ([0x30BB; 0x3099], [0x30BC]); ([0x30BD; 0x3099], [0x30BE]);
   ([0x30BF; 0x3099], [0x30C0]); ([0x30C1; 0x3099], [0x30C2]); ([0x30C4; 0x3099], [0x30C5]);
   ([0x30C6; 0x3099], [0x30C7]); ([0x30C8; 0x3099], [0x30C9]); ([0x30CF; 0x3099], [0x30D0]);
   ([0x30D2; 0x3099], [0x30D3]); ([0x30D5; 0x3099], [0x30D6]); ([0x30D8; 0x3099], [0x30D9]);
   ([0x30DB; 0x3099], [0x30DC]); ([0x30EF; 0x3099], [0x30F7]); ([0x30A4; 0x3099], [0x30F8]);
   ([0x30A6; 0x3099], [0x30F4]); ([0x30A8; 0x3099], [0x30F9]); ([0x30FA; 0x3099], [0x30F2]);
   ([0x309D; 0x3099], [0x309E]); ([0x30FD; 0x3099], [0x30FE]); ([0x306F; 0x309A], [0x3071]);
   ([0x3072; 0x309A], [0x3074]); ([0x3075; 0x309A], [0x3077]); ([0x3078; 0x309A], [0x307A]);
   ([0x307B; 0x309A], [0x307D]); ([0x30CF; 0x309A], [0x30D1]); ([0x30D2; 0x309A], [0x30D4]);
   ([0x30D5; 0x309A], [0x30D7]); ([0x30D8; 0x309A], [0x30DA]); ([0x30DB; 0x309A], [0x30DD])
  ].

(** [combinateSoundMarks (true)]: the spacing marks to the combining marks. *)
Definition combiningMarkTable : list (jsstring * jsstring) :=
  [
   ([0x309B], [0x3099]); ([0x309C], [0x309A])
  ].

(** [toHiragana]: U+30F7 to U+30FA have no hiragana of their own. *)
Definition archaicVoicedTable : list (jsstring * jsstring) :=
  [
   ([0x30F7], [0x308F; 0x309B]); ([0x30F8], [0x3090; 0x309B]);
   ([0x30F9], [0x3091; 0x309B]); ([0x30FA], [0x3092; 0x309B])
  ].

(** [toNarrowKatakana]. *)
Definition narrowKatakanaTable : list (jsstring * jsstring) :=
  [
   ([0x30A1], [0xFF67]); ([0x30A3], [0xFF68]); ([0x30A5], [0xFF69]);
   ([0x30A7], [0xFF6A]); ([0x30A9], [0xFF6B]); ([0x30E3], [0xFF6C]);
   ([0x30E5], [0xFF6D]); ([0x30E7], [0xFF6E]); ([0x30C3], [0xFF6F]);
   ([0x30F5], [0xFF76]); ([0x30F6], [0xFF79]); ([0x30EE], [0xFF9C]);
   ([0x30FC], [0xFF70]); ([0x30A2], [0xFF71]); ([0x30A4], [0xFF72]);
   ([0x30A6], [0xFF73]); ([0x30A8], [0xFF74]); ([0x30AA], [0xFF75]);
   ([0x30AB], [0xFF76]); ([0x30AD], [0xFF77]); ([0x30AF], [0xFF78]);
   ([0x30B1], [0xFF79]); ([0x30B3], [0xFF7A]); ([0x30B5], [0xFF7B]);
   ([0x30B7], [0xFF7C]); ([0x30B9], [0xFF7D]); ([0x30BB], [0xFF7E]);
   ([0x30BD], [0xFF7F]); ([0x30BF], [0xFF80]); ([0x30C1], [0xFF81]);
   ([0x30C4], [0xFF82]); ([0x30C6], [0xFF83]); ([0x30C8], [0xFF84]);
   ([0x30CA], [0xFF85]); ([0x30CB], [0xFF86]); ([0x30CC], [0xFF87]);
   ([0x30CD], [0xFF88]); ([0x30CE], [0xFF89]); ([0x30CF], [0xFF8A]);
   ([0x30D2], [0xFF8B]); ([0x30D5], [0xFF8C]); ([0x30D8], [0xFF8D]);
   ([0x30DB], [0xFF8E]); ([0x30DE], [0xFF8F]); ([0x30DF], [0xFF90]);
   ([0x30E0], [0xFF91]); ([0x30E1], [0xFF92]); ([0x30E2], [0xFF93]);
   ([0x30E4], [0xFF94]); ([0x30E6], [0xFF95]); ([0x30E8], [0xFF96]);
   ([0x30E9], [0xFF97]); ([0x30EA], [0xFF98]); ([0x30EB], [0xFF99]);
   ([0x30EC], [0xFF9A]); ([0x30ED], [0xFF9B]); ([0x30EF], [0xFF9C]);
   ([0x30F3], [0xFF9D]); ([0x30F0], [0xFF72]); ([0x30F1], [0xFF74]);
   ([0x30F2], [0xFF66]); ([0x30AC], [0xFF76; 0xFF9E]); ([0x30AE], [0xFF77; 0xFF9E]);
   ([0x30B0], [0xFF78; 0xFF9E]); ([0x30B2], [0xFF79; 0xFF9E]); ([0x30B4], [0xFF7A; 0xFF9E]);
   ([0x30B6], [0xFF7B; 0xFF9E]); ([0x30B8], [0xFF7C; 0xFF9E]); ([0x30BA], [0xFF7D; 0xFF9E]);
   ([0x30BC], [0xFF7E; 0xFF9E]); ([0x30BE], [0xFF7F; 0xFF9E]); ([0x30C0], [0xFF80; 0xFF9E]);
   ([0x30C2], [0xFF81; 0xFF9E]); ([0x30C5], [0xFF82; 0xFF9E]); ([0x30C7], [0xFF83; 0xFF9E]);
   ([0x30C9], [0xFF84; 0xFF9E]); ([0x30D0], [0xFF8A; 0xFF9E]); ([0x30D3], [0xFF8B; 0xFF9E]);
   ([0x30D6], [0xFF8C; 0xFF9E]); ([0x30D9], [0xFF8D; 0xFF9E]); ([0x30DC], [0xFF8E; 0xFF9E]);
   ([0x30D1], [0xFF8A; 0xFF9F]); ([0x30D4], [0xFF8B; 0xFF9F]); ([0x30D7], [0xFF8C; 0xFF9F]);
   ([0x30DA], [0xFF8D; 0xFF9F]); ([0x30DD], [0xFF8E; 0xFF9F]); ([0x30F7], [0xFF9C; 0xFF9E]);
   ([0x30F8], [0xFF72; 0xFF9E]); ([0x30F4], [0xFF73; 0xFF9E]); ([0x30F9], [0xFF74; 0xFF9E]);
   ([0x30FA], [0xFF66; 0xFF9E])
  ].

(** [toWideKatakana]: the digraphs come first. *)
Definition wideKatakanaTable : list (jsstring * jsstring) :=
  [
   ([0xFF76; 0xFF9E], [0x30AC]); ([0xFF77; 0xFF9E], [0x30AE]); ([0xFF78; 0xFF9E], [0x30B0]);
   ([0xFF79; 0xFF9E], [0x30B2]); ([0xFF7A; 0xFF9E], [0x30B4]); ([0xFF7B; 0xFF9E], [0x30B6]);
   ([0xFF7C; 0xFF9E], [0x30B8]); ([0xFF7D; 0xFF9E], [0x30BA]); ([0xFF7E; 0xFF9E], [0x30BC]);
   ([0xFF7F; 0xFF9E], [0x30BE]); ([0xFF80; 0xFF9E], [0x30C0]); ([0xFF81; 0xFF9E], [0x30C2]);
   ([0xFF82; 0xFF9E], [0x30C5]); ([0xFF83; 0xFF9E], [0x30C7]); ([0xFF84; 0xFF9E], [0x30C9]);
   ([0xFF8A; 0xFF9E], [0x30D0]); ([0xFF8B; 0xFF9E], [0x30D3]); ([0xFF8C; 0xFF9E], [0x30D6]);
   ([0xFF8D; 0xFF9E], [0x30D9]); ([0xFF8E; 0xFF9E], [0x30DC]); ([0xFF8A; 0xFF9F], [0x30D1]);
   ([0xFF8B; 0xFF9F], [0x30D4]); ([0xFF8C; 0xFF9F], [0x30D7]); ([0xFF8D; 0xFF9F], [0x30DA]);
   ([0xFF8E; 0xFF9F], [0x30DD]); ([0xFF9C; 0xFF9E], [0x30F7]); ([0xFF72; 0xFF9E], [0x30F8]);
   ([0xFF73; 0xFF9E], [0x30F4]); ([0xFF74; 0xFF9E], [0x30F9]); ([0xFF66; 0xFF9E], [0x30FA]);
   ([0xFF9E], [0x309B]); ([0xFF9F], [0x309C]); ([0xFF67], [0x30A1]);
   ([0xFF68], [0x30A3]); ([0xFF69], [0x30A5]); ([0xFF6A], [0x30A7]);
   ([0xFF6B], [0x30A9]); ([0xFF6C], [0x30E3]); ([0xFF6D], [0x30E5]);
   ([0xFF6E], [0x30E7]); ([0xFF6F], [0x30C3]); ([0xFF70], [0x30FC]);
   ([0xFF71], [0x30A2]); ([0xFF72], [0x30A4]); ([0xFF73], [0x30A6]);
   ([0xFF74], [0x30A8]); ([0xFF75], [0x30AA]); ([0xFF76], [0x30AB]);
   ([0xFF77], [0x30AD]); ([0xFF78], [0x30AF]); ([0xFF79], [0x30B1]);
   ([0xFF7A], [0x30B3]); ([0xFF7B], [0x30B5]); ([0xFF7C], [0x30B7]);
   ([0xFF7D], [0x30B9]); ([0xFF7E], [0x30BB]); ([0xFF7F], [0x30BD]);
   ([0xFF80], [0x30BF]); ([0xFF81], [0x30C1]); ([0xFF82], [0x30C4]);
   ([0xFF83], [0x30C6]); ([0xFF84], [0x30C8]); ([0xFF85], [0x30CA]);
   ([0xFF86], [0x30CB]); ([0xFF87], [0x30CC]); ([0xFF88], [0x30CD]);
   ([0xFF89], [0x30CE]); ([0xFF8A], [0x30CF]); ([0xFF8B], [0x30D2]);
   ([0xFF8C], [0x30D5]); ([0xFF8D], [0x30D8]); ([0xFF8E], [0x30DB]);
   ([0xFF8F], [0x30DE]); ([0xFF90], [0x30DF]); ([0xFF91], [0x30E0]);
   ([0xFF92], [0x30E1]); ([0xFF93], [0x30E2]); ([0xFF94], [0x30E4]);
   ([0xFF95], [0x30E6]); ([0xFF96], [0x30E8]); ([0xFF97], [0x30E9]);
   ([0xFF98], [0x30EA]); ([0xFF99], [0x30EB]); ([0xFF9A], [0x30EC]);
   ([0xFF9B], [0x30ED]); ([0xFF9C], [0x30EF]); ([0xFF66], [0x30F2]);
   ([0xFF9D], [0x30F3])
  ].

(** [addVoicedMarks]. *)
Definition voicedTable : list (jsstring * jsstring) :=
  [
   ([0x304B], [0x304C]); ([0x304D], [0x304E]); ([0x304F], [0x3050]);
   ([0x3051], [0x3052]); ([0x3053], [0x3054]);
   ([0x3055], [0x3056]); ([0x3057], [0x3058]); ([0x3059], [0x305A]);
   ([0x305B], [0x305C]); ([0x305D], [0x305E]);
   ([0x305F], [0x3060]); ([0x3061], [0x3062]); ([0x3064], [0x3065]);
   ([0x3066], [0x3067]); ([0x3068], [0x3069]);
   ([0x306F], [0x3070]); ([0x3072], [0x3073]); ([0x3075], [0x3076]);
   ([0x3078], [0x3079]); ([0x307B], [0x307C]);
   ([0x30AB], [0x30AC]); ([0x30AD], [0x30AE]); ([0x30AF], [0x30B0]);
   ([0x30B1], [0x30B2]); ([0x30B3], [0x30B4]);
   ([0x30B5], [0x30B6]); ([0x30B7], [0x30B8]); ([0x30B9], [0x30BA]);
   ([0x30BB], [0x30BC]); ([0x30BD], [0x30BE]);
   ([0x30BF], [0x30C0]); ([0x30C1], [0x30C2]); ([0x30C4], [0x30C5]);
   ([0x30C6], [0x30C7]); ([0x30C8], [0x30C9]);
   ([0x30CF], [0x30D0]); ([0x30D2], [0x30D3]); ([0x30D5], [0x30D6]);
   ([0x30D8], [0x30D9]); ([0x30DB], [0x30DC]);
   ([0x30EF], [0x30F7]); ([0x30A4], [0x30F8]); ([0x30A6], [0x30F4]);
   ([0x30A8], [0x30F9]); ([0x30FA], [0x30F2]);
   ([0x309D], [0x309E]); ([0x30FD], [0x30FE])
  ].

(** The fourteen replacements of [convertProlongedSoundMarks], in order:
    the class before the mark and the kana that takes the mark's place. *)
Definition prolongedTable : list (jsstring * unit16) :=
  [
   ([0x3042; 0x3041; 0x304B; 0x3095; 0x304C; 0x3055; 0x3056; 0x305F; 0x3060; 0x306A; 0x306F;
     0x3070; 0x3071; 0x307E; 0x3084; 0x3083; 0x3089; 0x308F; 0x308E], 0x3042);
   ([0x3044; 0x3043; 0x304D; 0x304E; 0x3057; 0x3058; 0x3061; 0x3062; 0x306B; 0x3072; 0x3073;
     0x3074; 0x307F; 0x308A; 0x3090], 0x3044);
   ([0x3046; 0x3045; 0x3094; 0x304F; 0x3050; 0x3059; 0x305A; 0x3064; 0x3065; 0x306C; 0x3075;
     0x3076; 0x3077; 0x3080; 0x3086; 0x3085; 0x308B], 0x3046);
   ([0x3048; 0x3047; 0x3051; 0x3096; 0x3052; 0x305B; 0x305C; 0x3066; 0x3067; 0x306D; 0x3078;
     0x3079; 0x307A; 0x3081; 0x308C; 0x3091], 0x3048);
   ([0x304A; 0x3049; 0x3053; 0x3054; 0x305D; 0x305E; 0x3068; 0x3069; 0x306E; 0x307B; 0x307C;
     0x307D; 0x3082; 0x3088; 0x3087; 0x308D; 0x3092], 0x304A);
   ([0x3093], 0x3093);
   ([0x3063], 0x3063);
   ([0x30A2; 0x30A1; 0x30AB; 0x30F5; 0x30AC; 0x30B5; 0x30B6; 0x30BF; 0x30C0; 0x30CA; 0x30CF;
     0x30D0; 0x30D1; 0x30DE; 0x30E4; 0x30E3; 0x30E9; 0x30EF; 0x30EE; 0x30F7], 0x30A2);
   ([0x30A4; 0x30A3; 0x30AD; 0x30AE; 0x30B7; 0x30B8; 0x30C1; 0x30C2; 0x30CB; 0x30D2; 0x30D3;
     0x30D4; 0x30DF; 0x30EA; 0x30F0; 0x30F8], 0x30A4);
   ([0x30A6; 0x30A5; 0x30F4; 0x30AF; 0x30B0; 0x30B9; 0x30BA; 0x30C4; 0x30C5; 0x30CC; 0x30D5;
     0x30D6; 0x30D7; 0x30E0; 0x30E6; 0x30E5; 0x30EB], 0x30A6);
   ([0x30A8; 0x30A7; 0x30B1; 0x30F6; 0x30B2; 0x30BB; 0x30BC; 0x30C6; 0x30C7; 0x30CD; 0x30D8;
     0x30D9; 0x30DA; 0x30E1; 0x30EC; 0x30F1; 0x30F9], 0x30A8);
   ([0x30AA; 0x30A9; 0x30B3; 0x30B4; 0x30BD; 0x30BE; 0x30C8; 0x30C9; 0x30CE; 0x30DB; 0x30DC;
     0x30DD; 0x30E2; 0x30E8; 0x30E7; 0x30ED; 0x30F2; 0x30FA], 0x30AA);
   ([0x30F3], 0x30F3);
   ([0x30C3], 0x30C3)
  ].

Definition prolongedSoundMark : unit16 := 0x30FC.

(** *** Kana conversions *)

Section Constants.

(** The imported constants ([./const/...]) are character-class bodies. *)
Variable HIRAGANA_CHARS : jsstring.
Variable KATAKANA_CHARS : jsstring.
Variable KANA_COMMON_CAHRS : jsstring.

(** Modelled from the spec: ./fn/toPattern is not among the sources; it
    turns a character-class string into the global pattern that matches any
    one character of the set. *)
Definition toPattern (chars : jsstring) : pattern := AnyOf chars.

Definition isOnlyHiragana (this : t) : bool :=
  isOnly (HIRAGANA_CHARS ++ KANA_COMMON_CAHRS) this.

Definition isOnlyKatakana (this : t) : bool :=
  isOnly (KATAKANA_CHARS ++ KANA_COMMON_CAHRS) this.

(** [combinateSoundMarks (isConvertCombiningSoundMarks = false)]. The first
    branch begins with the call [this.combinateSoundMarks (true)], which is
    the second branch. *)
Definition combinateSoundMarks (isConvertCombiningSoundMarks : bool) (this : t) : t :=
  if negb isConvertCombiningSoundMarks
  then replaceFromMap combineTable (replaceFromMap combiningMarkTable this)
  else replaceFromMap combiningMarkTable this.

Definition toWideKatakana (this : t) : t := replaceFromMap wideKatakanaTable this.

(** [toHiragana (isCombinate = false)]. *)
Definition toHiragana (isCombinate : bool) (this : t) : t :=
  let this := toWideKatakana this in
  let this := replaceFromMap archaicVoicedTable this in
  let this := _shift (toPattern KATAKANA_CHARS) (-96) this in
  if isCombinate then combinateSoundMarks false this else this.

(** [toKatakana (toWide = true)]. *)
Definition voicedSoundMarks : jsstring := [0x309B; 0x3099; 0xFF9E].
Definition semivoicedSoundMarks : jsstring := [0x309C; 0x309A; 0xFF9F].

Definition toKatakana (toWide : bool) (this : t) : t :=
  let this := if toWide then toWideKatakana this else this in
  let this := replace (Pair [0x308F] voicedSoundMarks) [0x30F7] this in
  let this := replace (Pair [0x3090] voicedSoundMarks) [0x30F8] this in
  let this := replace (Pair [0x3091] voicedSoundMarks) [0x30F9] this in
  let this := replace (Pair [0x3092] voicedSoundMarks) [0x30FA] this in
  _shift (toPattern HIRAGANA_CHARS) 96 this.

(** [toNarrowKatakana (fromHiragana = false)]. *)
Definition toNarrowKatakana (fromHiragana : bool) (this : t) : t :=
  let this := if fromHiragana then toKatakana true this else this in
  let this := replace (AnyOf [0x309B; 0x3099]) [0xFF9E] this in
  let this := replace (AnyOf [0x309C; 0x309A]) [0xFF9F] this in
  replaceFromMap narrowKatakanaTable this.

(** [addVoicedMarks]. *)
Definition addVoicedMarks (this : t) : t :=
  let this := remove (AnyOf voicedSoundMarks) this in
  let this := remove (AnyOf semivoicedSoundMarks) this in
  replaceFromMap voicedTable this.

(** [convertProlongedSoundMarks]: [conv] is the chain of the fourteen
    replacements; the loop runs it while the test pattern matches. *)
Definition kanaWithProlongedSoundMarksPattern : regexp :=
  Unanchored (Pair (HIRAGANA_CHARS ++ KATAKANA_CHARS) [prolongedSoundMark]).

Definition conv (_str : jsstring) : jsstring :=
  fold_left
    (fun acc cv =>
       replaceAll (Pair (fst cv) [prolongedSoundMark])
         (fun m => [nth 0 m 0; snd cv]) acc)
    prolongedTable _str.

Fixpoint convertProlongedSoundMarks_loop (fuel : nat) (converted : jsstring)
  : option jsstring :=
  match fuel with
  | O => None
  | S fuel' =>
      if RegExp.test kanaWithProlongedSoundMarksPattern converted
      then convertProlongedSoundMarks_loop fuel' (conv converted)
      else Some converted
  end.

(** [None]: the loop has not left within [fuel] passes. *)
Definition convertProlongedSoundMarks (fuel : nat) (this : t) : option t :=
  match convertProlongedSoundMarks_loop fuel (str this) with
  | Some converted => Some (new converted)
  | None => None
  end.

End Constants.

End Jaco.

(** ** The free functions (fn/) *)

Module Fn.

(** fn/indexOf.js imports [./is], [./slice], [./split] and
    [../util/arrayize], which are not among the sources; the specification
    presents the free functions as thin re-expressions of the wrapper's
    methods. *)

(** Modelled from the spec: fn/is is missing; full equality of two strings. *)
Definition is_ (str target : jsstring) : bool := str_eqb str target.

(** Modelled from the spec: fn/slice is missing; the substring from a
    position to the end. *)
Definition slice (str : jsstring) (start : Z) : jsstring := JS.slice str (ofZ start) None.

(** Modelled from the spec: fn/split is missing; the first piece of the
    platform's split by a separator string. *)
Definition split0 (str separator : jsstring) : option jsstring :=
  splitHead (Literal separator) str.

(** Modelled from the spec: util/arrayize is missing; the array-izer. *)
Definition arrayize (str : jsstring) : list jsstring := Jaco.toArray_str str.

(** fn/indexOf.js. [None]: [split] returned an empty array, and the function
    goes on with [undefined]. *)
Definition indexOf (str search : jsstring) (fromIndex : Z) : option Z :=
  let sliced := slice str fromIndex in
  match split0 sliced search with
  | Some splited =>
      if is_ str splited then Some (-1)
      else Some (Z.of_nat (List.length (arrayize splited)) + fromIndex)
  | None => None
  end.

End Fn.

(** ** The constants, as the specification describes them *)

Module Const.

(** Modelled from the spec: ./const/HIRAGANA_CHARS is not among the sources.
    The hiragana block U+3041 to U+3096, the standalone marks U+3099 to
    U+309C, and the iteration marks U+309D and U+309E. *)
Definition HIRAGANA_CHARS : jsstring :=
  [0x3041; 0x002D; 0x3096; 0x3099; 0x002D; 0x309C; 0x309D; 0x309E].

(** Modelled from the spec: ./const/KATAKANA_CHARS is not among the sources.
    The katakana block U+30A1 to U+30FA and U+30FD to U+30FF. The marks
    U+3099 to U+309C are not members: the test suite expects the hiragana
    conversion, which shifts every member of this class, to keep them. *)
Definition KATAKANA_CHARS : jsstring :=
  [0x30A1; 0x002D; 0x30FA; 0x30FD; 0x002D; 0x30FF].

(** Modelled from the spec: ./const/KANA_COMMON_CAHRS is not among the
    sources. The prolonged sound mark, the middle dot and the iteration
    marks. *)
Definition KANA_COMMON_CAHRS : jsstring :=
  [0x30FC; 0x30FB; 0x309D; 0x309E; 0x30FD; 0x30FE].

End Const.

(** ** Properties stated by the specification, as predicates *)

Module Spec.

(** A string is well paired when every surrogate code unit belongs to a
    high-low pair. *)
Fixpoint wellPaired (s : jsstring) : bool :=
  match s with
  | [] => true
  | c :: tl =>
      match tl with
      | d :: rest =>
          if isHighSurrogate c && isLowSurrogate d then wellPaired rest
          else negb (isSurrogate c) && wellPaired tl
      | [] => negb (isSurrogate c)
      end
  end.

(** A surrogate pair (an astral character) occurs in the string. *)
Fixpoint hasSurrogatePair (s : jsstring) : bool :=
  match s with
  | [] => false
  | c :: tl =>
      match tl with
      | d :: _ => (isHighSurrogate c && isLowSurrogate d) || hasSurrogatePair tl
      | [] => false
      end
  end.

(** The array-izer guarantee, as the specification words it. *)
Definition arrayizer_guarantee (s : jsstring) : Prop :=
  concat (Jaco._toArray (Jaco.new s)) = s
  /\ Jaco.length (Jaco.new s) = Z.of_nat (List.length (Jaco._toArray (Jaco.new s)))
  /\ Jaco.length (Jaco.new s) <= Jaco.size (Jaco.new s)
  /\ (Jaco.length (Jaco.new s) = Jaco.size (Jaco.new s) <-> hasSurrogatePair s = false).


(** The voiced and semi-voiced katakana pairs of the width tables: the
    narrow digraph and the wide precomposed kana. *)
Definition voicedKatakanaPairs : list (jsstring * jsstring) :=
  filter (fun kv => (List.length (fst kv) =? 2)%nat) Jaco.wideKatakanaTable.

(** The lines of a buffer: the pieces between line terminators. *)
Fixpoint lines (s : jsstring) : list jsstring :=
  match s with
  | [] => [[]]
  | c :: tl =>
      if isLineTerminator c then [] :: lines tl
      else
        match lines tl with
        | l :: ls => (c :: l) :: ls
        | [] => [[c]]
        end
  end.

(** A line made of members of the class only. *)
Definition onlyOf (characters : jsstring) (l : jsstring) : Prop :=
  forall c, In c l -> classMatches characters c = true.

(** [isOnly], as the specification words it: true exactly when every line of
    the buffer consists of members of the set. *)
Definition isOnly_every_line (characters buffer : jsstring) : Prop :=
  Jaco.isOnly characters (Jaco.new buffer) = true
  <-> (forall l, In l (lines buffer) -> onlyOf characters l).

(** A line that is not empty and holds members of the class only. *)
Definition fullLine (characters : jsstring) (l : jsstring) : bool :=
  match l with
  | [] => false
  | _ :: _ => forallb (classMatches characters) l
  end.

(** No line terminator is a member of the class. *)
Definition noLineTerminator (characters : jsstring) : bool :=
  forallb (fun c => negb (classMatches characters c)) [0x000A; 0x000D; 0x2028; 0x2029].

(** The standalone voicing and semi-voicing marks, in their three encodings. *)
Definition isSoundMark (c : unit16) : bool :=
  classMatches Jaco.voicedSoundMarks c || classMatches Jaco.semivoicedSoundMarks c.

(** The voiced form of a kana, as the specification words it: the base kana
    of the k, s, t and h rows and the iteration marks have their voiced form
    at the next code point; U+30EF, U+30A4, U+30A6, U+30A8 and U+30F2 have
    U+30F7, U+30F8, U+30F4, U+30F9 and U+30FA; every other character is its
    own image. *)
Definition voicedAtNextCodePoint : list unit16 :=
  [0x304B; 0x304D; 0x304F; 0x3051; 0x3053; 0x3055; 0x3057; 0x3059; 0x305B; 0x305D;
   0x305F; 0x3061; 0x3064; 0x3066; 0x3068; 0x306F; 0x3072; 0x3075; 0x3078; 0x307B;
   0x30AB; 0x30AD; 0x30AF; 0x30B1; 0x30B3; 0x30B5; 0x30B7; 0x30B9; 0x30BB; 0x30BD;
   0x30BF; 0x30C1; 0x30C4; 0x30C6; 0x30C8; 0x30CF; 0x30D2; 0x30D5; 0x30D8; 0x30DB;
   0x309D; 0x30FD].

Definition voicedFormTable : list (unit16 * unit16) :=
  map (fun b => (b, b + 1)) voicedAtNextCodePoint
  ++ [(0x30EF, 0x30F7); (0x30A4, 0x30F8); (0x30A6, 0x30F4); (0x30A8, 0x30F9);
      (0x30F2, 0x30FA)].

(** Lookup in a table of code units; a unit that is no key is its own image. *)
Definition lookupUnit (table : list (unit16 * unit16)) (c : unit16) : unit16 :=
  match find (fun kv => fst kv =? c) table with
  | Some kv => snd kv
  | None => c
  end.

Definition voicedForm (c : unit16) : unit16 := lookupUnit voicedFormTable c.

(** [addVoicedMarks], as the specification words it: every character is
    replaced by its voiced form, and nothing else happens. *)
Definition addVoicedMarks_pointwise (s : jsstring) : Prop :=
  Jaco.str (Jaco.addVoicedMarks (Jaco.new s)) = map voicedForm s.

(** The combining form of a spacing mark. *)
Definition toCombiningMark (c : unit16) : unit16 :=
  if c =? 0x309B then 0x3099 else if c =? 0x309C then 0x309A else c.

Definition isSpacingMark (c : unit16) : bool := (c =? 0x309B) || (c =? 0x309C).

(** Every kana directly followed by a spacing mark keeps its place and the
    mark becomes the combining mark; nothing else changes. *)
Fixpoint marksAfterKanaToCombining (isKana : unit16 -> bool) (s : jsstring) : jsstring :=
  match s with
  | [] => []
  | c :: tl =>
      match tl with
      | m :: rest =>
          if isKana c && isSpacingMark m
          then c :: toCombiningMark m :: marksAfterKanaToCombining isKana rest
          else c :: marksAfterKanaToCombining isKana tl
      | [] => [c]
      end
  end.

(** The two modes of the hiragana conversion, as the specification relates
    them. *)
Definition hiraganize_modes (HIRAGANA_CHARS KATAKANA_CHARS text : jsstring) : Prop :=
  Jaco.str (Jaco.toHiragana KATAKANA_CHARS true (Jaco.new text))
  = marksAfterKanaToCombining (classMatches (HIRAGANA_CHARS ++ KATAKANA_CHARS))
      (Jaco.str (Jaco.toHiragana KATAKANA_CHARS false (Jaco.new text))).

(** No key of the combination table occurs in the string. *)
Definition noCombinablePair (s : jsstring) : bool :=
  forallb (fun kv => negb (matchesSomewhere (Literal (fst kv)) s)) Jaco.combineTable.

(** A table of one-unit keys and one-unit values, read as a table of units;
    the sequence of replacements it stands for, on one unit. *)
Definition unitTable (table : list (jsstring * jsstring)) : list (unit16 * unit16) :=
  map (fun kv => (nth 0 (fst kv) 0, nth 0 (snd kv) 0)) table.

Definition singleUnits (table : list (jsstring * jsstring)) : bool :=
  forallb (fun kv => (List.length (fst kv) =? 1)%nat && (List.length (snd kv) =? 1)%nat) table.

Definition substUnit (table : list (unit16 * unit16)) (c : unit16) : unit16 :=
  fold_left (fun (c : unit16) (kv : unit16 * unit16) => if c =? fst kv then snd kv else c)
    table c.

(** No value of the table is the key of a later entry. *)
Fixpoint noChain (table : list (unit16 * unit16)) : bool :=
  match table with
  | [] => true
  | kv :: rest => negb (existsb (fun kv' => fst kv' =? snd kv) rest) && noChain rest
  end.

End Spec.

(** ** The other methods of the class *)

Module Wrapper.

Import Jaco.

(** *** Characters and code points *)

(** [array[index]] names an element only for a number that is a
    non-negative integer. *)
Definition arrayIndex (index : number) : option nat :=
  match index with
  | Finite q =>
      if Qeq_bool q (inject_Z (Qfloor q)) && (0 <=? Qfloor q)
      then Some (Z.to_nat (Qfloor q))
      else None
  | _ => None
  end.

(** [charAt (index = 0)]: [this._toArray()[index] || '']. *)
Definition charAt (index : number) (this : t) : jsstring :=
  match arrayIndex index with
  | Some i => nth i (_toArray this) []
  | None => []
  end.

(** [charCodeAt (index = 0)]: not-a-number for the empty string, the code
    unit for a string of length 1, the decoded pair otherwise. *)
Definition charCodeAt (index : number) (this : t) : number :=
  match charAt index this with
  | [] => NaN
  | [c] => ofZ c
  | first :: second :: _ => ofZ ((first - 0xD800) * 0x400 + second - 0xDC00 + 0x10000)
  end.

(** *** Joining *)

(** An argument of [concat]: a string, a wrapper, or an array of either. *)
Inductive concatArg : Type :=
| AString (s : jsstring)
| AWrapper (j : t)
| AStrings (l : list jsstring)
| AWrappers (l : list t).

Definition argToString (a : concatArg) : jsstring :=
  match a with
  | AString s => s
  | AWrapper j => str j
  | AStrings l => List.concat l
  | AWrappers l => List.concat (map str l)
  end.

(** [concat (...args)]: [this.$ += args.map (...).join ('')]. *)
Definition concat (args : list concatArg) (this : t) : t :=
  new (str this ++ List.concat (map argToString args)).

(** [append (element)] is [this.concat (element)]; [prepend (element)] is
    [new Jaco (element).concat (this).toString ()]. *)
Definition append (element : jsstring) (this : t) : t := concat [AString element] this.

Definition prepend (element : jsstring) (this : t) : t :=
  new (str (concat [AWrapper this] (new element))).

(** *** Searching *)

(** [includes (search, position = 0)], for a search string: [search.length]
    counts its code units, [this.length] the array-ized characters, and
    [position + search.length] is a binary64 sum. *)
Definition exceedsLength (position : number) (searchLength len : Z) : bool :=
  match position with
  | NaN => false
  | PosInfinity => true
  | NegInfinity => false
  | Finite q =>
      match toBinary64 (q + inject_Z searchLength) with
      | Finite sum => negb (Qle_bool sum (inject_Z len))
      | PosInfinity => true
      | _ => false
      end
  end.

Definition includes (search : jsstring) (position : number) (this : t) : bool :=
  if exceedsLength position (Z.of_nat (List.length search)) (length this)
  then false
  else negb (indexOf search position this =? -1).

(** [lastIndexOf (str, fromIndex = Infinity)]. *)
Definition lastIndexOf (search : jsstring) (fromIndex : number) (this : t) : Z :=
  Array_lastIndexOf (_toArray this) search fromIndex.

(** [endWith (search, position)], for a search string; an absent position
    is [None]. The position is replaced by the length unless it is a finite
    integer that does not exceed the length. *)
Definition endPosition (position : option number) (len : Z) : Z :=
  match position with
  | Some (Finite q) =>
      if Qeq_bool q (inject_Z (Qfloor q)) && (Qfloor q <=? len) then Qfloor q else len
  | _ => len
  end.

Definition endWith (search : jsstring) (position : option number) (this : t) : bool :=
  let position := endPosition position (length this) - Z.of_nat (List.length search) in
  let lastIndex := lastIndexOf search (ofZ position) this in
  negb (lastIndex =? -1) && (lastIndex =? position).

(** *** Voicing marks and small letters: the tables *)

(** [addSemivoicedMarks]. *)
Definition semivoicedTable : list (jsstring * jsstring) :=
  [
   ([0x306F], [0x3071]); ([0x3072], [0x3074]); ([0x3075], [0x3077]);
   ([0x3078], [0x307A]); ([0x307B], [0x307D]); ([0x30CF], [0x30D1]);
   ([0x30D2], [0x30D4]); ([0x30D5], [0x30D7]); ([0x30D8], [0x30DA]);
   ([0x30DB], [0x30DD])
  ].

(** [removeVoicedMarks]. *)
Definition unvoicedTable : list (jsstring * jsstring) :=
  [
   ([0x304C], [0x304B]); ([0x304E], [0x304D]); ([0x3050], [0x304F]);
   ([0x3052], [0x3051]); ([0x3054], [0x3053]); ([0x3056], [0x3055]);
   ([0x3058], [0x3057]); ([0x305A], [0x3059]); ([0x305C], [0x305B]);
   ([0x305E], [0x305D]); ([0x3060], [0x305F]); ([0x3062], [0x3061]);
   ([0x3065], [0x3064]); ([0x3067], [0x3066]); ([0x3069], [0x3068]);
   ([0x3070], [0x306F]); ([0x3073], [0x3072]); ([0x3076], [0x3075]);
   ([0x3079], [0x3078]); ([0x307C], [0x307B]); ([0x3071], [0x306F]);
   ([0x3074], [0x3072]); ([0x3077], [0x3075]); ([0x307A], [0x3078]);
   ([0x307D], [0x307B]); ([0x30AC], [0x30AB]); ([0x30AE], [0x30AD]);
   ([0x30B0], [0x30AF]); ([0x30B2], [0x30B1]); ([0x30B4], [0x30B3]);
   ([0x30B6], [0x30B5]); ([0x30B8], [0x30B7]); ([0x30BA], [0x30B9]);
   ([0x30BC], [0x30BB]); ([0x30BE], [0x30BD]); ([0x30C0], [0x30BF]);
   ([0x30C2], [0x30C1]); ([0x30C5], [0x30C4]); ([0x30C7], [0x30C6]);
   ([0x30C9], [0x30C8]); ([0x30D0], [0x30CF]); ([0x30D3], [0x30D2]);
   ([0x30D6], [0x30D5]); ([0x30D9], [0x30D8]); ([0x30DC], [0x30DB]);
   ([0x30D1], [0x30CF]); ([0x30D4], [0x30D2]); ([0x30D7], [0x30D5]);
   ([0x30DA], [0x30D8]); ([0x30DD], [0x30DB]); ([0x30F7], [0x30EF]);
   ([0x30F8], [0x30A4]); ([0x30F4], [0x30A6]); ([0x30F9], [0x30A8]);
   ([0x30FA], [0x30F2]); ([0x309E], [0x309D]); ([0x30FE], [0x30FD])
  ].

(** [toBasicLetter]. *)
Definition basicLetterTable : list (jsstring * jsstring) :=
  [
   ([0x3041], [0x3042]); ([0x3043], [0x3044]); ([0x3045], [0x3046]);
   ([0x3047], [0x3048]); ([0x3049], [0x304A]); ([0x3063], [0x3064]);
   ([0x3083], [0x3084]); ([0x3085], [0x3086]); ([0x3087], [0x3088]);
   ([0x308E], [0x308F]); ([0x30A1], [0x30A2]); ([0x30A3], [0x30A4]);
   ([0x30A5], [0x30A6]); ([0x30A7], [0x30A8]); ([0x30A9], [0x30AA]);
   ([0x30F5], [0x30AB]); ([0x31F0], [0x30AF]); ([0x30F6], [0x30B1]);
   ([0x31F1], [0x30B7]); ([0x31F2], [0x30B9]); ([0x30C3], [0x30C4]);
   ([0x31F3], [0x30C8]); ([0x31F4], [0x30CC]); ([0x31F5], [0x30CF]);
   ([0x31F6], [0x30D2]); ([0x31F7], [0x30D5]); ([0x31F8], [0x30D8]);
   ([0x31F9], [0x30DB]); ([0x31FA], [0x30E0]); ([0x30E3], [0x30E4]);
   ([0x30E5], [0x30E6]); ([0x30E7], [0x30E8]); ([0x31FB], [0x30E9]);
   ([0x31FC], [0x30EA]); ([0x31FD], [0x30EB]); ([0x31FE], [0x30EC]);
   ([0x31FF], [0x30ED]); ([0x30EE], [0x30EF])
  ].

(** The class of [hasSmallLetter]. *)
Definition smallLetters : jsstring :=
  [0x3041; 0x3043; 0x3045; 0x3047; 0x3049; 0x3063; 0x3083; 0x3085; 0x3087; 0x308E;
   0x30A1; 0x30A3; 0x30A5; 0x30A7; 0x30A9; 0x30F5; 0x31F0; 0x30F6; 0x31F1; 0x31F2;
   0x30C3; 0x31F3; 0x31F4; 0x31F5; 0x31F6; 0x31F7; 0x31F8; 0x31F9; 0x31FA; 0x30E3;
   0x30E5; 0x30E7; 0x31FB; 0x31FC; 0x31FD; 0x31FE; 0x31FF; 0x30EE].

(** [toNarrowJapneseSymbol], [toWideJapneseSymbol]. *)
Definition narrowSymbolTable : list (jsstring * jsstring) :=
  [([0x3002], [0xFF61]); ([0x300C], [0xFF62]); ([0x300D], [0xFF63]);
   ([0x3001], [0xFF64]); ([0x30FB], [0xFF65])].

Definition wideSymbolTable : list (jsstring * jsstring) :=
  [([0xFF61], [0x3002]); ([0xFF62], [0x300C]); ([0xFF63], [0x300D]);
   ([0xFF64], [0x3001]); ([0xFF65], [0x30FB])].

(** *** Voicing marks and small letters: the methods *)

Definition addSemivoicedMarks (this : t) : t := replaceFromMap semivoicedTable this.

(** [removeVoicedMarks (ignoreSingleMark = false)]. *)
Definition removeVoicedMarks (ignoreSingleMark : bool) (this : t) : t :=
  let this :=
    if negb ignoreSingleMark
    then remove (AnyOf semivoicedSoundMarks) (remove (AnyOf voicedSoundMarks) this)
    else this in
  replaceFromMap unvoicedTable this.

Definition toBasicLetter (this : t) : t :=
  replaceFromMap basicLetterTable (combinateSoundMarks false this).

Definition hasSmallLetter (this : t) : bool :=
  RegExp.test (Unanchored (AnyOf smallLetters)) (str this).

Definition toNarrowJapneseSymbol (this : t) : t := replaceFromMap narrowSymbolTable this.

Definition toWideJapneseSymbol (this : t) : t := replaceFromMap wideSymbolTable this.

(** *** Sizes *)

(** [.replace(/%../g, 'x')]: a percent sign and the two units after it,
    neither of them a line terminator, become one [x]; [skip] counts the
    units of a match still to be passed over. *)
Fixpoint replaceEscapes_aux (skip : nat) (s : jsstring) : jsstring :=
  match s with
  | [] => []
  | c :: tl =>
      match skip with
      | S k => replaceEscapes_aux k tl
      | O =>
          match tl with
          | a :: b :: _ =>
              if (c =? 0x25) && negb (isLineTerminator a) && negb (isLineTerminator b)
              then 0x78 :: replaceEscapes_aux 2 tl
              else c :: replaceEscapes_aux 0 tl
          | _ => c :: replaceEscapes_aux 0 tl
          end
      end
  end.

(** [byteSize]: [encodeURIComponent (this.$).replace (/%../g, 'x').length];
    [None] is the URIError of [encodeURIComponent]. *)
Definition byteSize (this : t) : option Z :=
  match encodeURIComponent (str this) with
  | Some encoded => Some (Z.of_nat (List.length (replaceEscapes_aux 0 encoded)))
  | None => None
  end.

(** *** trim *)

(** The pattern [/^\s*|\s*$/g], matched at the head of [s]: at the start
    of the input the first alternative takes the run of white space, which
    may be empty; elsewhere the second alternative matches when the rest
    of the input is white space. *)
Fixpoint spaceRun (s : jsstring) : nat :=
  match s with
  | c :: tl => if isWhiteSpace c then S (spaceRun tl) else O
  | [] => O
  end.

Definition matchTrim (atStart : bool) (s : jsstring) : option nat :=
  if atStart then Some (spaceRun s)
  else if forallb isWhiteSpace s then Some (List.length s) else None.

(** The global replacement by the empty string: [skip] counts the units of
    a match still to be passed over; after an empty match the scan moves
    on by one unit. *)
Fixpoint trim_aux (atStart : bool) (skip : nat) (s : jsstring) : jsstring :=
  match s with
  | [] => []
  | c :: tl =>
      match skip with
      | S k => trim_aux false k tl
      | O =>
          match matchTrim atStart s with
          | Some (S n) => trim_aux false n tl
          | Some O => c :: trim_aux false O tl
          | None => c :: trim_aux false O tl
          end
      end
  end.

(** [trim]: [this.remove (/^\s*|\s*$/g)]. *)
Definition trim (this : t) : t := new (trim_aux true O (str this)).

(** *** Numbers *)

(** The first match only: [replace] with a string, or with a pattern
    without the flag [g].
    - [replaceAtStart k v]: [/^k/] for a unit [k];
    - [replaceFirstUnit k v]: the string [k] of one unit;
    - [replaceFirstDotDigit]: [replace (/\.([0-9])/, '_$1')]. *)
Definition isDigit (c : unit16) : bool := (0x30 <=? c) && (c <=? 0x39).

Definition replaceAtStart (k v : unit16) (s : jsstring) : jsstring :=
  match s with
  | c :: tl => if c =? k then v :: tl else s
  | [] => []
  end.

Fixpoint replaceFirstUnit (k v : unit16) (s : jsstring) : jsstring :=
  match s with
  | c :: tl => if c =? k then v :: tl else c :: replaceFirstUnit k v tl
  | [] => []
  end.

Fixpoint replaceFirstDotDigit (s : jsstring) : jsstring :=
  match s with
  | c :: tl =>
      match tl with
      | d :: _ => if (c =? 0x2E) && isDigit d then 0x5F :: tl else c :: replaceFirstDotDigit tl
      | [] => [c]
      end
  | [] => []
  end.

(** [remove (/[^body]/gm)]: every unit outside the class goes. *)
Definition removeNoneOf (body : jsstring) (this : t) : t :=
  new (flat_map (fun c : unit16 => if classMatches body c then [c] else []) (str this)).

(** The body of the class [[^0-9\.\-]]. *)
Definition numericUnits : jsstring := [0x30; 0x2D; 0x39; 0x2E; 0x2D].

Section Widths.

Variable SPACE_CHARS : jsstring.
Variable FULLWIDTH_ALPHANUMERIC_CHARS_WITH_SIGN : jsstring.
Variable HIRAGANA_CHARS : jsstring.

Definition toNarrowJapnese (this : t) : t :=
  toNarrowJapneseSymbol (toNarrowKatakana HIRAGANA_CHARS false this).

Definition toWideJapnese (this : t) : t := toWideJapneseSymbol (toWideKatakana this).

(** [toNarrow (convertJapaneseChars = false)]. *)
Definition toNarrow (convertJapaneseChars : bool) (this : t) : t :=
  let this := replace (toPattern SPACE_CHARS) [0x20] this in
  let this := _shift (toPattern FULLWIDTH_ALPHANUMERIC_CHARS_WITH_SIGN) (-65248) this in
  if convertJapaneseChars then toNarrowJapnese this else this.

(** [toNumeric (negative = false, floatingPoint = false)]. *)
Definition toNumeric (negative floatingPoint : bool) (this : t) : t :=
  let this := toNarrow false this in
  let this := removeNoneOf numericUnits this in
  let this := if negative then new (replaceAtStart 0x2D 0x6E (str this)) else this in
  let this := remove (Literal [0x2D]) this in
  let this := if negative then new (replaceFirstUnit 0x6E 0x2D (str this)) else this in
  let this := if floatingPoint then new (replaceFirstDotDigit (str this)) else this in
  let this := remove (Literal [0x2E]) this in
  if floatingPoint then new (replaceFirstUnit 0x5F 0x2E (str this)) else this.

End Widths.

(** [isNumeric (negative = true, floatingPoint = true)]: the pattern
    [^-?(?:[0-9]*\.)?[0-9]+$], each optional part present when its flag is
    set. [digitsToEnd] is [[0-9]+$]; [fractionToEnd] is [[0-9]*\.[0-9]+$],
    for some number of leading digits. *)
Definition digitsToEnd (s : jsstring) : bool :=
  match s with
  | [] => false
  | _ => forallb isDigit s
  end.

Definition fractionToEnd (s : jsstring) : bool :=
  existsb
    (fun k =>
       forallb isDigit (firstn k s)
       && match skipn k s with
          | c :: rest => (c =? 0x2E) && digitsToEnd rest
          | [] => false
          end)
    (seq 0 (List.length s)).

Definition numberToEnd (floatingPoint : bool) (s : jsstring) : bool :=
  (floatingPoint && fractionToEnd s) || digitsToEnd s.

Definition isNumeric (negative floatingPoint : bool) (this : t) : bool :=
  (negative
   && match str this with
      | c :: tl => (c =? 0x2D) && numberToEnd floatingPoint tl
      | [] => false
      end)
  || numberToEnd floatingPoint (str this).

End Wrapper.

(** src/src/const/NARROW_KATAKANA_CHARS.ts: the half-width katakana, a
    class body. No method of the class uses it. *)
Definition NARROW_KATAKANA_CHARS : jsstring := [0xFF66; 0x002D; 0xFF9F].

(** ** Notions used to state further properties *)

Module Props.

(** The shape of an array-ized character: one code unit that is not a
    surrogate, or a high surrogate followed by a low one. *)
Definition isCharacter (e : jsstring) : bool :=
  match e with
  | [c] => negb (isSurrogate c)
  | [h; l] => isHighSurrogate h && isLowSurrogate l
  | _ => false
  end.

(** Membership in a list of code units. *)
Definition memUnit (l : list unit16) (c : unit16) : bool := existsb (fun a => c =? a) l.

(** The tables of the voicing methods, unit by unit. *)
Definition voiced : unit16 -> unit16 := Spec.lookupUnit (Spec.unitTable Jaco.voicedTable).
Definition semivoiced : unit16 -> unit16 :=
  Spec.lookupUnit (Spec.unitTable Wrapper.semivoicedTable).
Definition unvoiced : unit16 -> unit16 :=
  Spec.lookupUnit (Spec.unitTable Wrapper.unvoicedTable).
Definition unmarked (c : unit16) : bool := negb (Spec.isSoundMark c).

(** The table of [toWideKatakana] lists thirty digraphs, then the single
    half-width katakana. *)
Definition wideKatakanaDigraphs : list (jsstring * jsstring) :=
  firstn 30 Jaco.wideKatakanaTable.

Definition wideKatakanaSingles : list (jsstring * jsstring) :=
  skipn 30 Jaco.wideKatakanaTable.

(** The last unit of a string is a high surrogate; the first is a low one. *)
Fixpoint endsWithHigh (s : jsstring) : bool :=
  match s with
  | [] => false
  | c :: tl =>
      match tl with
      | [] => isHighSurrogate c
      | _ :: _ => endsWithHigh tl
      end
  end.

Definition startsWithLow (s : jsstring) : bool :=
  match s with
  | c :: _ => isLowSurrogate c
  | [] => false
  end.

(** The narrow and the wide Japanese symbols of the symbol tables. *)
Definition isNarrowSymbol (c : unit16) : bool :=
  memUnit [0xFF61; 0xFF62; 0xFF63; 0xFF64; 0xFF65] c.

Definition isWideSymbol (c : unit16) : bool :=
  memUnit [0x3002; 0x300C; 0x300D; 0x3001; 0x30FB] c.

(** *** Tables applied in one pass *)

(** Lookup of a two-unit key. *)
Definition lookupPair (table : list (jsstring * jsstring)) (c d : unit16) : option jsstring :=
  match find (fun kv => str_eqb (fst kv) [c; d]) table with
  | Some kv => Some (snd kv)
  | None => None
  end.

(** One pass from left to right that replaces every two-unit key it meets. *)
Fixpoint replacePairs (table : list (jsstring * jsstring)) (s : jsstring) : jsstring :=
  match s with
  | [] => []
  | c :: tl =>
      match tl with
      | d :: rest =>
          match lookupPair table c d with
          | Some v => v ++ replacePairs table rest
          | None => c :: replacePairs table tl
          end
      | [] => [c]
      end
  end.

(** A table of two-unit keys and one-unit values, where no first unit of a
    key is a second unit of a key and no value is either. *)
Definition firstUnits (table : list (jsstring * jsstring)) : list unit16 :=
  map (fun kv => nth 0 (fst kv) 0) table.

Definition secondUnits (table : list (jsstring * jsstring)) : list unit16 :=
  map (fun kv => nth 1 (fst kv) 0) table.

Definition pairEntry (firsts seconds : list unit16) (kv : jsstring * jsstring) : bool :=
  (List.length (fst kv) =? 2)%nat && (List.length (snd kv) =? 1)%nat
  && memUnit firsts (nth 0 (fst kv) 0) && memUnit seconds (nth 1 (fst kv) 0)
  && negb (memUnit firsts (nth 0 (snd kv) 0)) && negb (memUnit seconds (nth 0 (snd kv) 0)).

Definition pairTable (table : list (jsstring * jsstring)) : bool :=
  forallb (pairEntry (firstUnits table) (secondUnits table)) table
  && forallb (fun b => negb (memUnit (secondUnits table) b)) (firstUnits table).

(** Lookup of a one-unit key in a table whose values are strings. *)
Definition lookupStr (table : list (jsstring * jsstring)) (c : unit16) : jsstring :=
  match find (fun kv => str_eqb (fst kv) [c]) table with
  | Some kv => snd kv
  | None => [c]
  end.

(** A table of one-unit keys whose values hold no key. *)
Definition keyUnits (table : list (jsstring * jsstring)) : list unit16 :=
  map (fun kv => nth 0 (fst kv) 0) table.

Definition unitKeyEntry (keys : list unit16) (kv : jsstring * jsstring) : bool :=
  (List.length (fst kv) =? 1)%nat && forallb (fun u => negb (memUnit keys u)) (snd kv).

Definition unitKeyTable (table : list (jsstring * jsstring)) : bool :=
  forallb (unitKeyEntry (keyUnits table)) table.

(** What [toNarrowKatakana] does to one unit: the two replacements of the
    marks, then the table. *)
Definition narrowMark (c : unit16) : unit16 :=
  if classMatches [0x309B; 0x3099] c then 0xFF9E
  else if classMatches [0x309C; 0x309A] c then 0xFF9F
  else c.

Definition narrowOf (c : unit16) : jsstring := lookupStr Jaco.narrowKatakanaTable (narrowMark c).

(** What the single half-width katakana become in [toWideKatakana]. *)
Definition wideOf (c : unit16) : unit16 := Spec.lookupUnit (Spec.unitTable wideKatakanaSingles) c.

(** The full-width characters that come back from the half-width form: not
    a half-width katakana, not a voicing mark, and none of U+30F5, U+30F6,
    U+30EE, U+30F0, U+30F1, which share their half-width form with another
    katakana. *)
Definition comesBackWide (c : unit16) : bool :=
  negb (classMatches NARROW_KATAKANA_CHARS c)
  && negb (Spec.isSoundMark c)
  && negb (memUnit [0x30F5; 0x30F6; 0x30EE; 0x30F0; 0x30F1] c).

(** The half-width form of a character, seen by [toWideKatakana]: it comes
    back as the character, it is one unit or a digraph of the table, and it
    does not begin with a half-width mark. *)
Definition narrowFormComesBack (c : unit16) : bool :=
  str_eqb (map wideOf (replacePairs wideKatakanaDigraphs (narrowOf c))) [c]
  && match narrowOf c with
     | [_] => true
     | [b; m] => match lookupPair wideKatakanaDigraphs b m with Some _ => true | None => false end
     | _ => false
     end
  && negb (memUnit (secondUnits wideKatakanaDigraphs) (nth 0 (narrowOf c) 0)).

(** *** UTF-8 *)

(** The code point of an array-ized character and the number of octets
    UTF-8 spends on a code point. *)
Definition codePoint (e : jsstring) : Z :=
  match e with
  | [c] => c
  | [h; l] => (h - 0xD800) * 0x400 + (l - 0xDC00) + 0x10000
  | _ => 0
  end.

Definition utf8Length (cp : Z) : Z :=
  if cp <=? 0x7F then 1 else if cp <=? 0x7FF then 2 else if cp <=? 0xFFFF then 3 else 4.

Definition utf8Size (characters : list jsstring) : Z :=
  fold_right (fun e n => utf8Length (codePoint e) + n) 0 characters.

(** *** Numbers *)

(** A digit or the dot. *)
Definition dotOrDigit (c : unit16) : bool := Wrapper.isDigit c || (c =? 0x2E).

(** *** The prolonged sound mark *)

(** The number of prolonged sound marks of a string, the characters that
    one of the fourteen replacements lists, and one replacement. *)
Definition countMarks (s : jsstring) : nat :=
  List.length (filter (fun c : unit16 => c =? Jaco.prolongedSoundMark) s).

Definition inProlongedTable (c : unit16) : bool :=
  existsb (fun row : jsstring * unit16 => classMatches (fst row) c) Jaco.prolongedTable.

Definition prolongedPass (row : jsstring * unit16) (s : jsstring) : jsstring :=
  replaceAll (Pair (fst row) [Jaco.prolongedSoundMark]) (fun m => [nth 0 m 0; snd row]) s.

(** [expansion rows prev s r]: [r] is [s] with some of its prolonged
    sound marks replaced, each by the kana of a row whose class holds the
    unit that stands before it in [r]; every other unit is kept. [prev] is
    the unit before the head of [r], if there is one. *)
Definition expandsMark (rows : list (jsstring * unit16)) (prev : option unit16)
    (a b : unit16) : bool :=
  (b =? a)
  || ((a =? Jaco.prolongedSoundMark)
      && match prev with
         | Some p =>
             existsb (fun row : jsstring * unit16 =>
                        classMatches (fst row) p && (b =? snd row)) rows
         | None => false
         end).

Fixpoint expansion (rows : list (jsstring * unit16)) (prev : option unit16)
    (s r : jsstring) : bool :=
  match s, r with
  | [], [] => true
  | a :: s', b :: r' => expandsMark rows prev a b && expansion rows (Some b) s' r'
  | _, _ => false
  end.

End Props.

(** * Theorems *)

(** ** Lists, two elements at a time *)

Lemma list_pair_ind (A : Type) (P : list A -> Prop) :
  P [] ->
  (forall a, P [a]) ->
  (forall a b l, P l -> P (b :: l) -> P (a :: b :: l)) ->
  forall l, P l.
Proof.
  intros Hnil Hone Hstep l.
  assert (H : P l /\ forall a, P (a :: l)).
  { induction l as [|b l [IH1 IH2]].
    - split; [exact Hnil | exact Hone].
    - split; [apply IH2 | intro a; apply Hstep; [exact IH1 | apply IH2]]. }
  exact (proj1 H).
Qed.

(** ** Rounding to binary64 *)

Section Binary64.

Lemma divNearestEven_exact (x d : Z) : 0 < d -> divNearestEven (x * d) d = x.
Proof.
  intro Hd. unfold divNearestEven.
  rewrite Z.mod_mul by lia. rewrite Z.div_mul by lia.
  assert (E : (2 * 0 ?= d) = Lt) by (apply Z.compare_lt_iff; lia).
  rewrite E. reflexivity.
Qed.

Lemma floorLog2_multiple (k d : Z) : 1 <= k -> 0 < d -> floorLog2 (k * d) d = Z.log2 k.
Proof.
  intros Hk Hd. unfold floorLog2.
  pose proof (Z.log2_mul_below k d ltac:(lia) ltac:(lia)) as Hlo.
  pose proof (Z.log2_mul_above k d ltac:(lia) ltac:(lia)) as Hhi.
  pose proof (Z.log2_nonneg k) as Hnn.
  pose proof (Z.log2_spec k ltac:(lia)) as [Hk1 Hk2].
  set (e := Z.log2 (k * d) - Z.log2 d) in *. cbv zeta.
  assert (He : e = Z.log2 k \/ e = Z.log2 k + 1) by lia.
  destruct (Z.leb_spec 0 e) as [_|Hneg]; [|lia].
  destruct He as [He|He]; rewrite He.
  - destruct (Z.leb_spec (2 ^ Z.log2 k * d) (k * d)) as [_|Hgt]; [reflexivity|].
    exfalso. apply (Z.mul_le_mono_nonneg_r _ _ d) in Hk1; lia.
  - replace (Z.succ (Z.log2 k)) with (Z.log2 k + 1) in Hk2 by lia.
    destruct (Z.leb_spec (2 ^ (Z.log2 k + 1) * d) (k * d)) as [Hle|_]; [|lia].
    exfalso. apply (Z.mul_lt_mono_pos_r d) in Hk2; lia.
Qed.

(** An integer below 2^53 is a binary64 value: rounding leaves it. *)
Lemma toBinary64_integer (q : Q) (k : Z) :
  (q == inject_Z k)%Q -> 0 <= k < 2 ^ 53 ->
  exists q', toBinary64 q = Finite q' /\ (q' == inject_Z k)%Q.
Proof.
  destruct q as [n d]. unfold Qeq, inject_Z. cbn [Qnum Qden]. intros Hq Hk.
  assert (Hn : n = k * Zpos d) by lia. subst n. clear Hq.
  unfold toBinary64. cbn [Qnum Qden].
  destruct (Z.eq_dec k 0) as [->|Hk0].
  - cbn [Z.mul Z.abs Z.eqb]. exists 0%Q. split; reflexivity.
  - assert (Hpos : 0 < k * Zpos d) by (apply Z.mul_pos_pos; lia).
    rewrite Z.abs_eq by lia.
    destruct (Z.eqb_spec (k * Zpos d) 0) as [E|_]; [lia|].
    rewrite (floorLog2_multiple k (Zpos d)) by lia.
    pose proof (Z.log2_nonneg k) as Hnn.
    assert (Hlt : Z.log2 k < 53) by (apply Z.log2_lt_pow2; lia).
    rewrite Z.max_l by lia. cbv zeta.
    assert (Hsign : (k * Zpos d <? 0) = false) by (apply Z.ltb_ge; lia).
    rewrite Hsign.
    assert (Hover : (1024 <=? Z.log2 k) = false) by (apply Z.leb_gt; lia).
    assert (Hover' : (Z.log2 k =? 1023) = false) by (apply Z.eqb_neq; lia).
    rewrite Hover, Hover'. cbn [orb andb].
    destruct (Z.leb_spec 0 (Z.log2 k - 52)) as [Hs|Hs].
    + assert (Hz : Z.log2 k - 52 = 0) by lia. rewrite Hz.
      change (2 ^ 0) with 1. rewrite !Z.mul_1_r.
      rewrite divNearestEven_exact by lia.
      exists (inject_Z k). split; reflexivity.
    + set (t := - (Z.log2 k - 52)) in *.
      assert (Ht : 0 < 2 ^ t) by (apply Z.pow_pos_nonneg; lia).
      replace (k * Zpos d * 2 ^ t) with (k * 2 ^ t * Zpos d) by ring.
      rewrite divNearestEven_exact by lia.
      exists (Qmake (k * 2 ^ t) (Z.to_pos (2 ^ t))). split; [reflexivity|].
      unfold Qeq. cbn [Qnum Qden]. rewrite Z2Pos.id by lia. ring.
Qed.

(** Some values: 2^53 + 1 and 2^53 + 3 are ties and go to the even
    neighbour; one tenth gets the 53-bit mantissa 0x1999999999999A. *)
Example toBinary64_values :
  toBinary64 (inject_Z (2 ^ 53 + 1)) = Finite (inject_Z (2 ^ 53))
  /\ toBinary64 (inject_Z (2 ^ 53 + 3)) = Finite (inject_Z (2 ^ 53 + 4))
  /\ toBinary64 (1 # 10) = Finite (7205759403792794 # 72057594037927936)
  /\ toBinary64 (inject_Z (2 ^ 1024 - 2 ^ 970)) = PosInfinity.
Proof. repeat split; vm_compute; reflexivity. Qed.

End Binary64.

(** ** The array-izer *)

Section Arrayizer.

Import Jaco Spec.

Lemma surrogate_cases (c : unit16) :
  isSurrogate c = isHighSurrogate c || isLowSurrogate c.
Proof.
  unfold isSurrogate, isHighSurrogate, isLowSurrogate.
  destruct (Z.leb_spec 0xD800 c), (Z.leb_spec c 0xDBFF), (Z.leb_spec 0xDC00 c),
    (Z.leb_spec c 0xDFFF); simpl; try reflexivity; lia.
Qed.

Lemma high_is_surrogate (c : unit16) : isHighSurrogate c = true -> isSurrogate c = true.
Proof. intro H. rewrite surrogate_cases, H. reflexivity. Qed.

Lemma low_is_surrogate (c : unit16) : isLowSurrogate c = true -> isSurrogate c = true.
Proof. intro H. rewrite surrogate_cases, H. apply orb_true_r. Qed.

(** The two functions that read a string two units at a time, one step. *)
Lemma toArray_str_step (a b : unit16) (l : jsstring) :
  toArray_str (a :: b :: l)
  = if isHighSurrogate a && isLowSurrogate b then [a; b] :: toArray_str l
    else if isSurrogate a then toArray_str (b :: l)
    else [a] :: toArray_str (b :: l).
Proof. reflexivity. Qed.

Lemma wellPaired_step (a b : unit16) (l : jsstring) :
  wellPaired (a :: b :: l)
  = if isHighSurrogate a && isLowSurrogate b then wellPaired l
    else negb (isSurrogate a) && wellPaired (b :: l).
Proof. reflexivity. Qed.

(** The flattened array never has more code units than the string. *)
Lemma concat_toArray_length (s : jsstring) :
  (List.length (concat (toArray_str s)) <= List.length s)%nat.
Proof.
  induction s as [| a | a b l IH1 IH2] using list_pair_ind.
  - simpl. lia.
  - simpl. destruct (isSurrogate a); simpl; lia.
  - rewrite toArray_str_step.
    destruct (isHighSurrogate a && isLowSurrogate b); [simpl; lia|].
    destruct (isSurrogate a); simpl in *; lia.
Qed.

Lemma toArray_length_le (s : jsstring) :
  (List.length (toArray_str s) <= List.length s)%nat.
Proof.
  induction s as [| a | a b l IH1 IH2] using list_pair_ind.
  - simpl. lia.
  - simpl. destruct (isSurrogate a); simpl; lia.
  - rewrite toArray_str_step.
    destruct (isHighSurrogate a && isLowSurrogate b); [simpl; lia|].
    destruct (isSurrogate a); simpl in *; lia.
Qed.

(** The element count is the unit count exactly when no unit is a surrogate. *)
Lemma toArray_length_eq_iff (s : jsstring) :
  List.length (toArray_str s) = List.length s
  <-> forallb (fun c => negb (isSurrogate c)) s = true.
Proof.
  induction s as [| a | a b l IH1 IH2] using list_pair_ind.
  - simpl. tauto.
  - simpl. destruct (isSurrogate a); simpl; split; intro; try reflexivity; discriminate.
  - rewrite toArray_str_step.
    change (forallb (fun c => negb (isSurrogate c)) (a :: b :: l))
      with (negb (isSurrogate a) && forallb (fun c => negb (isSurrogate c)) (b :: l)).
    destruct (isHighSurrogate a && isLowSurrogate b) eqn:Hp.
    + apply andb_true_iff in Hp. destruct Hp as [Ha _].
      rewrite (high_is_surrogate _ Ha). simpl.
      pose proof (toArray_length_le l). split; [lia | discriminate].
    + destruct (isSurrogate a) eqn:Hs.
      * simpl negb. rewrite andb_false_l.
        pose proof (toArray_length_le (b :: l)). simpl in *.
        split; [lia | discriminate].
      * simpl negb. rewrite andb_true_l. rewrite <- IH2. simpl. split; lia.
Qed.

(** Flattening gives the string back exactly for well-paired strings. *)
Lemma concat_toArray_wellPaired (s : jsstring) :
  wellPaired s = true -> concat (toArray_str s) = s.
Proof.
  induction s as [| a | a b l IH1 IH2] using list_pair_ind.
  - reflexivity.
  - simpl. destruct (isSurrogate a); [discriminate | reflexivity].
  - rewrite toArray_str_step.
    rewrite wellPaired_step.
    destruct (isHighSurrogate a && isLowSurrogate b).
    + intro H. rewrite concat_cons, (IH1 H). reflexivity.
    + destruct (isSurrogate a); simpl negb.
      * rewrite andb_false_l. discriminate.
      * rewrite andb_true_l. intro H. rewrite concat_cons, (IH2 H). reflexivity.
Qed.

Lemma concat_toArray_not_wellPaired (s : jsstring) :
  wellPaired s = false -> (List.length (concat (toArray_str s)) < List.length s)%nat.
Proof.
  induction s as [| a | a b l IH1 IH2] using list_pair_ind.
  - discriminate.
  - simpl. destruct (isSurrogate a); simpl; [lia | discriminate].
  - rewrite toArray_str_step.
    rewrite wellPaired_step.
    destruct (isHighSurrogate a && isLowSurrogate b).
    + intro H. specialize (IH1 H). simpl. lia.
    + destruct (isSurrogate a); simpl negb.
      * intros _. pose proof (concat_toArray_length (b :: l)). simpl in *. lia.
      * rewrite andb_true_l. intro H. specialize (IH2 H). simpl in *. lia.
Qed.

Lemma concat_toArray_iff (s : jsstring) :
  concat (toArray_str s) = s <-> wellPaired s = true.
Proof.
  split.
  - intro H. destruct (wellPaired s) eqn:Hw; [reflexivity|].
    pose proof (concat_toArray_not_wellPaired s Hw) as Hlt.
    rewrite H in Hlt. lia.
  - apply concat_toArray_wellPaired.
Qed.

(** In a well-paired string the surrogates are the pairs. *)
Lemma wellPaired_no_surrogate_iff (s : jsstring) :
  wellPaired s = true ->
  (forallb (fun c => negb (isSurrogate c)) s = true <-> hasSurrogatePair s = false).
Proof.
  induction s as [| a | a b l IH1 IH2] using list_pair_ind.
  - simpl. tauto.
  - simpl. intros ->. simpl. tauto.
  - rewrite wellPaired_step.
    change (hasSurrogatePair (a :: b :: l)) with
      ((isHighSurrogate a && isLowSurrogate b) || hasSurrogatePair (b :: l)).
    change (forallb (fun c => negb (isSurrogate c)) (a :: b :: l))
      with (negb (isSurrogate a) && forallb (fun c => negb (isSurrogate c)) (b :: l)).
    destruct (isHighSurrogate a && isLowSurrogate b) eqn:Hp.
    + apply andb_true_iff in Hp. destruct Hp as [Ha _].
      rewrite (high_is_surrogate _ Ha). simpl. intros _. split; discriminate.
    + intro H. apply andb_true_iff in H. destruct H as [Ha Hw].
      rewrite Ha. rewrite andb_true_l, orb_false_l. apply IH2. exact Hw.
Qed.

End Arrayizer.

(** C8, as stated, fails on a lone high surrogate: the array-izer drops the
    unit, so the array is empty, its concatenation is not the string, and the
    length is below the size although the string holds no surrogate pair. *)
Lemma arrayizer_lone_surrogate_counterexample :
  ~ Spec.arrayizer_guarantee [0xD800].
Proof.
  unfold Spec.arrayizer_guarantee. intros [H _]. vm_compute in H. discriminate.
Qed.

(** C8 (amended): for every string whose surrogate code units all belong to
    high-low pairs, the concatenation of the array-izer's sequence is the
    string, the surrogate-aware length is the element count, it is at most
    the size, and it equals the size if and only if the string holds no
    surrogate pair. *)
Theorem arrayizer_guarantee_wellPaired (s : jsstring) :
  Spec.wellPaired s = true -> Spec.arrayizer_guarantee s.
Proof.
  intro Hw. unfold Spec.arrayizer_guarantee, Jaco.length, Jaco.size, Jaco._toArray.
  cbn [Jaco.str].
  split; [apply concat_toArray_wellPaired; exact Hw|].
  split; [reflexivity|].
  split; [pose proof (toArray_length_le s); lia|].
  rewrite <- (wellPaired_no_surrogate_iff s Hw), <- toArray_length_eq_iff.
  split; intro H; [apply Nat2Z.inj; exact H | rewrite H; reflexivity].
Qed.

Lemma arrayizer_guarantee_wellPaired_witness :
  Spec.wellPaired [0x0061; 0xD83D; 0xDE00; 0x3042] = true
  /\ Spec.arrayizer_guarantee [0x0061; 0xD83D; 0xDE00; 0x3042].
Proof.
  split; [reflexivity|].
  apply (arrayizer_guarantee_wellPaired [0x0061; 0xD83D; 0xDE00; 0x3042]).
  reflexivity.
Defined.

(** For every string, whatever its surrogates: the length is at most the
    size, with equality exactly when no code unit is a surrogate, and the
    concatenation gives the string back exactly when it is well paired. *)
Lemma arrayizer_every_string (s : jsstring) :
  Jaco.length (Jaco.new s) <= Jaco.size (Jaco.new s)
  /\ (Jaco.length (Jaco.new s) = Jaco.size (Jaco.new s)
      <-> forallb (fun c => negb (isSurrogate c)) s = true)
  /\ (concat (Jaco._toArray (Jaco.new s)) = s <-> Spec.wellPaired s = true).
Proof.
  unfold Jaco.length, Jaco.size, Jaco._toArray. cbn [Jaco.str].
  split; [pose proof (toArray_length_le s); lia|].
  split; [|apply concat_toArray_iff].
  rewrite <- toArray_length_eq_iff.
  split; intro H; [apply Nat2Z.inj; exact H | rewrite H; reflexivity].
Qed.

(** ** repeat *)

Section Repeat.

Import Jaco.



(** From 2^53 + 4 on [times--] leaves the counter as it is, and the loop
    does not end. *)
Lemma repeat_loop_stalls (fuel : nat) (s : jsstring) (res : list jsstring) :
  repeat_loop fuel (ofZ (2 ^ 53 + 4)) s res = None.
Proof.
  revert res. induction fuel as [|fuel IH]; intro res; [reflexivity|].
  cbn [repeat_loop].
  assert (Ht : truthy (ofZ (2 ^ 53 + 4)) = true) by (vm_compute; reflexivity).
  assert (Hd : decrement (ofZ (2 ^ 53 + 4)) = ofZ (2 ^ 53 + 4)) by (vm_compute; reflexivity).
  rewrite Ht, Hd. apply IH.
Qed.

Lemma repeat_stalls (fuel : nat) (this : t) :
  repeat fuel (ofZ (2 ^ 53 + 4)) this = None.
Proof.
  unfold repeat.
  assert (E : Math_floor (Math_max (ofZ (2 ^ 53 + 4)) (ofZ 0)) = ofZ (2 ^ 53 + 4))
    by (vm_compute; reflexivity).
  rewrite E. unfold ofZ at 1. rewrite (repeat_loop_stalls fuel (str this) []). reflexivity.
Qed.




End Repeat.



(** ** substr, search, indexOf *)

(** [substr] is [slice] under another name. *)
Lemma substr_is_slice (start : number) (length_ : option number) (this : Jaco.t) :
  Jaco.substr start length_ this = Jaco.slice start length_ this.
Proof. reflexivity. Qed.

(** C3 (the code departs from the claim): on "abcdef", [substr (2, 3)] is
    what [slice (2, 3)] is, the single unit "c"; start 2 with count 3 is
    "cde". The receiver is read only. *)
Theorem substr_start_count_failing_input :
  Jaco.str (Jaco.substr (ofZ 2) (Some (ofZ 3))
              (Jaco.new [0x0061; 0x0062; 0x0063; 0x0064; 0x0065; 0x0066]))
  = [0x0063]
  /\ JS.substr [0x0061; 0x0062; 0x0063; 0x0064; 0x0065; 0x0066] (ofZ 2) (Some (ofZ 3))
     = [0x0063; 0x0064; 0x0065].
Proof. split; reflexivity. Qed.

Section Search.

Import Jaco.

Lemma splitHead_aux_no_match (p : pattern) (s : jsstring) :
  matchesSomewhere p s = false -> forall atStart, splitHead_aux p atStart s = s.
Proof.
  induction s as [|c tl IH]; intros H atStart; [reflexivity|].
  simpl in *. destruct (matchLen p (c :: tl)); [discriminate|].
  rewrite (IH H). reflexivity.
Qed.

Lemma splitHead_no_match (p : pattern) (s : jsstring) :
  matchesSomewhere p s = false -> splitHead p s = Some s.
Proof.
  intro H. destruct s as [|c tl].
  - simpl in *. destruct (matchLen p []); [discriminate | reflexivity].
  - unfold splitHead. rewrite (splitHead_aux_no_match p (c :: tl) H). reflexivity.
Qed.

End Search.

(** C4 (the code departs from the claim): when the pattern matches nowhere,
    [search] returns the surrogate-aware length of the whole buffer, which is
    not -1. *)
Theorem search_without_match (p : pattern) (this : Jaco.t) :
  matchesSomewhere p (Jaco.str this) = false ->
  Jaco.search p this = Jaco.length this /\ Jaco.search p this <> -1.
Proof.
  intro H. destruct this as [s]. cbn [Jaco.str] in H.
  assert (E : Jaco.search p (Jaco.new s) = Jaco.length (Jaco.new s)).
  { unfold Jaco.search. cbn [Jaco.str]. rewrite (splitHead_no_match p s H). reflexivity. }
  split; [exact E|]. rewrite E. unfold Jaco.length. lia.
Qed.

Lemma search_without_match_witness :
  Jaco.search (Literal [0x0078]) (Jaco.new [0x0061; 0x0062; 0x0063]) = 3
  /\ Jaco.search (Literal [0x0078]) (Jaco.new [0x0061; 0x0062; 0x0063]) <> -1.
Proof.
  apply (search_without_match (Literal [0x0078]) (Jaco.new [0x0061; 0x0062; 0x0063])).
  reflexivity.
Defined.

(** C5 (the code departs from the claim): for the two-unit search string
    "cd" in "abcdef" the free function finds index 2, the wrapper's method
    finds nothing; for "x" from index 1 in "abc" the free function returns 3,
    the method -1. *)
Theorem indexOf_surfaces_differ :
  Fn.indexOf [0x0061; 0x0062; 0x0063; 0x0064; 0x0065; 0x0066] [0x0063; 0x0064] 0 = Some 2
  /\ Jaco.indexOf [0x0063; 0x0064] (ofZ 0)
       (Jaco.new [0x0061; 0x0062; 0x0063; 0x0064; 0x0065; 0x0066]) = -1
  /\ Fn.indexOf [0x0061; 0x0062; 0x0063] [0x0078] 1 = Some 3
  /\ Jaco.indexOf [0x0078] (ofZ 1) (Jaco.new [0x0061; 0x0062; 0x0063]) = -1.
Proof. repeat split; reflexivity. Qed.

(** ** Width conversion of the voiced katakana *)

(** C9: for each voiced or semi-voiced pair of the width tables, widening
    the narrow digraph and narrowing the result gives the digraph back, and
    narrowing the wide precomposed kana and widening the result gives the
    kana back. *)
Theorem voiced_katakana_width_round_trip
  (HIRAGANA_CHARS : jsstring) (narrow wide : jsstring) :
  In (narrow, wide) Spec.voicedKatakanaPairs ->
  Jaco.toNarrowKatakana HIRAGANA_CHARS false (Jaco.toWideKatakana (Jaco.new narrow))
  = Jaco.new narrow
  /\ Jaco.toWideKatakana (Jaco.toNarrowKatakana HIRAGANA_CHARS false (Jaco.new wide))
     = Jaco.new wide.
Proof.
  intro H. vm_compute in H.
  repeat (destruct H as [H|H];
          [injection H as <- <-; split; vm_compute; reflexivity|]).
  contradiction.
Qed.

Lemma voiced_katakana_width_round_trip_witness :
  In ([0xFF76; 0xFF9E], [0x30AC]) Spec.voicedKatakanaPairs
  /\ Jaco.toNarrowKatakana Const.HIRAGANA_CHARS false
       (Jaco.toWideKatakana (Jaco.new [0xFF76; 0xFF9E]))
     = Jaco.new [0xFF76; 0xFF9E]
  /\ Jaco.toWideKatakana
       (Jaco.toNarrowKatakana Const.HIRAGANA_CHARS false (Jaco.new [0x30AC]))
     = Jaco.new [0x30AC].
Proof.
  assert (Hin : In ([0xFF76; 0xFF9E], [0x30AC]) Spec.voicedKatakanaPairs)
    by (vm_compute; left; reflexivity).
  split; [exact Hin|].
  exact (voiced_katakana_width_round_trip Const.HIRAGANA_CHARS
           [0xFF76; 0xFF9E] [0x30AC] Hin).
Defined.

(** The table holds thirty such pairs. *)
Example voicedKatakanaPairs_count : List.length Spec.voicedKatakanaPairs = 30%nat.
Proof. reflexivity. Qed.

(** ** isOnly *)

Section IsOnly.

Import Spec.

Variable characters : jsstring.
Hypothesis no_terminator_in_class : noLineTerminator characters = true.

Lemma no_terminator (c : unit16) :
  isLineTerminator c = true -> classMatches characters c = false.
Proof.
  unfold isLineTerminator. intro H.
  unfold noLineTerminator in no_terminator_in_class.
  cbn [forallb] in no_terminator_in_class.
  repeat rewrite andb_true_iff in no_terminator_in_class.
  destruct no_terminator_in_class as [H1 [H2 [H3 [H4 _]]]].
  repeat rewrite orb_true_iff in H.
  destruct H as [[[H | H] | H] | H]; apply Z.eqb_eq in H; subst c;
    apply negb_true_iff; assumption.
Qed.

Lemma lines_not_nil (s : jsstring) : lines s <> [].
Proof.
  destruct s as [|c tl]; simpl; [discriminate|].
  destruct (isLineTerminator c); [discriminate|].
  destruct (lines tl); discriminate.
Qed.

Lemma atLineEnd_first_line (s : jsstring) :
  atLineEnd s = match hd [] (lines s) with [] => true | _ => false end.
Proof.
  destruct s as [|c tl]; simpl; [reflexivity|].
  destruct (isLineTerminator c); [reflexivity|].
  destruct (lines tl); reflexivity.
Qed.

(** At a line start the pattern matches exactly when the first line is full. *)
Lemma matchRun_first_line (s : jsstring) :
  matchRunToLineEnd characters s = fullLine characters (hd [] (lines s)).
Proof.
  induction s as [|c tl IH]; [reflexivity|].
  cbn [matchRunToLineEnd lines].
  destruct (isLineTerminator c) eqn:Hc.
  - rewrite (no_terminator c Hc). reflexivity.
  - rewrite IH, atLineEnd_first_line.
    destruct (lines tl) as [|l ls] eqn:Hl; [exfalso; exact (lines_not_nil tl Hl)|].
    cbn [hd fullLine forallb].
    destruct (classMatches characters c); [|reflexivity].
    destruct l; reflexivity.
Qed.

Lemma testLinesFrom_lines (s : jsstring) :
  forall atLineStart,
    testLinesFrom characters atLineStart s
    = (atLineStart && fullLine characters (hd [] (lines s))) || existsb (fullLine characters) (tl (lines s)).
Proof.
  induction s as [|c rest IH]; intro b.
  - simpl. rewrite andb_false_r. reflexivity.
  - cbn [testLinesFrom]. rewrite IH, matchRun_first_line. cbn [lines].
    destruct (isLineTerminator c) eqn:Hc;
      (destruct (lines rest) as [|l ls] eqn:Hl; [exfalso; exact (lines_not_nil rest Hl)|]);
      cbn [hd tl existsb andb fullLine]; rewrite ?andb_false_r; reflexivity.
Qed.

Lemma isOnly_some_full_line (s : jsstring) :
  Jaco.isOnly characters (Jaco.new s) = existsb (fullLine characters) (lines s).
Proof.
  unfold Jaco.isOnly, Jaco.test, RegExp.test. cbn [Jaco.str].
  rewrite testLinesFrom_lines.
  destruct (lines s) as [|l ls] eqn:Hl; [exfalso; exact (lines_not_nil s Hl)|].
  reflexivity.
Qed.

Lemma full_spec (l : jsstring) :
  fullLine characters l = true <-> l <> [] /\ onlyOf characters l.
Proof.
  unfold onlyOf. destruct l as [|c l].
  - simpl. split; [discriminate | intros [H _]; congruence].
  - cbn [fullLine]. rewrite forallb_forall.
    split; [intro H; split; [discriminate | exact H] | intros [_ H]; exact H].
Qed.

Lemma isOnly_iff_some_line (s : jsstring) :
  Jaco.isOnly characters (Jaco.new s) = true
  <-> exists l, In l (lines s) /\ l <> [] /\ onlyOf characters l.
Proof.
  rewrite isOnly_some_full_line, existsb_exists.
  split; intros [l [Hin Hf]]; exists l; (split; [exact Hin|]); apply full_spec; exact Hf.
Qed.

End IsOnly.

(** C2, as stated, fails on a two-line buffer: the first line holds a member
    of the set, the second a character outside it, and the test is true. *)
Lemma isOnly_every_line_counterexample :
  ~ Spec.isOnly_every_line [0x3042] [0x3042; 0x000A; 0x0078].
Proof.
  unfold Spec.isOnly_every_line. intros [H _].
  specialize (H eq_refl [0x0078]).
  assert (Hin : In [0x0078] (Spec.lines [0x3042; 0x000A; 0x0078]))
    by (vm_compute; right; left; reflexivity).
  specialize (H Hin 0x0078 (or_introl eq_refl)).
  vm_compute in H. discriminate.
Qed.

(** C2 (amended): for every buffer and every class body (single characters
    and ranges) that holds no line terminator, [isOnly] is true if and only
    if at least one line of the buffer is non-empty and consists of members
    of the set only; the same holds for [isOnlyHiragana] and
    [isOnlyKatakana], which are [isOnly] at the bodies built from the
    constants. *)
Theorem isOnly_true_iff_some_line (characters buffer : jsstring) :
  classOK characters = true ->
  Spec.noLineTerminator characters = true ->
  (Jaco.isOnly characters (Jaco.new buffer) = true
   <-> exists l, In l (Spec.lines buffer) /\ l <> [] /\ Spec.onlyOf characters l).
Proof.
  intros _ H. apply isOnly_iff_some_line. exact H.
Qed.

Lemma isOnly_true_iff_some_line_witness :
  classOK (Const.HIRAGANA_CHARS ++ Const.KANA_COMMON_CAHRS) = true
  /\ Spec.noLineTerminator (Const.HIRAGANA_CHARS ++ Const.KANA_COMMON_CAHRS) = true
  /\ (Jaco.isOnlyHiragana Const.HIRAGANA_CHARS Const.KANA_COMMON_CAHRS
        (Jaco.new [0x3042; 0x000A; 0x0078]) = true
      <-> exists l, In l (Spec.lines [0x3042; 0x000A; 0x0078]) /\ l <> []
                    /\ Spec.onlyOf (Const.HIRAGANA_CHARS ++ Const.KANA_COMMON_CAHRS) l).
Proof.
  split; [reflexivity|]. split; [reflexivity|].
  apply (isOnly_true_iff_some_line
           (Const.HIRAGANA_CHARS ++ Const.KANA_COMMON_CAHRS) [0x3042; 0x000A; 0x0078]);
    reflexivity.
Defined.

(** On a buffer of one line the test is what the specification says, but for
    the empty buffer, which has no character outside the set and is refused. *)
Example isOnly_empty_buffer : Jaco.isOnly [0x3042] (Jaco.new []) = false.
Proof. reflexivity. Qed.

(** ** Global replacement *)

Section Replacement.

Import Jaco Spec.

(** Without a match the string is left as it is. *)
Lemma replaceAll_no_match (p : pattern) (f : jsstring -> jsstring) (s : jsstring) :
  matchesSomewhere p s = false -> replaceAll p f s = s.
Proof.
  unfold replaceAll. induction s as [|c tl IH]; intro H.
  - simpl in *. destruct (matchLen p []); [discriminate | reflexivity].
  - simpl in *. destruct (matchLen p (c :: tl)); [discriminate|].
    rewrite (IH H). reflexivity.
Qed.

(** A class pattern replaces unit by unit. *)
Lemma replaceAll_anyOf (body : jsstring) (f : jsstring -> jsstring) (s : jsstring) :
  replaceAll (AnyOf body) f s
  = flat_map (fun c => if classMatches body c then f [c] else [c]) s.
Proof.
  unfold replaceAll. induction s as [|c tl IH]; [reflexivity|].
  cbn [replaceAll_aux matchLen flat_map].
  destruct (classMatches body c); cbn [firstn]; rewrite IH; reflexivity.
Qed.

(** So does a key of one unit. *)
Lemma replaceAll_unit (k v : unit16) (s : jsstring) :
  replaceAll (Literal [k]) (fun _ => [v]) s = map (fun c => if c =? k then v else c) s.
Proof.
  unfold replaceAll. induction s as [|c tl IH]; [reflexivity|].
  cbn [replaceAll_aux matchLen stripPrefix map List.length].
  rewrite (Z.eqb_sym k c).
  destruct (c =? k); rewrite IH; reflexivity.
Qed.

Lemma remove_anyOf (body : jsstring) (this : t) :
  str (remove (AnyOf body) this) = filter (fun c => negb (classMatches body c)) (str this).
Proof.
  unfold remove, replace. cbn [str]. rewrite replaceAll_anyOf.
  induction (str this) as [|c tl IH]; [reflexivity|].
  cbn [flat_map filter]. destruct (classMatches body c); cbn [negb app]; rewrite IH; reflexivity.
Qed.

Lemma replaceFromMap_cons (kv : jsstring * jsstring) (table : list (jsstring * jsstring))
      (this : t) :
  replaceFromMap (kv :: table) this
  = replaceFromMap table (replace (Literal (fst kv)) (snd kv) this).
Proof. reflexivity. Qed.

(** A table whose keys occur nowhere changes nothing. *)
Lemma replaceFromMap_no_match (table : list (jsstring * jsstring)) (s : jsstring) :
  forallb (fun kv => negb (matchesSomewhere (Literal (fst kv)) s)) table = true ->
  replaceFromMap table (new s) = new s.
Proof.
  induction table as [|kv table IH]; intro H; [reflexivity|].
  cbn [forallb] in H. apply andb_true_iff in H. destruct H as [Hkv Htable].
  rewrite replaceFromMap_cons. unfold replace. cbn [str].
  rewrite replaceAll_no_match by (apply negb_true_iff; exact Hkv).
  apply IH. exact Htable.
Qed.

(** A table of one-unit keys and values acts on each unit by itself. *)
Lemma replaceFromMap_units (table : list (jsstring * jsstring)) :
  singleUnits table = true ->
  forall this, str (replaceFromMap table this) = map (substUnit (unitTable table)) (str this).
Proof.
  induction table as [|[k v] table IH]; intros H this.
  - cbn. rewrite map_id. reflexivity.
  - cbn [singleUnits forallb fst snd] in H.
    apply andb_true_iff in H. destruct H as [Hkv Htable].
    apply andb_true_iff in Hkv. destruct Hkv as [Hk Hv].
    destruct k as [|k0 [|? ?]]; try discriminate.
    destruct v as [|v0 [|? ?]]; try discriminate.
    rewrite replaceFromMap_cons, (IH Htable). unfold replace. cbn [str fst snd].
    rewrite replaceAll_unit, map_map. reflexivity.
Qed.

Lemma substUnit_not_key (table : list (unit16 * unit16)) (c : unit16) :
  existsb (fun kv => fst kv =? c) table = false -> substUnit table c = c.
Proof.
  unfold substUnit. induction table as [|kv table IH]; intro H; [reflexivity|].
  cbn [existsb] in H. apply orb_false_iff in H. destruct H as [Hkv Htable].
  cbn [fold_left]. unfold unit16 in *.
  rewrite (Z.eqb_sym c (fst kv)), Hkv. apply IH. exact Htable.
Qed.

(** Without chains the sequence of replacements is a lookup. *)
Lemma substUnit_lookup (table : list (unit16 * unit16)) :
  noChain table = true -> forall c, substUnit table c = lookupUnit table c.
Proof.
  induction table as [|kv table IH]; intros H c; [reflexivity|].
  cbn [noChain] in H. apply andb_true_iff in H. destruct H as [Hkv Htable].
  unfold lookupUnit. cbn [find]. unfold substUnit. cbn [fold_left]. unfold unit16 in *.
  rewrite (Z.eqb_sym c (fst kv)).
  destruct (fst kv =? c).
  - apply substUnit_not_key. apply negb_true_iff. exact Hkv.
  - apply (IH Htable).
Qed.

Lemma lookupUnit_not_key (table : list (unit16 * unit16)) (c : unit16) :
  ~ In c (map fst table) -> lookupUnit table c = c.
Proof.
  unfold lookupUnit. induction table as [|kv table IH]; intro H; [reflexivity|].
  cbn [find]. unfold unit16 in *. destruct (Z.eqb_spec (fst kv) c) as [E|E].
  - exfalso. apply H. left. exact E.
  - apply IH. intro Hin. apply H. right. exact Hin.
Qed.

(** Two tables agree everywhere once they agree on their keys. *)
Lemma lookupUnit_agree (t1 t2 : list (unit16 * unit16)) (excluded : unit16 -> bool) :
  forallb (fun k => excluded k || (lookupUnit t1 k =? lookupUnit t2 k))
    (map fst t1 ++ map fst t2) = true ->
  forall c, excluded c = false -> lookupUnit t1 c = lookupUnit t2 c.
Proof.
  intros H c Hc.
  destruct (in_dec Z.eq_dec c (map fst t1 ++ map fst t2)) as [Hin|Hout].
  - rewrite forallb_forall in H. specialize (H c Hin).
    rewrite Hc in H. apply Z.eqb_eq. exact H.
  - rewrite !lookupUnit_not_key; [reflexivity | |];
      intro Hin; apply Hout; apply in_or_app; [right | left]; exact Hin.
Qed.

End Replacement.

(** ** addVoicedMarks *)

Section AddVoicedMarks.

Import Jaco Spec.

(** What the method computes: the marks are deleted, then each unit is
    looked up in the method's own table. *)
Lemma addVoicedMarks_computes (s : jsstring) :
  str (addVoicedMarks (new s))
  = map (lookupUnit (unitTable voicedTable)) (filter (fun c => negb (isSoundMark c)) s).
Proof.
  unfold addVoicedMarks.
  rewrite (replaceFromMap_units voicedTable eq_refl), !remove_anyOf. cbn [str].
  assert (Hfilter :
    filter (fun c => negb (classMatches semivoicedSoundMarks c))
      (filter (fun c => negb (classMatches voicedSoundMarks c)) s)
    = filter (fun c => negb (isSoundMark c)) s).
  { unfold isSoundMark. induction s as [|c tl IH]; [reflexivity|].
    cbn [filter]. destruct (classMatches voicedSoundMarks c); cbn [negb orb].
    - exact IH.
    - cbn [filter]. destruct (classMatches semivoicedSoundMarks c); cbn [negb];
        rewrite IH; reflexivity. }
  rewrite Hfilter. apply map_ext. intro c.
  apply (substUnit_lookup (unitTable voicedTable)). vm_compute. reflexivity.
Qed.

(** But for U+30F2 and U+30FA the method's table is the table of voiced
    forms. *)
Lemma voicedTable_voicedForm (c : unit16) :
  c <> 0x30F2 -> c <> 0x30FA -> lookupUnit (unitTable voicedTable) c = voicedForm c.
Proof.
  intros H1 H2. unfold voicedForm.
  apply (lookupUnit_agree (unitTable voicedTable) voicedFormTable
           (fun k => (k =? 0x30F2) || (k =? 0x30FA))).
  - vm_compute. reflexivity.
  - apply orb_false_iff. split; apply Z.eqb_neq; assumption.
Qed.

End AddVoicedMarks.

(** C6, as stated, fails where a standalone mark stands in the input: the
    method deletes it (first input, the spacing mark after U+304B), it does
    not leave it unchanged; and it fails on U+30F2, which the method leaves
    without its voiced form (second input). *)
Lemma addVoicedMarks_pointwise_counterexample :
  ~ Spec.addVoicedMarks_pointwise [0x304B; 0x309B]
  /\ ~ Spec.addVoicedMarks_pointwise [0x30F2].
Proof.
  unfold Spec.addVoicedMarks_pointwise. split; vm_compute; discriminate.
Qed.

(** C6 (amended): for every input string without U+30F2 and U+30FA, the
    method first deletes every standalone voicing and semi-voicing mark
    (U+309B, U+3099, U+FF9E, U+309C, U+309A, U+FF9F) and then maps each
    voicing-eligible base kana, U+30EF, U+30A4, U+30A6 and U+30A8 among them,
    to its voiced form, leaving every other character, voiced ones
    included, unchanged. *)
Theorem addVoicedMarks_deletes_marks_then_voices (s : jsstring) :
  (forall c, In c s -> c <> 0x30F2 /\ c <> 0x30FA) ->
  Jaco.str (Jaco.addVoicedMarks (Jaco.new s))
  = map Spec.voicedForm (filter (fun c => negb (Spec.isSoundMark c)) s).
Proof.
  intro H. rewrite addVoicedMarks_computes. apply map_ext_in.
  intros c Hin. apply filter_In in Hin. destruct Hin as [Hin _].
  destruct (H c Hin) as [H1 H2]. apply voicedTable_voicedForm; assumption.
Qed.

Lemma addVoicedMarks_deletes_marks_then_voices_witness :
  Jaco.str (Jaco.addVoicedMarks (Jaco.new [0x304B; 0x309B; 0x30EF; 0x304C; 0x0061]))
  = map Spec.voicedForm
      (filter (fun c => negb (Spec.isSoundMark c)) [0x304B; 0x309B; 0x30EF; 0x304C; 0x0061]).
Proof.
  apply (addVoicedMarks_deletes_marks_then_voices [0x304B; 0x309B; 0x30EF; 0x304C; 0x0061]).
  intros c Hin. cbn [In] in Hin.
  repeat (destruct Hin as [Hin|Hin]; [subst c; split; discriminate|]).
  contradiction.
Defined.

(** The two characters left out: the table lists U+30FA with U+30F2 the
    wrong way round, so U+30F2 stays and U+30FA loses its mark. *)
Example addVoicedMarks_wo :
  Jaco.str (Jaco.addVoicedMarks (Jaco.new [0x30F2; 0x30FA])) = [0x30F2; 0x30F2]
  /\ map Spec.voicedForm [0x30F2; 0x30FA] = [0x30FA; 0x30FA].
Proof. split; reflexivity. Qed.

(** ** toHiragana and the sound marks *)

Section Hiragana.

Import Jaco Spec.

(** The mode of [combinateSoundMarks] that stops after the marks: every
    spacing mark becomes the combining mark, wherever it stands. *)
Lemma combiningMarkTable_units (this : t) :
  str (replaceFromMap combiningMarkTable this) = map toCombiningMark (str this).
Proof.
  rewrite (replaceFromMap_units combiningMarkTable eq_refl).
  apply map_ext. intro c. unfold toCombiningMark. cbn.
  destruct (Z.eqb_spec c 0x309B) as [->|_]; [reflexivity|].
  destruct (c =? 0x309C); reflexivity.
Qed.

Lemma combinateSoundMarks_marks_only (this : t) :
  str (combinateSoundMarks true this) = map toCombiningMark (str this).
Proof. apply combiningMarkTable_units. Qed.

(** The other mode goes on with the combination table, which changes
    nothing when none of its keys occurs. *)
Lemma combinateSoundMarks_no_pair (this : t) :
  noCombinablePair (map toCombiningMark (str this)) = true ->
  str (combinateSoundMarks false this) = map toCombiningMark (str this).
Proof.
  intro H. unfold combinateSoundMarks. cbn [negb].
  pose proof (combiningMarkTable_units this) as Hmarks.
  destruct (replaceFromMap combiningMarkTable this) as [s']. cbn [str] in Hmarks. subst s'.
  rewrite (replaceFromMap_no_match combineTable _ H). reflexivity.
Qed.

(** The second mode is the first, followed by [combinateSoundMarks]. *)
Lemma toHiragana_modes (KATAKANA_CHARS : jsstring) (this : t) :
  toHiragana KATAKANA_CHARS true this
  = combinateSoundMarks false (toHiragana KATAKANA_CHARS false this).
Proof. reflexivity. Qed.

End Hiragana.

(** C7, as stated, fails twice: a spacing mark that follows no kana is
    turned into the combining mark as well (first input, the letter a and
    U+309B), and a kana with a precomposed voiced form is merged with its
    mark (second input, U+304B and U+309B, gives U+304C). *)
Lemma hiraganize_modes_counterexample :
  ~ Spec.hiraganize_modes Const.HIRAGANA_CHARS Const.KATAKANA_CHARS [0x0061; 0x309B]
  /\ ~ Spec.hiraganize_modes Const.HIRAGANA_CHARS Const.KATAKANA_CHARS [0x304B; 0x309B].
Proof.
  unfold Spec.hiraganize_modes. split; vm_compute; discriminate.
Qed.

(** C7 (amended): for every input text in whose first-mode output no base
    kana of the combination table is directly followed by a voicing mark,
    the second mode gives the first mode's output with every spacing mark
    U+309B or U+309C, after a kana or not, replaced by the combining mark
    U+3099 or U+309A; the two outputs have the same length and are equal at
    every other position. *)
Theorem hiraganize_combining_marks (KATAKANA_CHARS text : jsstring) :
  Spec.noCombinablePair
    (map Spec.toCombiningMark
       (Jaco.str (Jaco.toHiragana KATAKANA_CHARS false (Jaco.new text)))) = true ->
  Jaco.str (Jaco.toHiragana KATAKANA_CHARS true (Jaco.new text))
  = map Spec.toCombiningMark
      (Jaco.str (Jaco.toHiragana KATAKANA_CHARS false (Jaco.new text))).
Proof.
  intro H. rewrite toHiragana_modes. apply combinateSoundMarks_no_pair. exact H.
Qed.

Lemma hiraganize_combining_marks_witness :
  Spec.noCombinablePair
    (map Spec.toCombiningMark
       (Jaco.str (Jaco.toHiragana Const.KATAKANA_CHARS false
                    (Jaco.new [0x30F7; 0x0061; 0x309B])))) = true
  /\ Jaco.str (Jaco.toHiragana Const.KATAKANA_CHARS true (Jaco.new [0x30F7; 0x0061; 0x309B]))
     = map Spec.toCombiningMark
         (Jaco.str (Jaco.toHiragana Const.KATAKANA_CHARS false
                      (Jaco.new [0x30F7; 0x0061; 0x309B]))).
Proof.
  split; [reflexivity|].
  apply (hiraganize_combining_marks Const.KATAKANA_CHARS [0x30F7; 0x0061; 0x309B]).
  reflexivity.
Defined.

(** On that input the first mode gives U+308F U+309B a U+309B, the second
    U+308F U+3099 a U+3099. *)
Example hiraganize_wa_voiced :
  Jaco.str (Jaco.toHiragana Const.KATAKANA_CHARS false (Jaco.new [0x30F7; 0x0061; 0x309B]))
  = [0x308F; 0x309B; 0x0061; 0x309B]
  /\ Jaco.str (Jaco.toHiragana Const.KATAKANA_CHARS true (Jaco.new [0x30F7; 0x0061; 0x309B]))
     = [0x308F; 0x3099; 0x0061; 0x3099].
Proof. split; reflexivity. Qed.

(** ** convertProlongedSoundMarks *)

Section Prolonged.

Variable HIRAGANA_CHARS KATAKANA_CHARS : jsstring.

(** A character of the test pattern's class that none of the fourteen
    replacements lists. *)
Variable x : unit16.
Hypothesis in_test_class : classMatches (HIRAGANA_CHARS ++ KATAKANA_CHARS) x = true.
Hypothesis in_no_vowel_class :
  forallb (fun row => negb (classMatches (fst row) x)) Jaco.prolongedTable = true.

Lemma conv_rows_unchanged (rows : list (jsstring * unit16)) :
  forallb (fun row => negb (classMatches (fst row) x)) rows = true ->
  fold_left
    (fun acc cv =>
       replaceAll (Pair (fst cv) [Jaco.prolongedSoundMark])
         (fun m => [nth 0 m 0; snd cv]) acc)
    rows [x; Jaco.prolongedSoundMark]
  = [x; Jaco.prolongedSoundMark].
Proof.
  induction rows as [|row rows IH]; intro H; [reflexivity|].
  cbn [forallb] in H. apply andb_true_iff in H. destruct H as [Hrow Hrows].
  apply negb_true_iff in Hrow.
  cbn [fold_left]. rewrite replaceAll_no_match; [exact (IH Hrows)|].
  cbn [matchesSomewhere matchLen]. rewrite Hrow. reflexivity.
Qed.

Lemma conv_unchanged :
  Jaco.conv [x; Jaco.prolongedSoundMark] = [x; Jaco.prolongedSoundMark].
Proof. apply conv_rows_unchanged. exact in_no_vowel_class. Qed.

Lemma test_still_matches :
  RegExp.test (Jaco.kanaWithProlongedSoundMarksPattern HIRAGANA_CHARS KATAKANA_CHARS)
    [x; Jaco.prolongedSoundMark] = true.
Proof.
  unfold Jaco.kanaWithProlongedSoundMarksPattern, RegExp.test.
  cbn [matchesSomewhere matchLen]. rewrite in_test_class. reflexivity.
Qed.

Lemma loop_never_leaves (fuel : nat) :
  Jaco.convertProlongedSoundMarks_loop HIRAGANA_CHARS KATAKANA_CHARS fuel
    [x; Jaco.prolongedSoundMark]
  = None.
Proof.
  induction fuel as [|fuel IH]; [reflexivity|].
  cbn [Jaco.convertProlongedSoundMarks_loop].
  rewrite test_still_matches, conv_unchanged. exact IH.
Qed.

End Prolonged.

(** C1 (the code departs from the claim): when the character before the
    mark is a member of the test pattern's class and of none of the classes
    the replacements list, the call on that character followed by U+30FC
    does not return, whatever the number of passes allowed: the test keeps
    matching and no replacement applies. *)
Theorem convertProlongedSoundMarks_diverges
  (HIRAGANA_CHARS KATAKANA_CHARS : jsstring) (x : unit16) :
  classMatches (HIRAGANA_CHARS ++ KATAKANA_CHARS) x = true ->
  forallb (fun row => negb (classMatches (fst row) x)) Jaco.prolongedTable = true ->
  forall fuel,
    Jaco.convertProlongedSoundMarks HIRAGANA_CHARS KATAKANA_CHARS fuel
      (Jaco.new [x; Jaco.prolongedSoundMark]) = None.
Proof.
  intros H1 H2 fuel. unfold Jaco.convertProlongedSoundMarks. cbn [Jaco.str].
  rewrite (loop_never_leaves HIRAGANA_CHARS KATAKANA_CHARS x H1 H2 fuel). reflexivity.
Qed.

(** The katakana iteration mark U+30FD is such a character. *)
Lemma convertProlongedSoundMarks_diverges_witness :
  classMatches (Const.HIRAGANA_CHARS ++ Const.KATAKANA_CHARS) 0x30FD = true
  /\ forallb (fun row => negb (classMatches (fst row) 0x30FD)) Jaco.prolongedTable = true
  /\ Jaco.convertProlongedSoundMarks Const.HIRAGANA_CHARS Const.KATAKANA_CHARS 1000
       (Jaco.new [0x30FD; 0x30FC]) = None.
Proof.
  split; [reflexivity|]. split; [reflexivity|].
  apply (convertProlongedSoundMarks_diverges
           Const.HIRAGANA_CHARS Const.KATAKANA_CHARS 0x30FD);
    reflexivity.
Defined.

(** The loop does leave on the two-mark example of the specification. *)
Example convertProlongedSoundMarks_two_marks :
  Jaco.convertProlongedSoundMarks Const.HIRAGANA_CHARS Const.KATAKANA_CHARS 3
    (Jaco.new [0x3053; 0x30FC; 0x30FC])
  = Some (Jaco.new [0x3053; 0x304A; 0x304A]).
Proof. reflexivity. Qed.

(** ** The scenarios of the test suite (test/test.js) *)

Example test_widen_voiced_katakana :
  Jaco.str (Jaco.toKatakana Const.HIRAGANA_CHARS true
              (Jaco.new [0xFF76; 0xFF9E; 0xFF76; 0xFF9E; 0xFF76; 0xFF9E]))
  = [0x30AC; 0x30AC; 0x30AC].
Proof. reflexivity. Qed.

Example test_katakana_to_hiragana :
  Jaco.str (Jaco.toHiragana Const.KATAKANA_CHARS false (Jaco.new [0x30AC; 0x30AC; 0x30AC]))
  = [0x304C; 0x304C; 0x304C].
Proof. reflexivity. Qed.

Example test_archaic_voiced_katakana :
  Jaco.str (Jaco.toHiragana Const.KATAKANA_CHARS false
              (Jaco.new [0x30DD; 0x30F7; 0x30F8; 0x30F4; 0x30F9; 0x30FA]))
  = [0x307D; 0x308F; 0x309B; 0x3090; 0x309B; 0x3094; 0x3091; 0x309B; 0x3092; 0x309B]
  /\ Jaco.str (Jaco.toHiragana Const.KATAKANA_CHARS true
                 (Jaco.new [0x30DD; 0x30F7; 0x30F8; 0x30F4; 0x30F9; 0x30FA]))
     = [0x307D; 0x308F; 0x3099; 0x3090; 0x3099; 0x3094; 0x3091; 0x3099; 0x3092; 0x3099].
Proof. split; reflexivity. Qed.

(** * Further properties of the code *)

(** ** Lookup tables *)

Section Tables.

Import Spec.

Lemma lookupUnit_is_value (table : list (unit16 * unit16)) (c : unit16) :
  In c (map fst table) -> In (lookupUnit table c) (map snd table).
Proof.
  unfold lookupUnit. induction table as [|kv table IH]; intro H; [contradiction|].
  cbn [find]. unfold unit16 in *. destruct (Z.eqb_spec (fst kv) c) as [E|E].
  - left. reflexivity.
  - right. apply IH. destruct H as [H|H]; [contradiction | exact H].
Qed.

(** A property of the units that are no keys and of all values holds of
    every image. *)
Lemma lookupUnit_preserves (table : list (unit16 * unit16)) (good : unit16 -> bool) :
  forallb good (map snd table) = true ->
  forall c, (~ In c (map fst table) -> good c = true) -> good (lookupUnit table c) = true.
Proof.
  intros Hvalues c Hc.
  destruct (in_dec Z.eq_dec c (map fst table)) as [Hin|Hout].
  - rewrite forallb_forall in Hvalues. apply Hvalues. apply lookupUnit_is_value. exact Hin.
  - rewrite (lookupUnit_not_key table c Hout). apply Hc. exact Hout.
Qed.

(** One table after another is the second alone, once that is so on the
    keys of the first. *)
Lemma lookupUnit_absorb (t1 t2 : list (unit16 * unit16)) :
  forallb (fun k => lookupUnit t2 (lookupUnit t1 k) =? lookupUnit t2 k) (map fst t1) = true ->
  forall c, lookupUnit t2 (lookupUnit t1 c) = lookupUnit t2 c.
Proof.
  intros H c.
  destruct (in_dec Z.eq_dec c (map fst t1)) as [Hin|Hout].
  - rewrite forallb_forall in H. apply Z.eqb_eq. apply H. exact Hin.
  - rewrite (lookupUnit_not_key t1 c Hout). reflexivity.
Qed.

(** One table after another gives the unit back, once that is so on the
    keys of both. *)
Lemma lookupUnit_round_trip (t1 t2 : list (unit16 * unit16)) (excluded : unit16 -> bool) :
  forallb (fun k => excluded k || (lookupUnit t2 (lookupUnit t1 k) =? k))
    (map fst t1 ++ map fst t2) = true ->
  forall c, excluded c = false -> lookupUnit t2 (lookupUnit t1 c) = c.
Proof.
  intros H c Hc.
  destruct (in_dec Z.eq_dec c (map fst t1 ++ map fst t2)) as [Hin|Hout].
  - rewrite forallb_forall in H. specialize (H c Hin). rewrite Hc in H.
    apply Z.eqb_eq. exact H.
  - rewrite (lookupUnit_not_key t1 c), (lookupUnit_not_key t2 c); [reflexivity | |];
      intro Hin; apply Hout; apply in_or_app; [right | left]; exact Hin.
Qed.

(** A table of one-unit keys and values without chains is a lookup, unit by
    unit. *)
Lemma replaceFromMap_lookup (table : list (jsstring * jsstring)) :
  singleUnits table = true ->
  noChain (unitTable table) = true ->
  forall this,
    Jaco.str (Jaco.replaceFromMap table this)
    = map (lookupUnit (unitTable table)) (Jaco.str this).
Proof.
  intros Hunits Hchain this. rewrite (replaceFromMap_units table Hunits).
  apply map_ext. intro c. apply substUnit_lookup. exact Hchain.
Qed.

Lemma replaceFromMap_app (t1 t2 : list (jsstring * jsstring)) (this : Jaco.t) :
  Jaco.replaceFromMap (t1 ++ t2) this = Jaco.replaceFromMap t2 (Jaco.replaceFromMap t1 this).
Proof. unfold Jaco.replaceFromMap. apply fold_left_app. Qed.

(** A class body without a hyphen lists its members. *)
Lemma classMatches_members (body : jsstring) (c : unit16) :
  forallb (fun a => negb (a =? 0x002D)) body = true ->
  classMatches body c = Props.memUnit body c.
Proof.
  unfold Props.memUnit.
  induction body as [| a | a d l IH1 IH2] using list_pair_ind; intro H.
  - reflexivity.
  - reflexivity.
  - change (classMatches (a :: d :: l) c) with
      (match l with
       | b :: rest =>
           if d =? 0x002D
           then ((a <=? c) && (c <=? b)) || classMatches rest c
           else (c =? a) || classMatches (d :: l) c
       | _ => (c =? a) || classMatches (d :: l) c
       end).
    cbn [forallb] in H. apply andb_true_iff in H. destruct H as [_ H].
    pose proof H as Hd. cbn [forallb] in Hd. apply andb_true_iff in Hd.
    destruct Hd as [Hd _]. apply negb_true_iff in Hd.
    rewrite (IH2 H). destruct l; [reflexivity|]. rewrite Hd. reflexivity.
Qed.

Lemma matchesSomewhere_anyOf (body s : jsstring) :
  matchesSomewhere (AnyOf body) s = existsb (classMatches body) s.
Proof.
  induction s as [|c tl IH]; [reflexivity|].
  cbn [matchesSomewhere matchLen existsb]. destruct (classMatches body c); [reflexivity|].
  exact IH.
Qed.

Lemma filter_sound_marks (s : jsstring) :
  filter (fun c => negb (classMatches Jaco.semivoicedSoundMarks c))
    (filter (fun c => negb (classMatches Jaco.voicedSoundMarks c)) s)
  = filter (fun c => negb (isSoundMark c)) s.
Proof.
  unfold isSoundMark. induction s as [|c tl IH]; [reflexivity|].
  cbn [filter]. destruct (classMatches Jaco.voicedSoundMarks c); cbn [negb orb].
  - exact IH.
  - cbn [filter]. destruct (classMatches Jaco.semivoicedSoundMarks c); cbn [negb];
      rewrite IH; reflexivity.
Qed.

Lemma filter_all (A : Type) (f : A -> bool) (l : list A) :
  forallb f l = true -> filter f l = l.
Proof.
  induction l as [|a l IH]; [reflexivity|]. cbn [forallb filter].
  intro H. apply andb_true_iff in H. destruct H as [Ha Hl]. rewrite Ha, (IH Hl). reflexivity.
Qed.

End Tables.

(** ** Voicing marks, small letters and symbols *)

Section Voicing.

Import Spec Props.

Lemma lookupUnit_respects (table : list (unit16 * unit16)) (p : unit16 -> bool) :
  forallb (fun k => Bool.eqb (p (lookupUnit table k)) (p k)) (map fst table) = true ->
  forall c, p (lookupUnit table c) = p c.
Proof.
  intros H c.
  destruct (in_dec Z.eq_dec c (map fst table)) as [Hin|Hout].
  - rewrite forallb_forall in H. apply eqb_prop. apply H. exact Hin.
  - rewrite (lookupUnit_not_key table c Hout). reflexivity.
Qed.

Lemma filter_map_respects (f : unit16 -> unit16) (p : unit16 -> bool) (s : jsstring) :
  (forall c, p (f c) = p c) -> filter p (map f s) = map f (filter p s).
Proof.
  intro H. induction s as [|c tl IH]; [reflexivity|].
  cbn [map filter]. rewrite H. destruct (p c); cbn [map]; rewrite IH; reflexivity.
Qed.

Lemma filter_twice (p : unit16 -> bool) (s : jsstring) : filter p (filter p s) = filter p s.
Proof.
  induction s as [|c tl IH]; [reflexivity|].
  cbn [filter]. destruct (p c) eqn:E; [cbn [filter]; rewrite E, IH; reflexivity | exact IH].
Qed.


Lemma addVoicedMarks_units (this : Jaco.t) :
  Jaco.str (Jaco.addVoicedMarks this) = map voiced (filter unmarked (Jaco.str this)).
Proof. destruct this as [s]. apply addVoicedMarks_computes. Qed.

Lemma addSemivoicedMarks_units (this : Jaco.t) :
  Jaco.str (Wrapper.addSemivoicedMarks this) = map semivoiced (Jaco.str this).
Proof.
  unfold Wrapper.addSemivoicedMarks.
  apply (replaceFromMap_lookup Wrapper.semivoicedTable); reflexivity.
Qed.

Lemma removeVoicedMarks_units (this : Jaco.t) :
  Jaco.str (Wrapper.removeVoicedMarks false this)
  = map unvoiced (filter unmarked (Jaco.str this)).
Proof.
  unfold Wrapper.removeVoicedMarks. cbn [negb].
  rewrite (replaceFromMap_lookup Wrapper.unvoicedTable) by reflexivity.
  rewrite !remove_anyOf, filter_sound_marks. reflexivity.
Qed.

Lemma removeVoicedMarks_keeping_marks_units (this : Jaco.t) :
  Jaco.str (Wrapper.removeVoicedMarks true this) = map unvoiced (Jaco.str this).
Proof.
  unfold Wrapper.removeVoicedMarks. cbn [negb].
  apply (replaceFromMap_lookup Wrapper.unvoicedTable); reflexivity.
Qed.

Lemma voiced_unmarked (c : unit16) : unmarked (voiced c) = unmarked c.
Proof. apply (lookupUnit_respects (unitTable Jaco.voicedTable) unmarked). vm_compute. reflexivity. Qed.

Lemma semivoiced_unmarked (c : unit16) : unmarked (semivoiced c) = unmarked c.
Proof.
  apply (lookupUnit_respects (unitTable Wrapper.semivoicedTable) unmarked).
  vm_compute. reflexivity.
Qed.

Lemma unvoiced_unmarked (c : unit16) : unmarked (unvoiced c) = unmarked c.
Proof.
  apply (lookupUnit_respects (unitTable Wrapper.unvoicedTable) unmarked).
  vm_compute. reflexivity.
Qed.

(** X1: for every string, removing the marks after adding the
    voiced marks, or the semi-voiced marks, gives what removing them from
    the string itself gives. *)
Theorem removeVoicedMarks_after_add (s : jsstring) :
  Jaco.str (Wrapper.removeVoicedMarks false (Jaco.addVoicedMarks (Jaco.new s)))
  = Jaco.str (Wrapper.removeVoicedMarks false (Jaco.new s))
  /\ Jaco.str (Wrapper.removeVoicedMarks false (Wrapper.addSemivoicedMarks (Jaco.new s)))
     = Jaco.str (Wrapper.removeVoicedMarks false (Jaco.new s)).
Proof.
  rewrite !removeVoicedMarks_units, addVoicedMarks_units, addSemivoicedMarks_units.
  cbn [Jaco.str]. split.
  - rewrite (filter_map_respects voiced unmarked _ voiced_unmarked), filter_twice, map_map.
    apply map_ext. intro c.
    apply (lookupUnit_absorb (unitTable Jaco.voicedTable) (unitTable Wrapper.unvoicedTable)).
    vm_compute. reflexivity.
  - rewrite (filter_map_respects semivoiced unmarked _ semivoiced_unmarked), map_map.
    apply map_ext. intro c.
    apply (lookupUnit_absorb (unitTable Wrapper.semivoicedTable)
             (unitTable Wrapper.unvoicedTable)).
    vm_compute. reflexivity.
Qed.

(** X2: [addVoicedMarks], [addSemivoicedMarks] and
    [removeVoicedMarks ()] each change nothing when applied a second time. *)
Theorem voicing_methods_idempotent (this : Jaco.t) :
  Jaco.str (Jaco.addVoicedMarks (Jaco.addVoicedMarks this))
  = Jaco.str (Jaco.addVoicedMarks this)
  /\ Jaco.str (Wrapper.addSemivoicedMarks (Wrapper.addSemivoicedMarks this))
     = Jaco.str (Wrapper.addSemivoicedMarks this)
  /\ Jaco.str (Wrapper.removeVoicedMarks false (Wrapper.removeVoicedMarks false this))
     = Jaco.str (Wrapper.removeVoicedMarks false this).
Proof.
  split; [|split].
  - rewrite !addVoicedMarks_units.
    rewrite (filter_map_respects voiced unmarked _ voiced_unmarked), filter_twice, map_map.
    apply map_ext. intro c.
    apply (lookupUnit_absorb (unitTable Jaco.voicedTable) (unitTable Jaco.voicedTable)).
    vm_compute. reflexivity.
  - rewrite !addSemivoicedMarks_units, map_map.
    apply map_ext. intro c.
    apply (lookupUnit_absorb (unitTable Wrapper.semivoicedTable)
             (unitTable Wrapper.semivoicedTable)).
    vm_compute. reflexivity.
  - rewrite !removeVoicedMarks_units.
    rewrite (filter_map_respects unvoiced unmarked _ unvoiced_unmarked), filter_twice, map_map.
    apply map_ext. intro c.
    apply (lookupUnit_absorb (unitTable Wrapper.unvoicedTable)
             (unitTable Wrapper.unvoicedTable)).
    vm_compute. reflexivity.
Qed.

(** X3: the result of [removeVoicedMarks ()] holds no standalone
    voicing or semi-voicing mark and no key of the method's table, that is
    no voiced or semi-voiced kana. *)
Theorem removeVoicedMarks_leaves (this : Jaco.t) (c : unit16) :
  In c (Jaco.str (Wrapper.removeVoicedMarks false this)) ->
  isSoundMark c = false /\ ~ In [c] (map fst Wrapper.unvoicedTable).
Proof.
  rewrite removeVoicedMarks_units. intro H. apply in_map_iff in H.
  destruct H as [c' [<- Hin]]. apply filter_In in Hin. destruct Hin as [_ Hc'].
  split.
  - apply negb_true_iff. fold (unmarked (unvoiced c')). rewrite unvoiced_unmarked. exact Hc'.
  - assert (Hgood :
      negb (Props.memUnit (map fst (unitTable Wrapper.unvoicedTable)) (unvoiced c')) = true).
    { apply (lookupUnit_preserves (unitTable Wrapper.unvoicedTable)
               (fun u => negb (Props.memUnit (map fst (unitTable Wrapper.unvoicedTable)) u))).
      - vm_compute. reflexivity.
      - intro Hout. apply negb_true_iff. unfold Props.memUnit.
        destruct (existsb _ _) eqn:E; [|reflexivity].
        apply existsb_exists in E. destruct E as [k [Hk Ek]].
        apply Z.eqb_eq in Ek. subst k. contradiction. }
    intro Hkey. apply negb_true_iff in Hgood.
    assert (Hmem : Props.memUnit (map fst (unitTable Wrapper.unvoicedTable)) (unvoiced c') = true).
    { unfold Props.memUnit. apply existsb_exists. exists (unvoiced c').
      split; [|apply Z.eqb_refl].
      unfold unitTable. rewrite map_map. apply in_map_iff in Hkey.
      destruct Hkey as [kv [Ekv Hkv]]. apply in_map_iff. exists kv.
      split; [|exact Hkv]. cbv beta. cbn [fst].
      unfold jsstring, unit16 in *. rewrite Ekv. reflexivity. }
    congruence.
Qed.

End Voicing.

Lemma removeVoicedMarks_leaves_witness :
  In 0x304B (Jaco.str (Wrapper.removeVoicedMarks false (Jaco.new [0x304C; 0x309B])))
  /\ Spec.isSoundMark 0x304B = false
  /\ ~ In [0x304B] (map fst Wrapper.unvoicedTable).
Proof.
  assert (H : In 0x304B (Jaco.str (Wrapper.removeVoicedMarks false (Jaco.new [0x304C; 0x309B]))))
    by (vm_compute; left; reflexivity).
  split; [exact H|].
  exact (removeVoicedMarks_leaves (Jaco.new [0x304C; 0x309B]) 0x304B H).
Defined.

Section SmallLetters.

Import Spec.

Lemma toBasicLetter_units (this : Jaco.t) :
  Jaco.str (Wrapper.toBasicLetter this)
  = map (lookupUnit (unitTable Wrapper.basicLetterTable))
      (Jaco.str (Jaco.combinateSoundMarks false this)).
Proof.
  unfold Wrapper.toBasicLetter.
  apply (replaceFromMap_lookup Wrapper.basicLetterTable); reflexivity.
Qed.

Lemma smallLetters_are_keys (c : unit16) :
  classMatches Wrapper.smallLetters c = true ->
  In c (map fst (unitTable Wrapper.basicLetterTable)).
Proof.
  rewrite classMatches_members by reflexivity. unfold Props.memUnit. intro H.
  apply existsb_exists in H. destruct H as [a [Ha E]]. apply Z.eqb_eq in E. subst a.
  assert (Hall : forallb (fun a => Props.memUnit (map fst (unitTable Wrapper.basicLetterTable)) a)
                   Wrapper.smallLetters = true) by (vm_compute; reflexivity).
  rewrite forallb_forall in Hall. specialize (Hall c Ha).
  unfold Props.memUnit in Hall. apply existsb_exists in Hall.
  destruct Hall as [k [Hk E]]. apply Z.eqb_eq in E. subst k. exact Hk.
Qed.

End SmallLetters.

(** X4: after [toBasicLetter] the buffer holds no small letter:
    [hasSmallLetter] is false. *)
Theorem toBasicLetter_no_small_letter (this : Jaco.t) :
  Wrapper.hasSmallLetter (Wrapper.toBasicLetter this) = false.
Proof.
  unfold Wrapper.hasSmallLetter, RegExp.test.
  rewrite matchesSomewhere_anyOf, toBasicLetter_units.
  destruct (existsb _ _) eqn:E; [|reflexivity]. exfalso.
  apply existsb_exists in E. destruct E as [c [Hin Hc]].
  apply in_map_iff in Hin. destruct Hin as [c' [<- _]].
  assert (Hgood :
    negb (classMatches Wrapper.smallLetters
            (Spec.lookupUnit (Spec.unitTable Wrapper.basicLetterTable) c')) = true).
  { apply (lookupUnit_preserves (Spec.unitTable Wrapper.basicLetterTable)
             (fun u => negb (classMatches Wrapper.smallLetters u))).
    - vm_compute. reflexivity.
    - intro Hout. apply negb_true_iff.
      destruct (classMatches Wrapper.smallLetters c') eqn:Es; [|reflexivity].
      exfalso. apply Hout. apply smallLetters_are_keys. exact Es. }
  rewrite Hc in Hgood. discriminate.
Qed.


(** X5: on a string without half-width Japanese symbols, narrowing the
    symbols and widening them again gives the string back; on a string
    without the five full-width symbols, widening and narrowing does. *)
Theorem japanese_symbols_round_trip (s : jsstring) :
  (forallb (fun c => negb (Props.isNarrowSymbol c)) s = true ->
   Jaco.str (Wrapper.toWideJapneseSymbol (Wrapper.toNarrowJapneseSymbol (Jaco.new s))) = s)
  /\ (forallb (fun c => negb (Props.isWideSymbol c)) s = true ->
      Jaco.str (Wrapper.toNarrowJapneseSymbol (Wrapper.toWideJapneseSymbol (Jaco.new s))) = s).
Proof.
  unfold Wrapper.toWideJapneseSymbol, Wrapper.toNarrowJapneseSymbol.
  split; intro H;
    rewrite !replaceFromMap_lookup by reflexivity; cbn [Jaco.str];
    rewrite map_map; rewrite <- (map_id s) at 2; apply map_ext_in; intros c Hin;
    rewrite forallb_forall in H; specialize (H c Hin); apply negb_true_iff in H.
  - apply (lookupUnit_round_trip (Spec.unitTable Wrapper.narrowSymbolTable)
             (Spec.unitTable Wrapper.wideSymbolTable) Props.isNarrowSymbol);
      [vm_compute; reflexivity | exact H].
  - apply (lookupUnit_round_trip (Spec.unitTable Wrapper.wideSymbolTable)
             (Spec.unitTable Wrapper.narrowSymbolTable) Props.isWideSymbol);
      [vm_compute; reflexivity | exact H].
Qed.

Lemma japanese_symbols_round_trip_witness :
  Jaco.str (Wrapper.toWideJapneseSymbol
              (Wrapper.toNarrowJapneseSymbol (Jaco.new [0x300C; 0x3042; 0x300D; 0x3002])))
  = [0x300C; 0x3042; 0x300D; 0x3002]
  /\ Jaco.str (Wrapper.toNarrowJapneseSymbol
                 (Wrapper.toWideJapneseSymbol (Jaco.new [0xFF62; 0x3042; 0xFF63; 0xFF61])))
     = [0xFF62; 0x3042; 0xFF63; 0xFF61].
Proof.
  split.
  - apply (proj1 (japanese_symbols_round_trip [0x300C; 0x3042; 0x300D; 0x3002])). reflexivity.
  - apply (proj2 (japanese_symbols_round_trip [0xFF62; 0x3042; 0xFF63; 0xFF61])). reflexivity.
Defined.

(** ** Half-width katakana *)

Section NarrowKatakana.

Import Spec Props.

(** A property checked on each integer of a range holds on the range. *)
Lemma range_enumerated (lo : Z) (n : nat) (P : Z -> bool) :
  forallb (fun i => P (lo + Z.of_nat i)) (seq 0 n) = true ->
  forall c, lo <= c < lo + Z.of_nat n -> P c = true.
Proof.
  intros H c Hc. rewrite forallb_forall in H.
  specialize (H (Z.to_nat (c - lo))).
  replace (lo + Z.of_nat (Z.to_nat (c - lo))) with c in H by lia.
  apply H. apply in_seq. lia.
Qed.

Lemma wideKatakanaTable_parts :
  Jaco.wideKatakanaTable = wideKatakanaDigraphs ++ wideKatakanaSingles.
Proof. symmetry. apply firstn_skipn. Qed.

(** The last fifty-eight replacements act unit by unit. *)
Lemma toWideKatakana_units (this : Jaco.t) :
  Jaco.str (Jaco.toWideKatakana this)
  = map (lookupUnit (unitTable wideKatakanaSingles))
      (Jaco.str (Jaco.replaceFromMap wideKatakanaDigraphs this)).
Proof.
  unfold Jaco.toWideKatakana. rewrite wideKatakanaTable_parts, replaceFromMap_app.
  apply (replaceFromMap_lookup wideKatakanaSingles); reflexivity.
Qed.

Lemma narrow_katakana_range (c : unit16) :
  classMatches NARROW_KATAKANA_CHARS c = (0xFF66 <=? c) && (c <=? 0xFF9F).
Proof. unfold NARROW_KATAKANA_CHARS. cbn. apply orb_false_r. Qed.

Lemma narrow_katakana_are_keys (c : unit16) :
  classMatches NARROW_KATAKANA_CHARS c = true ->
  In c (map fst (unitTable wideKatakanaSingles)).
Proof.
  rewrite narrow_katakana_range. intro H. apply andb_true_iff in H.
  destruct H as [Hlo Hhi]. apply Z.leb_le in Hlo. apply Z.leb_le in Hhi.
  assert (Hmem : memUnit (map fst (unitTable wideKatakanaSingles)) c = true).
  { apply (range_enumerated 0xFF66 58
             (fun u => memUnit (map fst (unitTable wideKatakanaSingles)) u)).
    - vm_compute. reflexivity.
    - lia. }
  unfold memUnit in Hmem. apply existsb_exists in Hmem.
  destruct Hmem as [k [Hk E]]. apply Z.eqb_eq in E. subst k. exact Hk.
Qed.

End NarrowKatakana.

(** X6: the result of [toWideKatakana] holds no character of the
    class NARROW_KATAKANA_CHARS (U+FF66 to U+FF9F). *)
Theorem toWideKatakana_no_narrow_katakana (this : Jaco.t) (c : unit16) :
  In c (Jaco.str (Jaco.toWideKatakana this)) ->
  classMatches NARROW_KATAKANA_CHARS c = false.
Proof.
  rewrite toWideKatakana_units. intro H. apply in_map_iff in H.
  destruct H as [c' [<- _]]. apply negb_true_iff.
  apply (lookupUnit_preserves (Spec.unitTable Props.wideKatakanaSingles)
           (fun u => negb (classMatches NARROW_KATAKANA_CHARS u))).
  - vm_compute. reflexivity.
  - intro Hout. apply negb_true_iff.
    destruct (classMatches NARROW_KATAKANA_CHARS c') eqn:E; [|reflexivity].
    exfalso. apply Hout. apply narrow_katakana_are_keys. exact E.
Qed.

Lemma toWideKatakana_no_narrow_katakana_witness :
  In 0x30AC (Jaco.str (Jaco.toWideKatakana (Jaco.new [0xFF76; 0xFF9E; 0xFF9E])))
  /\ classMatches NARROW_KATAKANA_CHARS 0x30AC = false.
Proof.
  assert (H : In 0x30AC (Jaco.str (Jaco.toWideKatakana (Jaco.new [0xFF76; 0xFF9E; 0xFF9E]))))
    by (vm_compute; left; reflexivity).
  split; [exact H|].
  exact (toWideKatakana_no_narrow_katakana (Jaco.new [0xFF76; 0xFF9E; 0xFF9E]) 0x30AC H).
Defined.

(** ** Characters, indices and joining *)

Section Characters.

Import Props.

Lemma str_eqb_eq (a b : jsstring) : str_eqb a b = true <-> a = b.
Proof.
  revert b. induction a as [|x a IH]; intros [|y b]; simpl; split; intro H;
    try reflexivity; try discriminate.
  - apply andb_true_iff in H. destruct H as [Hx Ha].
    apply Z.eqb_eq in Hx. apply IH in Ha. subst. reflexivity.
  - injection H as -> ->. rewrite Z.eqb_refl. apply IH. reflexivity.
Qed.

(** Every element of the array is a character. *)
Lemma toArray_characters (s : jsstring) (e : jsstring) :
  In e (Jaco.toArray_str s) -> isCharacter e = true.
Proof.
  induction s as [| a | a b l IH1 IH2] using list_pair_ind.
  - contradiction.
  - simpl. destruct (isSurrogate a) eqn:E; [contradiction|].
    intros [<-|[]]. simpl. rewrite E. reflexivity.
  - rewrite toArray_str_step.
    destruct (isHighSurrogate a && isLowSurrogate b) eqn:Hp.
    + intros [<-|H]; [exact Hp | exact (IH1 H)].
    + destruct (isSurrogate a) eqn:E; [exact IH2|].
      intros [<-|H]; [simpl; rewrite E; reflexivity | exact (IH2 H)].
Qed.

Lemma nth_skipn_shift (A : Type) (k n : nat) (l : list A) (d : A) :
  nth n (skipn k l) d = nth (k + n) l d.
Proof.
  revert l. induction k as [|k IH]; intro l; [reflexivity|].
  destruct l as [|a l]; [destruct n; reflexivity | apply IH].
Qed.

Lemma in_skipn (A : Type) (k : nat) (l : list A) (e : A) : In e (skipn k l) -> In e l.
Proof.
  revert l. induction k as [|k IH]; intros l H; [exact H|].
  destruct l as [|a l]; [exact H | right; apply IH; exact H].
Qed.

Lemma in_firstn (A : Type) (k : nat) (l : list A) (e : A) : In e (firstn k l) -> In e l.
Proof.
  revert l. induction k as [|k IH]; intros l H; [contradiction|].
  destruct l as [|a l]; [exact H|].
  destruct H as [H|H]; [left; exact H | right; apply IH; exact H].
Qed.

Lemma indexFrom_not_found (a : list jsstring) (x : jsstring) (i : Z) :
  ~ In x a -> indexFrom a x i = -1.
Proof.
  revert i. induction a as [|y a IH]; intros i H; [reflexivity|].
  cbn [indexFrom]. destruct (str_eqb y x) eqn:E.
  - apply str_eqb_eq in E. exfalso. apply H. left. exact E.
  - apply IH. intro Hin. apply H. right. exact Hin.
Qed.

(** [indexFrom] returns the first position of the element, counted from [i]. *)
Lemma indexFrom_found (a : list jsstring) (x : jsstring) :
  forall i, 0 <= i ->
    indexFrom a x i <> -1 ->
    exists n, indexFrom a x i = i + Z.of_nat n
              /\ (n < List.length a)%nat
              /\ nth n a [] = x
              /\ forall m, (m < n)%nat -> nth m a [] <> x.
Proof.
  induction a as [|y a IH]; intros i Hi H; [exfalso; apply H; reflexivity|].
  cbn [indexFrom] in *. destruct (str_eqb y x) eqn:E.
  - apply str_eqb_eq in E. exists O. cbn [nth List.length].
    repeat split; [lia | lia | exact E | intros m Hm; lia].
  - destruct (IH (i + 1) ltac:(lia) H) as [n [Hr [Hn [Hx Hmin]]]].
    exists (S n). cbn [nth List.length]. repeat split; [lia | lia | exact Hx |].
    intros [|m] Hm.
    + intro Hy. rewrite <- Hy in E. cbn [nth] in E.
      assert (str_eqb y y = true) by (apply str_eqb_eq; reflexivity). congruence.
    + apply Hmin. lia.
Qed.

Lemma relativeIndex_bounds (len : Z) (n : number) :
  0 <= len -> 0 <= relativeIndex len n <= len.
Proof.
  intro H. unfold relativeIndex. destruct n as [| | |q]; try lia.
  cbv zeta. destruct (Z.ltb_spec (Qtruncate q) 0); lia.
Qed.

Lemma Array_indexOf_unfold (a : list jsstring) (x : jsstring) (fromIndex : number) :
  Array_indexOf a x fromIndex = -1
  \/ Array_indexOf a x fromIndex
     = indexFrom (skipn (Z.to_nat (relativeIndex (Z.of_nat (List.length a)) fromIndex)) a) x
         (relativeIndex (Z.of_nat (List.length a)) fromIndex).
Proof. destruct fromIndex; [right | left | right | right]; reflexivity. Qed.

Lemma Array_indexOf_found (a : list jsstring) (x : jsstring) (fromIndex : number) :
  Array_indexOf a x fromIndex <> -1 ->
  let r := Array_indexOf a x fromIndex in
  let k := relativeIndex (Z.of_nat (List.length a)) fromIndex in
  k <= r < Z.of_nat (List.length a)
  /\ 0 <= k
  /\ nth (Z.to_nat r) a [] = x
  /\ forall j, k <= j < r -> nth (Z.to_nat j) a [] <> x.
Proof.
  intros H r k. subst r.
  pose proof (relativeIndex_bounds (Z.of_nat (List.length a)) fromIndex ltac:(lia)) as Hk.
  fold k in Hk.
  destruct (Array_indexOf_unfold a x fromIndex) as [E|E]; [contradiction|].
  fold k in E. rewrite E in *.
  destruct (indexFrom_found (skipn (Z.to_nat k) a) x k ltac:(lia) H)
    as [n [Hr [Hn [Hx Hmin]]]].
  rewrite Hr. rewrite length_skipn in Hn. rewrite nth_skipn_shift in Hx.
  replace (Z.to_nat (k + Z.of_nat n)) with (Z.to_nat k + n)%nat by lia.
  split; [lia|]. split; [lia|]. split; [exact Hx|].
  intros j Hj. specialize (Hmin (Z.to_nat (j - k)) ltac:(lia)).
  rewrite nth_skipn_shift in Hmin.
  replace (Z.to_nat k + Z.to_nat (j - k))%nat with (Z.to_nat j) in Hmin by lia.
  exact Hmin.
Qed.

End Characters.

(** X7: a result of [indexOf] other than -1 is an index from the start
    position to below the length; the character there is the search
    string, which is therefore one array-ized character; and no index from
    the start position up to the result holds it. The start position is
    the index argument clamped to 0 .. length, counted from the end when
    negative. *)
Theorem indexOf_first_occurrence (search : jsstring) (fromIndex : number) (this : Jaco.t) :
  Jaco.indexOf search fromIndex this <> -1 ->
  let r := Jaco.indexOf search fromIndex this in
  let start := relativeIndex (Jaco.length this) fromIndex in
  0 <= start <= r
  /\ r < Jaco.length this
  /\ nth (Z.to_nat r) (Jaco._toArray this) [] = search
  /\ Props.isCharacter search = true
  /\ forall j, start <= j < r -> nth (Z.to_nat j) (Jaco._toArray this) [] <> search.
Proof.
  intros H r start. subst r start. unfold Jaco.indexOf, Jaco.length in *.
  destruct (Array_indexOf_found (Jaco._toArray this) search fromIndex H)
    as [Hr [Hk [Hx Hmin]]].
  split; [lia|]. split; [lia|]. split; [exact Hx|]. split; [|exact Hmin].
  apply (toArray_characters (Jaco.str this)). rewrite <- Hx. apply nth_In.
  unfold Jaco._toArray in *. lia.
Qed.

Lemma indexOf_first_occurrence_witness :
  Jaco.indexOf [0x3042] (ofZ 1) (Jaco.new [0x3042; 0xD83D; 0xDE00; 0x3042]) = 2
  /\ nth 2 (Jaco._toArray (Jaco.new [0x3042; 0xD83D; 0xDE00; 0x3042])) [] = [0x3042].
Proof.
  split; [reflexivity|].
  apply (indexOf_first_occurrence [0x3042] (ofZ 1) (Jaco.new [0x3042; 0xD83D; 0xDE00; 0x3042])).
  vm_compute. discriminate.
Defined.

(** X8: a search string that is not one array-ized character (the
    empty string, two or more characters, a lone surrogate) is never found:
    [indexOf] and [lastIndexOf] return -1, [includes] and [endWith] false,
    whatever the position. *)
Theorem search_string_not_a_character
  (search : jsstring) (fromIndex : number) (position : option number) (this : Jaco.t) :
  Props.isCharacter search = false ->
  Jaco.indexOf search fromIndex this = -1
  /\ Wrapper.lastIndexOf search fromIndex this = -1
  /\ Wrapper.includes search fromIndex this = false
  /\ Wrapper.endWith search position this = false.
Proof.
  intro H.
  assert (Hout : forall l : list jsstring,
            (forall e, In e l -> In e (Jaco._toArray this)) -> ~ In search l).
  { intros l Hl Hin. apply Hl in Hin.
    apply (toArray_characters (Jaco.str this)) in Hin. congruence. }
  assert (Hidx : forall n, Jaco.indexOf search n this = -1).
  { intro n. unfold Jaco.indexOf, Array_indexOf. destruct n; try reflexivity;
      apply indexFrom_not_found; apply Hout; intros e He;
      exact (in_skipn _ _ _ _ He). }
  assert (Hlast : forall n, Wrapper.lastIndexOf search n this = -1).
  { intro n. unfold Wrapper.lastIndexOf, Array_lastIndexOf.
    destruct (match n with NegInfinity => None | _ => _ end) as [k|]; [|reflexivity].
    destruct (k <? 0); [reflexivity|].
    rewrite indexFrom_not_found; [reflexivity|].
    apply Hout. intros e He. apply in_rev in He. exact (in_firstn _ _ _ _ He). }
  split; [apply Hidx|]. split; [apply Hlast|]. split.
  - unfold Wrapper.includes. rewrite Hidx. destruct (Wrapper.exceedsLength _ _ _); reflexivity.
  - unfold Wrapper.endWith. rewrite Hlast. reflexivity.
Qed.

Lemma search_string_not_a_character_witness :
  Jaco.indexOf [0x3042; 0x3044] (ofZ 0) (Jaco.new [0x3042; 0x3044]) = -1
  /\ Wrapper.lastIndexOf [0x3042; 0x3044] (ofZ 0) (Jaco.new [0x3042; 0x3044]) = -1
  /\ Wrapper.includes [0x3042; 0x3044] (ofZ 0) (Jaco.new [0x3042; 0x3044]) = false
  /\ Wrapper.endWith [0x3042; 0x3044] None (Jaco.new [0x3042; 0x3044]) = false.
Proof.
  apply (search_string_not_a_character [0x3042; 0x3044] (ofZ 0) None
           (Jaco.new [0x3042; 0x3044])).
  reflexivity.
Defined.

Section CodePoints.

Import Props.

Lemma charAt_in_range (index : number) (this : Jaco.t) :
  Wrapper.charAt index this <> [] ->
  exists i, Wrapper.arrayIndex index = Some i
            /\ (i < List.length (Jaco._toArray this))%nat
            /\ In (Wrapper.charAt index this) (Jaco._toArray this).
Proof.
  unfold Wrapper.charAt. destruct (Wrapper.arrayIndex index) as [i|]; [|congruence].
  intro H. exists i. split; [reflexivity|].
  destruct (Nat.lt_ge_cases i (List.length (Jaco._toArray this))) as [Hlt|Hge].
  - split; [exact Hlt | apply nth_In; exact Hlt].
  - exfalso. apply H. apply nth_overflow. exact Hge.
Qed.

Lemma charAt_out_of_range (index : number) (this : Jaco.t) :
  Wrapper.charAt index this = [] ->
  forall i, Wrapper.arrayIndex index = Some i ->
            (List.length (Jaco._toArray this) <= i)%nat.
Proof.
  unfold Wrapper.charAt. intros H i Hi. rewrite Hi in H.
  destruct (Nat.lt_ge_cases i (List.length (Jaco._toArray this))) as [Hlt|Hge]; [|exact Hge].
  exfalso. pose proof (nth_In (Jaco._toArray this) [] Hlt) as Hin.
  rewrite H in Hin. apply (toArray_characters (Jaco.str this)) in Hin. discriminate.
Qed.

End CodePoints.

(** X9: [charCodeAt] is not-a-number, and [charAt] the empty string,
    exactly when the index is not a non-negative integer below the
    length. *)
Theorem charCodeAt_not_a_number (index : number) (this : Jaco.t) :
  (Wrapper.charCodeAt index this = NaN <-> Wrapper.charAt index this = [])
  /\ (Wrapper.charAt index this = []
      <-> forall i, Wrapper.arrayIndex index = Some i -> Jaco.length this <= Z.of_nat i).
Proof.
  split.
  - unfold Wrapper.charCodeAt.
    destruct (Wrapper.charAt index this) as [|c [|d l]]; split; intro H;
      try reflexivity; discriminate.
  - split.
    + intros H i Hi. pose proof (charAt_out_of_range index this H i Hi).
      unfold Jaco.length. lia.
    + intro H. destruct (Wrapper.charAt index this) eqn:E; [reflexivity|]. exfalso.
      destruct (charAt_in_range index this) as [i [Hi [Hlt _]]]; [congruence|].
      specialize (H i Hi). unfold Jaco.length in H. lia.
Qed.

(** X10: where [charAt] gives one code unit, [charCodeAt] is that unit,
    which is no surrogate; where it gives a pair, [charCodeAt] is a code
    point from 0x10000 to 0x10FFFF whose high and low surrogates are the
    two units of the pair. *)
Theorem charCodeAt_code_point (index : number) (this : Jaco.t) :
  Wrapper.charAt index this <> [] ->
  (exists c, Wrapper.charAt index this = [c]
             /\ isSurrogate c = false
             /\ Wrapper.charCodeAt index this = ofZ c)
  \/ (exists h l v, Wrapper.charAt index this = [h; l]
                    /\ Wrapper.charCodeAt index this = ofZ v
                    /\ 0x10000 <= v <= 0x10FFFF
                    /\ h = 0xD800 + (v - 0x10000) / 0x400
                    /\ l = 0xDC00 + (v - 0x10000) mod 0x400).
Proof.
  intro H. destruct (charAt_in_range index this H) as [i [_ [_ Hin]]].
  apply (toArray_characters (Jaco.str this)) in Hin.
  unfold Wrapper.charCodeAt.
  destruct (Wrapper.charAt index this) as [|c [|d [|e l]]]; try discriminate.
  - left. exists c. cbn [Props.isCharacter] in Hin. apply negb_true_iff in Hin.
    repeat split; assumption.
  - right. cbn [Props.isCharacter] in Hin. apply andb_true_iff in Hin.
    destruct Hin as [Hh Hl]. unfold isHighSurrogate, isLowSurrogate in *.
    apply andb_true_iff in Hh. destruct Hh as [Hh1 Hh2].
    apply andb_true_iff in Hl. destruct Hl as [Hl1 Hl2].
    apply Z.leb_le in Hh1, Hh2, Hl1, Hl2.
    exists c, d, ((c - 0xD800) * 0x400 + d - 0xDC00 + 0x10000).
    split; [reflexivity|]. split; [reflexivity|]. split; [lia|].
    replace ((c - 0xD800) * 0x400 + d - 0xDC00 + 0x10000 - 0x10000)
      with ((d - 0xDC00) + (c - 0xD800) * 0x400) by lia.
    rewrite Z.div_add by lia. rewrite Z.mod_add by lia.
    rewrite Z.div_small by lia. rewrite Z.mod_small by lia. lia.
Qed.

Lemma charCodeAt_code_point_witness :
  Wrapper.charAt (ofZ 1) (Jaco.new [0x3042; 0xD83D; 0xDE00]) = [0xD83D; 0xDE00]
  /\ Wrapper.charCodeAt (ofZ 1) (Jaco.new [0x3042; 0xD83D; 0xDE00]) = ofZ 0x1F600.
Proof.
  split; [reflexivity|].
  destruct (charCodeAt_code_point (ofZ 1) (Jaco.new [0x3042; 0xD83D; 0xDE00]))
    as [[c [Hc _]] | [h [l [v [Hp [Hv _]]]]]].
  - vm_compute. discriminate.
  - vm_compute in Hc. discriminate.
  - reflexivity.
Defined.

(** ** Joining and the length *)

Section Joining.

Import Props.

Lemma toArray_low_first (c : unit16) (s : jsstring) :
  isLowSurrogate c = true -> Jaco.toArray_str (c :: s) = Jaco.toArray_str s.
Proof.
  intro H. pose proof (low_is_surrogate c H) as Hs.
  assert (Hh : isHighSurrogate c = false).
  { unfold isHighSurrogate, isLowSurrogate in *.
    apply andb_true_iff in H. destruct H as [H1 H2]. apply Z.leb_le in H1.
    destruct (Z.leb_spec c 0xDBFF); [lia|]. apply andb_false_r. }
  destruct s as [|d s].
  - simpl. rewrite Hs. reflexivity.
  - rewrite toArray_str_step, Hh, Hs. reflexivity.
Qed.

Lemma toArray_one (c : unit16) :
  Jaco.toArray_str [c] = if isSurrogate c then [] else [[c]].
Proof. reflexivity. Qed.

Lemma low_not_high (d : unit16) : isLowSurrogate d = true -> isHighSurrogate d = false.
Proof.
  unfold isHighSurrogate, isLowSurrogate. intro Hd.
  apply andb_true_iff in Hd. destruct Hd as [H1 H2]. apply Z.leb_le in H1.
  destruct (Z.leb_spec d 0xDBFF); [lia|]. apply andb_false_r.
Qed.

Lemma endsWithHigh_cons (c d : unit16) (l : jsstring) :
  endsWithHigh (c :: d :: l) = endsWithHigh (d :: l).
Proof. reflexivity. Qed.

Lemma toArray_app_length (a b : jsstring) :
  List.length (Jaco.toArray_str (a ++ b))
  = (List.length (Jaco.toArray_str a) + List.length (Jaco.toArray_str b)
     + if endsWithHigh a && startsWithLow b then 1 else 0)%nat.
Proof.
  induction a as [| c | c d l IH1 IH2] using list_pair_ind.
  - simpl. lia.
  - cbn [app endsWithHigh]. rewrite toArray_one. destruct b as [|e b].
    + rewrite toArray_one. cbn [startsWithLow]. rewrite andb_false_r.
      destruct (isSurrogate c); simpl; lia.
    + rewrite toArray_str_step. cbn [startsWithLow].
      destruct (isHighSurrogate c) eqn:Hh.
      * rewrite (high_is_surrogate c Hh). destruct (isLowSurrogate e) eqn:Hl; cbn [andb].
        -- rewrite (toArray_low_first e b Hl). cbn [List.length]. lia.
        -- cbn [List.length]. lia.
      * cbn [andb]. destruct (isSurrogate c); cbn [List.length]; lia.
  - change ((c :: d :: l) ++ b) with (c :: d :: (l ++ b)).
    rewrite !toArray_str_step, endsWithHigh_cons.
    destruct (isHighSurrogate c && isLowSurrogate d) eqn:Hp.
    + cbn [List.length]. rewrite IH1.
      destruct l as [|e l].
      * apply andb_true_iff in Hp. destruct Hp as [_ Hd].
        cbn [endsWithHigh]. rewrite (low_not_high d Hd). cbn [andb]. lia.
      * rewrite endsWithHigh_cons. lia.
    + change (d :: l ++ b) with ((d :: l) ++ b).
      destruct (isSurrogate c); cbn [List.length]; rewrite IH2; lia.
Qed.

End Joining.

(** X11: the surrogate-aware length after [append] is the sum of the two
    lengths, plus one exactly when the buffer ends with a high surrogate
    and the appended string begins with a low one. [prepend] is the same
    with the roles exchanged. *)
Theorem append_length (element : jsstring) (this : Jaco.t) :
  Jaco.length (Wrapper.append element this)
  = Jaco.length this + Jaco.length (Jaco.new element)
    + (if Props.endsWithHigh (Jaco.str this) && Props.startsWithLow element then 1 else 0)
  /\ Jaco.length (Wrapper.prepend element this)
     = Jaco.length (Jaco.new element) + Jaco.length this
       + (if Props.endsWithHigh element && Props.startsWithLow (Jaco.str this) then 1 else 0).
Proof.
  unfold Jaco.length, Jaco._toArray, Wrapper.append, Wrapper.prepend, Wrapper.concat.
  cbn [Jaco.str map Wrapper.argToString List.concat]. rewrite !app_nil_r.
  rewrite !toArray_app_length. split.
  - destruct (Props.endsWithHigh (Jaco.str this) && Props.startsWithLow element); lia.
  - destruct (Props.endsWithHigh element && Props.startsWithLow (Jaco.str this)); lia.
Qed.

(** ** Tables of two-unit keys: one pass from left to right *)


Section PairTables.

Import Props.

Variable firsts seconds : list unit16.
Hypothesis firsts_not_seconds :
  forallb (fun b => negb (memUnit seconds b)) firsts = true.

Lemma first_not_second (b : unit16) : memUnit firsts b = true -> memUnit seconds b = false.
Proof.
  unfold memUnit at 1. intro H. apply existsb_exists in H. destruct H as [a [Ha E]].
  apply Z.eqb_eq in E. subst a. rewrite forallb_forall in firsts_not_seconds.
  apply negb_true_iff. apply firsts_not_seconds. exact Ha.
Qed.

Lemma pairEntry_shape (kv : jsstring * jsstring) :
  pairEntry firsts seconds kv = true ->
  exists b m v, kv = ([b; m], [v])
                /\ memUnit firsts b = true /\ memUnit seconds m = true
                /\ memUnit firsts v = false /\ memUnit seconds v = false.
Proof.
  unfold pairEntry. intro H. repeat (apply andb_true_iff in H; destruct H as [H ?]).
  destruct kv as [k v]. cbn [fst snd] in *.
  destruct k as [|b [|m [|? ?]]]; try discriminate.
  destruct v as [|v0 [|? ?]]; try discriminate.
  cbn [nth] in *. exists b, m, v0.
  repeat split; try assumption; apply negb_true_iff; assumption.
Qed.

Lemma lookupPair_in (table : list (jsstring * jsstring)) (c d : unit16) (v : jsstring) :
  lookupPair table c d = Some v -> In ([c; d], v) table.
Proof.
  unfold lookupPair. destruct (find _ table) as [kv|] eqn:E; [|discriminate].
  intro H. injection H as <-. apply find_some in E. destruct E as [Hin Heq].
  apply str_eqb_eq in Heq. destruct kv as [k v]. cbn [fst snd] in *. subst k. exact Hin.
Qed.

Lemma lookupPair_units (table : list (jsstring * jsstring)) (c d : unit16) (v : jsstring) :
  forallb (pairEntry firsts seconds) table = true ->
  lookupPair table c d = Some v ->
  memUnit firsts c = true /\ memUnit seconds d = true
  /\ exists v0, v = [v0] /\ memUnit firsts v0 = false /\ memUnit seconds v0 = false.
Proof.
  intros Ht H. apply lookupPair_in in H. rewrite forallb_forall in Ht.
  destruct (pairEntry_shape _ (Ht _ H)) as [b [m [v0 [E [Hb [Hm [Hv1 Hv2]]]]]]].
  injection E as -> -> ->. repeat split; try assumption.
  exists v0. repeat split; assumption.
Qed.

Lemma lookupPair_cons (kv : jsstring * jsstring) (table : list (jsstring * jsstring))
      (c d : unit16) :
  lookupPair (kv :: table) c d
  = if str_eqb (fst kv) [c; d] then Some (snd kv) else lookupPair table c d.
Proof. unfold lookupPair. cbn [find]. destruct (str_eqb (fst kv) [c; d]); reflexivity. Qed.

Lemma replacePairs_step (table : list (jsstring * jsstring)) (c d : unit16) (rest : jsstring) :
  replacePairs table (c :: d :: rest)
  = match lookupPair table c d with
    | Some v => v ++ replacePairs table rest
    | None => c :: replacePairs table (d :: rest)
    end.
Proof. reflexivity. Qed.

Lemma replacePairs_nil (s : jsstring) : replacePairs [] s = s.
Proof.
  induction s as [| c | c d l IH1 IH2] using list_pair_ind; try reflexivity.
  rewrite replacePairs_step. cbn [lookupPair find]. rewrite IH2. reflexivity.
Qed.

(** A unit that is no first unit is passed over. *)
Lemma replacePairs_not_first (table : list (jsstring * jsstring)) (c : unit16) (s : jsstring) :
  forallb (pairEntry firsts seconds) table = true ->
  memUnit firsts c = false ->
  replacePairs table (c :: s) = c :: replacePairs table s.
Proof.
  intros Ht Hc. destruct s as [|d rest]; [reflexivity|].
  rewrite replacePairs_step. destruct (lookupPair table c d) as [v|] eqn:E; [|reflexivity].
  destruct (lookupPair_units table c d v Ht E) as [Hf _]. congruence.
Qed.

(** So is a unit followed by one that is no second unit. *)
Lemma replacePairs_not_second (table : list (jsstring * jsstring)) (c d : unit16)
      (s : jsstring) :
  forallb (pairEntry firsts seconds) table = true ->
  memUnit seconds d = false ->
  replacePairs table (c :: d :: s) = c :: replacePairs table (d :: s).
Proof.
  intros Ht Hd. rewrite replacePairs_step.
  destruct (lookupPair table c d) as [v|] eqn:E; [|reflexivity].
  destruct (lookupPair_units table c d v Ht E) as [_ [Hs _]]. congruence.
Qed.

(** The global replacement of one two-unit key, step by step. *)
Lemma replaceAll_pair_step (b m : unit16) (v : jsstring) (c d : unit16) (rest : jsstring) :
  replaceAll (Literal [b; m]) (fun _ => v) (c :: d :: rest)
  = if (b =? c) && (m =? d)
    then v ++ replaceAll (Literal [b; m]) (fun _ => v) rest
    else c :: replaceAll (Literal [b; m]) (fun _ => v) (d :: rest).
Proof.
  unfold replaceAll. cbn [replaceAll_aux matchLen stripPrefix List.length].
  destruct (b =? c); [|reflexivity]. destruct (m =? d); reflexivity.
Qed.

Lemma replaceAll_pair_one (b m : unit16) (v : jsstring) (c : unit16) :
  replaceAll (Literal [b; m]) (fun _ => v) [c] = [c].
Proof.
  unfold replaceAll. cbn [replaceAll_aux matchLen stripPrefix].
  destruct (b =? c); reflexivity.
Qed.

(** What the replacement of one key leaves at the head of a string. *)
Lemma replaceAll_pair_head (b m v0 : unit16) (d : unit16) (rest : jsstring) :
  exists tl,
    replaceAll (Literal [b; m]) (fun _ => [v0]) (d :: rest) = d :: tl
    \/ (replaceAll (Literal [b; m]) (fun _ => [v0]) (d :: rest) = v0 :: tl /\ b = d).
Proof.
  destruct rest as [|e rest].
  - exists []. left. apply replaceAll_pair_one.
  - rewrite replaceAll_pair_step. destruct ((b =? d) && (m =? e)) eqn:E.
    + apply andb_true_iff in E. destruct E as [E _]. apply Z.eqb_eq in E.
      eexists. right. split; [reflexivity | exact E].
    + eexists. left. reflexivity.
Qed.

Lemma replacePairs_add_entry (b m v0 : unit16) (table : list (jsstring * jsstring)) :
  pairEntry firsts seconds ([b; m], [v0]) = true ->
  forallb (pairEntry firsts seconds) table = true ->
  forall s,
    replacePairs table (replaceAll (Literal [b; m]) (fun _ => [v0]) s)
    = replacePairs (([b; m], [v0]) :: table) s.
Proof.
  intros He Ht.
  destruct (pairEntry_shape _ He) as [b' [m' [v' [E [Hb [Hm [Hv1 Hv2]]]]]]].
  injection E as <- <- <-.
  assert (Ht' : forallb (pairEntry firsts seconds) (([b; m], [v0]) :: table) = true).
  { cbn [forallb]. rewrite He, Ht. reflexivity. }
  induction s as [| c | c d rest IH1 IH2] using list_pair_ind.
  - reflexivity.
  - rewrite replaceAll_pair_one. reflexivity.
  - rewrite replaceAll_pair_step, replacePairs_step, lookupPair_cons. cbn [fst snd str_eqb].
    rewrite andb_true_r.
    destruct ((b =? c) && (m =? d)) eqn:Ekey.
    + cbn [app]. rewrite (replacePairs_not_first table v0 _ Ht Hv1), IH1. reflexivity.
    + destruct (lookupPair table c d) as [w|] eqn:El.
      * destruct (lookupPair_units table c d w Ht El) as [_ [Hd _]].
        assert (Hbd : (b =? d) = false).
        { destruct (Z.eqb_spec b d) as [->|]; [|reflexivity].
          rewrite (first_not_second d Hb) in Hd. discriminate. }
        assert (Hrest : replaceAll (Literal [b; m]) (fun _ => [v0]) (d :: rest)
                        = d :: replaceAll (Literal [b; m]) (fun _ => [v0]) rest).
        { destruct rest as [|e rest]; [apply replaceAll_pair_one|].
          rewrite replaceAll_pair_step, Hbd. reflexivity. }
        rewrite Hrest, replacePairs_step, El, IH1. reflexivity.
      * rewrite <- IH2.
        destruct (replaceAll_pair_head b m v0 d rest) as [tl [Hhead | [Hhead Hbd]]];
          rewrite Hhead.
        -- rewrite replacePairs_step, El. reflexivity.
        -- apply (replacePairs_not_second table c v0 tl Ht Hv2).
Qed.

(** The replacements of a table of pairs, one after the other, are one pass. *)
Lemma replaceFromMap_pairs (table : list (jsstring * jsstring)) :
  forallb (pairEntry firsts seconds) table = true ->
  forall s, Jaco.str (Jaco.replaceFromMap table (Jaco.new s)) = replacePairs table s.
Proof.
  induction table as [|kv table IH]; intros Ht s.
  - cbn. symmetry. apply replacePairs_nil.
  - cbn [forallb] in Ht. apply andb_true_iff in Ht. destruct Ht as [He Ht].
    destruct (pairEntry_shape _ He) as [b [m [v0 [-> _]]]].
    rewrite replaceFromMap_cons. unfold Jaco.replace. cbn [Jaco.str fst snd].
    rewrite (IH Ht). apply replacePairs_add_entry; assumption.
Qed.

Lemma lookupPair_key (table : list (jsstring * jsstring)) (b m : unit16) (v : jsstring) :
  In ([b; m], v) table -> lookupPair table b m <> None.
Proof.
  intros Hin H. unfold lookupPair in H.
  destruct (find _ table) as [kv|] eqn:E; [discriminate|].
  apply (find_none _ _ E) in Hin. cbn [fst] in Hin.
  assert (str_eqb [b; m] [b; m] = true) by (apply str_eqb_eq; reflexivity). congruence.
Qed.

Lemma matches_pair_step (b m x y : unit16) (t : jsstring) :
  matchesSomewhere (Literal [b; m]) (x :: y :: t)
  = ((b =? x) && (m =? y)) || matchesSomewhere (Literal [b; m]) (y :: t).
Proof.
  cbn [matchesSomewhere matchLen stripPrefix].
  destruct (b =? x); [|reflexivity]. destruct (m =? y); reflexivity.
Qed.

Lemma matches_pair_one (b m x : unit16) : matchesSomewhere (Literal [b; m]) [x] = false.
Proof. cbn [matchesSomewhere matchLen stripPrefix]. destruct (b =? x); reflexivity. Qed.

Lemma replacePairs_head (table : list (jsstring * jsstring)) (d : unit16) (rest : jsstring) :
  forallb (pairEntry firsts seconds) table = true ->
  exists h tl, replacePairs table (d :: rest) = h :: tl
               /\ (h = d \/ (memUnit firsts h = false /\ memUnit seconds h = false)).
Proof.
  intro Ht. destruct rest as [|e rest].
  - exists d, []. split; [reflexivity | left; reflexivity].
  - rewrite replacePairs_step. destruct (lookupPair table d e) as [v|] eqn:E.
    + destruct (lookupPair_units table d e v Ht E) as [_ [_ [v0 [-> [H1 H2]]]]].
      exists v0, (replacePairs table rest). split; [reflexivity | right; split; assumption].
    + exists d, (replacePairs table (e :: rest)). split; [reflexivity | left; reflexivity].
Qed.

(** After the pass no key of the table is left. *)
Lemma replacePairs_no_key (table : list (jsstring * jsstring)) (k v : jsstring) :
  forallb (pairEntry firsts seconds) table = true ->
  In (k, v) table ->
  forall s, matchesSomewhere (Literal k) (replacePairs table s) = false.
Proof.
  intros Ht Hin. pose proof Ht as Hall. rewrite forallb_forall in Hall.
  destruct (pairEntry_shape _ (Hall _ Hin)) as [b [m [v0 [E [Hb [Hm _]]]]]].
  injection E as -> ->.
  assert (Hne1 : forall h, memUnit firsts h = false -> (b =? h) = false).
  { intros h Hh. destruct (Z.eqb_spec b h) as [->|]; [congruence | reflexivity]. }
  assert (Hne2 : forall h, memUnit seconds h = false -> (m =? h) = false).
  { intros h Hh. destruct (Z.eqb_spec m h) as [->|]; [congruence | reflexivity]. }
  induction s as [| c | c d rest IH1 IH2] using list_pair_ind.
  - reflexivity.
  - apply matches_pair_one.
  - rewrite replacePairs_step. destruct (lookupPair table c d) as [w|] eqn:El.
    + destruct (lookupPair_units table c d w Ht El) as [_ [_ [w0 [-> [H1 _]]]]].
      cbn [app]. destruct (replacePairs table rest) as [|y t] eqn:Er.
      * apply matches_pair_one.
      * rewrite matches_pair_step, (Hne1 w0 H1). exact IH1.
    + destruct (replacePairs_head table d rest Ht) as [h [tl [Eh Hh]]].
      rewrite Eh in *. rewrite matches_pair_step, IH2, orb_false_r.
      destruct Hh as [-> | [_ Hh]].
      * destruct (Z.eqb_spec b c) as [->|]; [|reflexivity].
        destruct (Z.eqb_spec m d) as [->|]; [|reflexivity].
        exfalso. exact (lookupPair_key table c d [v0] Hin El).
      * rewrite (Hne2 h Hh). apply andb_false_r.
Qed.

(** A string without keys is left as it is. *)
Lemma replacePairs_fixed (table : list (jsstring * jsstring)) (s : jsstring) :
  (forall k v, In (k, v) table -> matchesSomewhere (Literal k) s = false) ->
  replacePairs table s = s.
Proof.
  induction s as [| c | c d rest IH1 IH2] using list_pair_ind; intro H; try reflexivity.
  rewrite replacePairs_step. destruct (lookupPair table c d) as [w|] eqn:El.
  - apply lookupPair_in in El. specialize (H _ _ El).
    rewrite matches_pair_step, !Z.eqb_refl in H. discriminate.
  - rewrite IH2; [reflexivity|]. intros k v Hin. specialize (H k v Hin).
    cbn [matchesSomewhere] in H. destruct (matchLen (Literal k) (c :: d :: rest));
      [discriminate | exact H].
Qed.

(** The units of the result are units of the string or values of the table. *)
Lemma replacePairs_units (table : list (jsstring * jsstring)) (s : jsstring) (u : unit16) :
  In u (replacePairs table s) ->
  In u s \/ exists k v, In (k, v) table /\ In u v.
Proof.
  induction s as [| c | c d rest IH1 IH2] using list_pair_ind; intro H.
  - contradiction.
  - left. exact H.
  - rewrite replacePairs_step in H. destruct (lookupPair table c d) as [w|] eqn:El.
    + apply in_app_or in H. destruct H as [H|H].
      * right. exists [c; d], w. split; [apply lookupPair_in; exact El | exact H].
      * destruct (IH1 H) as [Hin|Hv]; [left; right; right; exact Hin | right; exact Hv].
    + destruct H as [<-|H]; [left; left; reflexivity|].
      destruct (IH2 H) as [Hin|Hv]; [left; right; exact Hin | right; exact Hv].
Qed.

End PairTables.

Section CombiningMarks.

Import Props.

Lemma replaceFromMap_pairTable (table : list (jsstring * jsstring)) :
  pairTable table = true ->
  forall s, Jaco.str (Jaco.replaceFromMap table (Jaco.new s)) = replacePairs table s.
Proof.
  intro H. apply andb_true_iff in H. destruct H as [Ht Hd].
  apply (replaceFromMap_pairs (firstUnits table) (secondUnits table) Hd table Ht).
Qed.


Lemma combineTable_pairs : pairTable Jaco.combineTable = true.
Proof. vm_compute. reflexivity. Qed.

Lemma wideKatakanaDigraphs_pairs : pairTable wideKatakanaDigraphs = true.
Proof. vm_compute. reflexivity. Qed.

Lemma pairTable_entries (table : list (jsstring * jsstring)) :
  pairTable table = true ->
  forallb (pairEntry (firstUnits table) (secondUnits table)) table = true.
Proof. intro H. apply andb_true_iff in H. exact (proj1 H). Qed.

Lemma pairTable_disjoint (table : list (jsstring * jsstring)) :
  pairTable table = true ->
  forallb (fun b => negb (memUnit (secondUnits table) b)) (firstUnits table) = true.
Proof. intro H. apply andb_true_iff in H. exact (proj2 H). Qed.

(** [combinateSoundMarks ()] is one pass over the string with its marks made
    combining marks. *)
Lemma combinateSoundMarks_one_pass (this : Jaco.t) :
  Jaco.str (Jaco.combinateSoundMarks false this)
  = replacePairs Jaco.combineTable (map Spec.toCombiningMark (Jaco.str this)).
Proof.
  unfold Jaco.combinateSoundMarks. cbn [negb].
  pose proof (combiningMarkTable_units this) as Hmarks.
  destruct (Jaco.replaceFromMap Jaco.combiningMarkTable this) as [s']. cbn [Jaco.str] in Hmarks.
  subst s'. apply replaceFromMap_pairTable. exact combineTable_pairs.
Qed.

End CombiningMarks.

(** X13: the result of [combinateSoundMarks ()] holds no spacing
    voicing mark (U+309B, U+309C) and no kana followed by a combining mark
    that the table combines, and the method applied to it changes nothing. *)
Theorem combinateSoundMarks_normal_form (this : Jaco.t) :
  (forall c, In c (Jaco.str (Jaco.combinateSoundMarks false this)) ->
             Spec.isSpacingMark c = false)
  /\ Spec.noCombinablePair (Jaco.str (Jaco.combinateSoundMarks false this)) = true
  /\ Jaco.str (Jaco.combinateSoundMarks false (Jaco.combinateSoundMarks false this))
     = Jaco.str (Jaco.combinateSoundMarks false this).
Proof.
  assert (Hmarks : forall c, In c (Jaco.str (Jaco.combinateSoundMarks false this)) ->
                             Spec.isSpacingMark c = false).
  { intros c Hc. rewrite combinateSoundMarks_one_pass in Hc.
    apply replacePairs_units in Hc. destruct Hc as [Hc | [k [v [Hkv Hc]]]].
    - apply in_map_iff in Hc. destruct Hc as [c' [<- _]].
      unfold Spec.toCombiningMark, Spec.isSpacingMark.
      destruct (Z.eqb_spec c' 0x309B) as [->|H1]; [reflexivity|].
      destruct (Z.eqb_spec c' 0x309C) as [->|H2]; [reflexivity|].
      apply orb_false_iff. split; apply Z.eqb_neq; assumption.
    - assert (Hall : forallb (fun kv => forallb (fun u => negb (Spec.isSpacingMark u)) (snd kv))
                       Jaco.combineTable = true) by (vm_compute; reflexivity).
      rewrite forallb_forall in Hall. specialize (Hall _ Hkv). cbn [snd] in Hall.
      rewrite forallb_forall in Hall. apply negb_true_iff. apply Hall. exact Hc. }
  assert (Hkeys : Spec.noCombinablePair (Jaco.str (Jaco.combinateSoundMarks false this)) = true).
  { unfold Spec.noCombinablePair. apply forallb_forall. intros [k v] Hkv. cbn [fst].
    apply negb_true_iff. rewrite combinateSoundMarks_one_pass.
    apply (replacePairs_no_key (Props.firstUnits Jaco.combineTable) (Props.secondUnits Jaco.combineTable)
             Jaco.combineTable k v (pairTable_entries _ combineTable_pairs) Hkv). }
  split; [exact Hmarks|]. split; [exact Hkeys|].
  rewrite (combinateSoundMarks_one_pass (Jaco.combinateSoundMarks false this)).
  assert (Hsame : map Spec.toCombiningMark (Jaco.str (Jaco.combinateSoundMarks false this))
                  = Jaco.str (Jaco.combinateSoundMarks false this)).
  { rewrite <- (map_id (Jaco.str (Jaco.combinateSoundMarks false this))) at 2.
    apply map_ext_in. intros c Hc. specialize (Hmarks c Hc).
    unfold Spec.isSpacingMark in Hmarks. apply orb_false_iff in Hmarks.
    destruct Hmarks as [H1 H2]. unfold Spec.toCombiningMark. rewrite H1, H2. reflexivity. }
  rewrite Hsame. apply replacePairs_fixed. intros k v Hkv.
  unfold Spec.noCombinablePair in Hkeys. rewrite forallb_forall in Hkeys.
  specialize (Hkeys _ Hkv). cbn [fst] in Hkeys. apply negb_true_iff. exact Hkeys.
Qed.

(** ** Full-width and half-width katakana *)

Section WidthTables.

Import Props.

Section UnitKeys.

Variable keys : list unit16.

Lemma replaceAll_unit_str (k : unit16) (v : jsstring) (s : jsstring) :
  replaceAll (Literal [k]) (fun _ => v) s = flat_map (fun c => if c =? k then v else [c]) s.
Proof.
  unfold replaceAll. induction s as [|c tl IH]; [reflexivity|].
  cbn [replaceAll_aux matchLen stripPrefix flat_map List.length].
  rewrite (Z.eqb_sym k c). destruct (c =? k); cbn [firstn app]; rewrite IH; reflexivity.
Qed.

Lemma lookupStr_not_key (table : list (jsstring * jsstring)) (u : unit16) :
  forallb (fun kv => memUnit keys (nth 0 (fst kv) 0) && (List.length (fst kv) =? 1)%nat)
    table = true ->
  memUnit keys u = false -> lookupStr table u = [u].
Proof.
  intros Ht Hu. unfold lookupStr. destruct (find _ table) as [kv|] eqn:E; [|reflexivity].
  apply find_some in E. destruct E as [Hin Heq]. apply str_eqb_eq in Heq.
  rewrite forallb_forall in Ht. specialize (Ht _ Hin). apply andb_true_iff in Ht.
  destruct Ht as [Hk _]. destruct kv as [k v]. cbn [fst] in Heq, Hk. subst k.
  cbn [nth] in Hk. congruence.
Qed.

Lemma replaceFromMap_unit_keys_in (table : list (jsstring * jsstring)) :
  forallb (unitKeyEntry keys) table = true ->
  forallb (fun kv => memUnit keys (nth 0 (fst kv) 0) && (List.length (fst kv) =? 1)%nat)
    table = true ->
  forall s,
    Jaco.str (Jaco.replaceFromMap table (Jaco.new s)) = flat_map (lookupStr table) s.
Proof.
  induction table as [|[k v] table IH]; intros He Hk s.
  - cbn. induction s as [|c s IHs]; [reflexivity|]. cbn [flat_map lookupStr find app].
    rewrite <- IHs. reflexivity.
  - cbn [forallb] in He, Hk. apply andb_true_iff in He. destruct He as [He1 He].
    apply andb_true_iff in Hk. destruct Hk as [_ Hk].
    unfold unitKeyEntry in He1. cbn [fst snd] in He1. apply andb_true_iff in He1.
    destruct He1 as [Hlen Hv]. destruct k as [|k0 [|? ?]]; try discriminate.
    rewrite replaceFromMap_cons. unfold Jaco.replace. cbn [Jaco.str fst snd].
    rewrite (IH He Hk), replaceAll_unit_str.
    induction s as [|c s IHs]; [reflexivity|].
    cbn [flat_map]. rewrite flat_map_app, IHs. f_equal.
    unfold lookupStr at 2. cbn [find fst snd str_eqb]. rewrite andb_true_r.
    rewrite (Z.eqb_sym k0 c). destruct (c =? k0).
    + clear IHs. induction v as [|u v IHv]; [reflexivity|].
      cbn [forallb] in Hv. apply andb_true_iff in Hv. destruct Hv as [Hu Hv].
      cbn [flat_map]. rewrite (IHv Hv).
      rewrite (lookupStr_not_key table u Hk) by (apply negb_true_iff; exact Hu).
      reflexivity.
    + cbn [flat_map]. rewrite app_nil_r. reflexivity.
Qed.

End UnitKeys.

Lemma replaceFromMap_unit_keys (table : list (jsstring * jsstring)) :
  unitKeyTable table = true ->
  forallb (fun kv => memUnit (keyUnits table) (nth 0 (fst kv) 0)
                     && (List.length (fst kv) =? 1)%nat) table = true ->
  forall s,
    Jaco.str (Jaco.replaceFromMap table (Jaco.new s)) = flat_map (lookupStr table) s.
Proof. intros H1 H2. apply (replaceFromMap_unit_keys_in (keyUnits table)); assumption. Qed.

Lemma replace_anyOf_unit (body : jsstring) (v : unit16) (this : Jaco.t) :
  Jaco.str (Jaco.replace (AnyOf body) [v] this)
  = map (fun c => if classMatches body c then v else c) (Jaco.str this).
Proof.
  unfold Jaco.replace. cbn [Jaco.str]. rewrite replaceAll_anyOf.
  induction (Jaco.str this) as [|c s IH]; [reflexivity|].
  cbn [flat_map map]. rewrite IH. destruct (classMatches body c); reflexivity.
Qed.

(** [toNarrowKatakana ()], unit by unit. *)
Lemma toNarrowKatakana_units (HIRAGANA_CHARS : jsstring) (this : Jaco.t) :
  Jaco.str (Jaco.toNarrowKatakana HIRAGANA_CHARS false this)
  = flat_map narrowOf (Jaco.str this).
Proof.
  unfold Jaco.toNarrowKatakana.
  set (marked := Jaco.replace (AnyOf [0x309C; 0x309A]) [0xFF9F]
                   (Jaco.replace (AnyOf [0x309B; 0x3099]) [0xFF9E] this)).
  assert (Hm : Jaco.str marked = map narrowMark (Jaco.str this)).
  { subst marked. rewrite !replace_anyOf_unit, map_map. apply map_ext. intro c.
    unfold narrowMark. destruct (classMatches [0x309B; 0x3099] c); reflexivity. }
  destruct marked as [m]. cbn [Jaco.str] in Hm. subst m.
  rewrite replaceFromMap_unit_keys by (vm_compute; reflexivity).
  unfold narrowOf. induction (Jaco.str this) as [|c s IH]; [reflexivity|].
  cbn [map flat_map]. rewrite IH. reflexivity.
Qed.

(** [toWideKatakana]: one pass for the digraphs, then unit by unit. *)
Lemma toWideKatakana_one_pass (this : Jaco.t) :
  Jaco.str (Jaco.toWideKatakana this)
  = map wideOf (replacePairs wideKatakanaDigraphs (Jaco.str this)).
Proof.
  rewrite toWideKatakana_units. destruct this as [s]. unfold wideOf.
  rewrite (replaceFromMap_pairTable wideKatakanaDigraphs wideKatakanaDigraphs_pairs).
  reflexivity.
Qed.

End WidthTables.

Section KatakanaWidth.

Import Props.

Variable HIRAGANA_CHARS : jsstring.

Lemma narrow_unit_back (c : unit16) :
  classMatches NARROW_KATAKANA_CHARS c = true -> narrowOf (wideOf c) = [c].
Proof.
  rewrite narrow_katakana_range. intro H. apply andb_true_iff in H.
  destruct H as [Hlo Hhi]. apply Z.leb_le in Hlo. apply Z.leb_le in Hhi.
  apply str_eqb_eq.
  apply (range_enumerated 0xFF66 58 (fun u => str_eqb (narrowOf (wideOf u)) [u])).
  - vm_compute. reflexivity.
  - lia.
Qed.

Lemma narrow_digraph_back (c d : unit16) (v : jsstring) :
  lookupPair wideKatakanaDigraphs c d = Some v ->
  flat_map narrowOf (map wideOf v) = [c; d].
Proof.
  intro H. apply lookupPair_in in H.
  assert (Hall : forallb (fun kv : jsstring * jsstring =>
                            str_eqb (flat_map narrowOf (map wideOf (snd kv))) (fst kv))
                   wideKatakanaDigraphs = true) by (vm_compute; reflexivity).
  rewrite forallb_forall in Hall. specialize (Hall _ H). cbn [fst snd] in Hall.
  apply str_eqb_eq in Hall. exact Hall.
Qed.

Lemma narrow_wide_narrow (s : jsstring) :
  forallb (classMatches NARROW_KATAKANA_CHARS) s = true ->
  flat_map narrowOf (map wideOf (replacePairs wideKatakanaDigraphs s)) = s.
Proof.
  induction s as [| c | c d rest IH1 IH2] using list_pair_ind; intro H.
  - reflexivity.
  - cbn [forallb] in H. apply andb_true_iff in H. destruct H as [Hc _].
    cbn [replacePairs map flat_map]. rewrite (narrow_unit_back c Hc). reflexivity.
  - assert (Hc : classMatches NARROW_KATAKANA_CHARS c = true)
      by (cbn [forallb] in H; apply andb_true_iff in H; exact (proj1 H)).
    assert (Htl : forallb (classMatches NARROW_KATAKANA_CHARS) (d :: rest) = true)
      by (cbn [forallb] in H; apply andb_true_iff in H; exact (proj2 H)).
    assert (Hrest : forallb (classMatches NARROW_KATAKANA_CHARS) rest = true)
      by (cbn [forallb] in Htl; apply andb_true_iff in Htl; exact (proj2 Htl)).
    rewrite replacePairs_step.
    destruct (lookupPair wideKatakanaDigraphs c d) as [v|] eqn:E.
    + rewrite map_app, flat_map_app, (narrow_digraph_back c d v E), (IH1 Hrest).
      reflexivity.
    + cbn [map flat_map]. rewrite (narrow_unit_back c Hc), (IH2 Htl). reflexivity.
Qed.

Lemma comesBackWide_form (c : unit16) :
  comesBackWide c = true -> narrowFormComesBack c = true.
Proof.
  intro H.
  destruct (memUnit (keyUnits Jaco.narrowKatakanaTable) c) eqn:Hkey.
  - assert (Hall : forallb (fun k : unit16 => negb (comesBackWide k) || narrowFormComesBack k)
                     (keyUnits Jaco.narrowKatakanaTable) = true) by (vm_compute; reflexivity).
    rewrite forallb_forall in Hall. unfold memUnit in Hkey.
    apply existsb_exists in Hkey. destruct Hkey as [k [Hk E]].
    apply Z.eqb_eq in E. subst k. specialize (Hall _ Hk). rewrite H in Hall.
    exact Hall.
  - unfold comesBackWide in H. apply andb_true_iff in H. destruct H as [H _].
    apply andb_true_iff in H. destruct H as [Hn Hm].
    apply negb_true_iff in Hn. apply negb_true_iff in Hm.
    assert (Hmark : narrowMark c = c).
    { unfold narrowMark. cbn [classMatches].
      destruct (Z.eqb_spec c 0x309B) as [->|_]; [vm_compute in Hm; discriminate|].
      destruct (Z.eqb_spec c 0x3099) as [->|_]; [vm_compute in Hm; discriminate|].
      destruct (Z.eqb_spec c 0x309C) as [->|_]; [vm_compute in Hm; discriminate|].
      destruct (Z.eqb_spec c 0x309A) as [->|_]; [vm_compute in Hm; discriminate|].
      reflexivity. }
    assert (Hform : narrowOf c = [c]).
    { unfold narrowOf. rewrite Hmark.
      apply (lookupStr_not_key (keyUnits Jaco.narrowKatakanaTable)); [|exact Hkey].
      vm_compute. reflexivity. }
    assert (Hwide : wideOf c = c).
    { unfold wideOf. apply lookupUnit_not_key. intro Hin.
      assert (Hall : forallb (classMatches NARROW_KATAKANA_CHARS)
                       (map fst (Spec.unitTable wideKatakanaSingles)) = true)
        by (vm_compute; reflexivity).
      rewrite forallb_forall in Hall. specialize (Hall _ Hin). congruence. }
    rewrite narrow_katakana_range in Hn.
    unfold narrowFormComesBack. rewrite Hform. cbn [replacePairs map nth].
    rewrite Hwide. rewrite (proj2 (str_eqb_eq [c] [c]) eq_refl). cbn [andb].
    apply negb_true_iff.
    destruct (memUnit (secondUnits wideKatakanaDigraphs) c) eqn:Hs; [|reflexivity].
    exfalso. unfold memUnit in Hs. apply existsb_exists in Hs.
    destruct Hs as [k [Hk E]]. apply Z.eqb_eq in E. subst k.
    assert (Hall : forallb (fun k : unit16 => (0xFF66 <=? k) && (k <=? 0xFF9F))
                     (secondUnits wideKatakanaDigraphs) = true) by (vm_compute; reflexivity).
    rewrite forallb_forall in Hall. specialize (Hall _ Hk). congruence.
Qed.

Lemma narrow_form_head (s : jsstring) :
  forallb comesBackWide s = true ->
  match flat_map narrowOf s with
  | [] => True
  | h :: _ => memUnit (secondUnits wideKatakanaDigraphs) h = false
  end.
Proof.
  destruct s as [|c s]; intro H; [exact I|].
  cbn [forallb] in H. apply andb_true_iff in H. destruct H as [Hc _].
  apply comesBackWide_form in Hc. unfold narrowFormComesBack in Hc.
  apply andb_true_iff in Hc. destruct Hc as [Hc Hh]. apply andb_true_iff in Hc.
  destruct Hc as [_ Hshape]. apply negb_true_iff in Hh.
  cbn [flat_map]. destruct (narrowOf c) as [|u [|m [|? ?]]]; try discriminate;
    cbn [app nth] in *; exact Hh.
Qed.

Lemma wide_narrow_wide (s : jsstring) :
  forallb comesBackWide s = true ->
  map wideOf (replacePairs wideKatakanaDigraphs (flat_map narrowOf s)) = s.
Proof.
  induction s as [|c s IH]; intro H; [reflexivity|].
  assert (Hc : comesBackWide c = true)
    by (cbn [forallb] in H; apply andb_true_iff in H; exact (proj1 H)).
  assert (Hs : forallb comesBackWide s = true)
    by (cbn [forallb] in H; apply andb_true_iff in H; exact (proj2 H)).
  pose proof (narrow_form_head s Hs) as Hhead. specialize (IH Hs).
  apply comesBackWide_form in Hc. unfold narrowFormComesBack in Hc.
  apply andb_true_iff in Hc. destruct Hc as [Hc _]. apply andb_true_iff in Hc.
  destruct Hc as [Hback Hshape]. apply str_eqb_eq in Hback.
  cbn [flat_map]. pose proof (pairTable_entries _ wideKatakanaDigraphs_pairs) as Hent.
  destruct (narrowOf c) as [|u [|m [|? ?]]]; try discriminate.
  - cbn [app]. cbn [replacePairs map] in Hback. injection Hback as Hu.
    destruct (flat_map narrowOf s) as [|h t] eqn:E.
    + cbn [replacePairs map] in *. rewrite Hu, <- IH. reflexivity.
    + rewrite (replacePairs_not_second _ _ wideKatakanaDigraphs u h t Hent Hhead).
      cbn [map]. rewrite Hu, IH. reflexivity.
  - cbn [app]. rewrite replacePairs_step.
    rewrite (replacePairs_step wideKatakanaDigraphs u m []) in Hback.
    destruct (lookupPair wideKatakanaDigraphs u m) as [v|]; [|discriminate].
    cbn [replacePairs] in Hback. rewrite app_nil_r in Hback.
    rewrite map_app, Hback, IH. reflexivity.
Qed.

End KatakanaWidth.

(** X14: a string of half-width katakana (U+FF66 to U+FF9F) comes back
    unchanged from [toWideKatakana] followed by [toNarrowKatakana]. *)
Theorem narrow_katakana_round_trip (HIRAGANA_CHARS : jsstring) (this : Jaco.t) :
  forallb (classMatches NARROW_KATAKANA_CHARS) (Jaco.str this) = true ->
  Jaco.str (Jaco.toNarrowKatakana HIRAGANA_CHARS false (Jaco.toWideKatakana this))
  = Jaco.str this.
Proof.
  intro H. rewrite toNarrowKatakana_units, toWideKatakana_one_pass.
  apply narrow_wide_narrow. exact H.
Qed.

Lemma narrow_katakana_round_trip_witness :
  Jaco.str (Jaco.toNarrowKatakana Const.HIRAGANA_CHARS false
              (Jaco.toWideKatakana (Jaco.new [0xFF76; 0xFF9E; 0xFF9E; 0xFF8A; 0xFF9F; 0xFF70])))
  = [0xFF76; 0xFF9E; 0xFF9E; 0xFF8A; 0xFF9F; 0xFF70].
Proof.
  apply (narrow_katakana_round_trip Const.HIRAGANA_CHARS
           (Jaco.new [0xFF76; 0xFF9E; 0xFF9E; 0xFF8A; 0xFF9F; 0xFF70])).
  vm_compute. reflexivity.
Defined.

(** X15: a string comes back unchanged from [toNarrowKatakana] followed by
    [toWideKatakana] when it holds no half-width katakana, no voicing mark
    and none of U+30F5, U+30F6, U+30EE, U+30F0, U+30F1. *)
Theorem wide_katakana_round_trip (HIRAGANA_CHARS : jsstring) (this : Jaco.t) :
  forallb Props.comesBackWide (Jaco.str this) = true ->
  Jaco.str (Jaco.toWideKatakana (Jaco.toNarrowKatakana HIRAGANA_CHARS false this))
  = Jaco.str this.
Proof.
  intro H. rewrite toWideKatakana_one_pass, toNarrowKatakana_units.
  apply wide_narrow_wide. exact H.
Qed.

Lemma wide_katakana_round_trip_witness :
  Jaco.str (Jaco.toWideKatakana
              (Jaco.toNarrowKatakana Const.HIRAGANA_CHARS false
                 (Jaco.new [0x30AC; 0x30D1; 0x30FC; 0x30F4; 0x0041; 0x3042])))
  = [0x30AC; 0x30D1; 0x30FC; 0x30F4; 0x0041; 0x3042].
Proof.
  apply (wide_katakana_round_trip Const.HIRAGANA_CHARS
           (Jaco.new [0x30AC; 0x30D1; 0x30FC; 0x30F4; 0x0041; 0x3042])).
  vm_compute. reflexivity.
Defined.

(** ** Searching from the end *)

Section LastIndex.

Import Props.

Lemma indexFrom_in (a : list jsstring) (x : jsstring) (i : Z) :
  0 <= i -> In x a -> indexFrom a x i <> -1.
Proof.
  revert i. induction a as [|y a IH]; intros i Hi H; [contradiction|].
  cbn [indexFrom]. destruct (str_eqb y x) eqn:E; [lia|].
  destruct H as [H|H].
  - subst y. assert (str_eqb x x = true) by (apply str_eqb_eq; reflexivity). congruence.
  - apply IH; [lia | exact H].
Qed.

Lemma Qtruncate_inject_Z (z : Z) : Qtruncate (inject_Z z) = z.
Proof.
  unfold Qtruncate. destruct (Qle_bool 0 (inject_Z z)).
  - apply Qfloor_Z.
  - apply Qceiling_Z.
Qed.

Lemma nth_rev_firstn (a : list jsstring) (k m : nat) :
  (k < List.length a)%nat -> (m <= k)%nat ->
  nth m (rev (firstn (S k) a)) [] = nth (k - m) a [].
Proof.
  intros Hk Hm.
  assert (Hlen : List.length (firstn (S k) a) = S k) by (rewrite length_firstn; lia).
  rewrite rev_nth by lia. rewrite Hlen.
  replace (S k - S m)%nat with (k - m)%nat by lia.
  rewrite nth_firstn. destruct (Nat.ltb_spec (k - m) (S k)); [reflexivity | lia].
Qed.

(** The downward search from the index [k]. *)
Lemma lastIndex_from (a : list jsstring) (x : jsstring) (k : Z) :
  0 <= k < Z.of_nat (List.length a) ->
  let r := match indexFrom (rev (firstn (Z.to_nat (k + 1)) a)) x 0 with
           | -1 => -1
           | j => k - j
           end in
  (r = -1 /\ forall j, 0 <= j <= k -> nth (Z.to_nat j) a [] <> x)
  \/ (0 <= r <= k /\ nth (Z.to_nat r) a [] = x
      /\ forall j, r < j <= k -> nth (Z.to_nat j) a [] <> x).
Proof.
  intros Hk r.
  assert (Hr : r = if indexFrom (rev (firstn (Z.to_nat (k + 1)) a)) x 0 =? -1
                   then -1
                   else k - indexFrom (rev (firstn (Z.to_nat (k + 1)) a)) x 0).
  { subst r. destruct (indexFrom _ x 0) as [|p|[p|p|]]; reflexivity. }
  clearbody r. subst r.
  replace (Z.to_nat (k + 1)) with (S (Z.to_nat k)) by lia.
  set (L := rev (firstn (S (Z.to_nat k)) a)).
  assert (HL : List.length L = S (Z.to_nat k)).
  { subst L. rewrite length_rev, length_firstn. lia. }
  destruct (Z.eqb_spec (indexFrom L x 0) (-1)) as [E|E].
  - left. split; [reflexivity|]. intros j Hj Hx.
    assert (Hin : In x L).
    { rewrite <- Hx. subst L.
      replace (Z.to_nat j) with (Z.to_nat k - (Z.to_nat k - Z.to_nat j))%nat by lia.
      rewrite <- nth_rev_firstn by lia. apply nth_In. rewrite length_rev, length_firstn. lia. }
    exact (indexFrom_in L x 0 ltac:(lia) Hin E).
  - right. destruct (indexFrom_found L x 0 ltac:(lia) E) as [n [Hn [Hlt [Hx Hmin]]]].
    rewrite Hn. rewrite HL in Hlt. subst L.
    rewrite nth_rev_firstn in Hx by lia.
    replace (Z.to_nat (k - (0 + Z.of_nat n))) with (Z.to_nat k - n)%nat by lia.
    split; [lia|]. split; [exact Hx|].
    intros j Hj Hxj. apply (Hmin (Z.to_nat (k - j)) ltac:(lia)).
    rewrite nth_rev_firstn by lia.
    replace (Z.to_nat k - Z.to_nat (k - j))%nat with (Z.to_nat j) by lia. exact Hxj.
Qed.

(** At position 0 the sum is the number of code units, exactly. *)
Lemma exceedsLength_from_start (n len : Z) :
  0 <= n < 2 ^ 53 ->
  Wrapper.exceedsLength (ofZ 0) n len = negb (n <=? len).
Proof.
  intro Hn. unfold Wrapper.exceedsLength, ofZ.
  destruct (toBinary64_integer (inject_Z 0 + inject_Z n) n) as [sum [Hsum Heq]];
    [apply Qplus_0_l | exact Hn |].
  rewrite Hsum. f_equal.
  destruct (Z.leb_spec n len) as [H|H].
  - apply Qle_bool_iff. rewrite Heq. rewrite <- Zle_Qle. exact H.
  - destruct (Qle_bool sum (inject_Z len)) eqn:E; [|reflexivity].
    apply Qle_bool_iff in E. rewrite Heq in E. rewrite <- Zle_Qle in E. lia.
Qed.

Lemma character_units (e : jsstring) :
  isCharacter e = true -> 0 <= Z.of_nat (List.length e) < 2 ^ 53.
Proof.
  destruct e as [|a [|b [|c e]]]; cbn [isCharacter List.length]; try discriminate;
    intros _; lia.
Qed.

End LastIndex.

(** X16: a result of [lastIndexOf] other than -1, with the default
    start, is an index below the length; the character there is the search
    string, and no later index holds it. *)
Theorem lastIndexOf_last_occurrence (search : jsstring) (this : Jaco.t) :
  Wrapper.lastIndexOf search PosInfinity this <> -1 ->
  let r := Wrapper.lastIndexOf search PosInfinity this in
  0 <= r < Jaco.length this
  /\ nth (Z.to_nat r) (Jaco._toArray this) [] = search
  /\ forall j, r < j < Jaco.length this -> nth (Z.to_nat j) (Jaco._toArray this) [] <> search.
Proof.
  intros H r. subst r. unfold Wrapper.lastIndexOf, Array_lastIndexOf, Jaco.length in *.
  cbv zeta in *.
  set (len := Z.of_nat (List.length (Jaco._toArray this))) in *.
  destruct (Z.ltb_spec (len - 1) 0) as [Hneg|Hpos]; [congruence|].
  destruct (lastIndex_from (Jaco._toArray this) search (len - 1) ltac:(lia))
    as [[Hr _]|[Hr [Hx Hmax]]]; [congruence|].
  split; [lia|]. split; [exact Hx|]. intros j Hj. apply Hmax. lia.
Qed.

Lemma lastIndexOf_last_occurrence_witness :
  Wrapper.lastIndexOf [0x3042] PosInfinity (Jaco.new [0x3042; 0xD83D; 0xDE00; 0x3042; 0x3044]) = 2
  /\ nth 2 (Jaco._toArray (Jaco.new [0x3042; 0xD83D; 0xDE00; 0x3042; 0x3044])) [] = [0x3042].
Proof.
  split; [reflexivity|].
  apply (lastIndexOf_last_occurrence [0x3042]
           (Jaco.new [0x3042; 0xD83D; 0xDE00; 0x3042; 0x3044])).
  vm_compute. discriminate.
Defined.

(** X17: [endWith] compares one character of the receiver with the search
    string: the one at the end position less the number of code units of
    the search string. For a search string of two code units (a surrogate
    pair) that is the character before the last one. *)
Theorem endWith_character_at (search : jsstring) (position : option number) (this : Jaco.t) :
  let p := Wrapper.endPosition position (Jaco.length this) - Z.of_nat (List.length search) in
  Wrapper.endWith search position this = true
  <-> 0 <= p < Jaco.length this /\ nth (Z.to_nat p) (Jaco._toArray this) [] = search.
Proof.
  intro p. unfold Wrapper.endWith. fold p. cbv zeta.
  unfold Wrapper.lastIndexOf, Array_lastIndexOf, ofZ, Jaco.length in *. cbv zeta.
  rewrite Qtruncate_inject_Z.
  set (a := Jaco._toArray this) in *. set (len := Z.of_nat (List.length a)) in *.
  set (k := if 0 <=? p then Z.min p (len - 1) else len + p).
  destruct (Z.ltb_spec k 0) as [Hneg|Hpos].
  - cbn. split; [discriminate|]. intros [Hp _]. exfalso. subst k.
    destruct (Z.leb_spec 0 p); lia.
  - assert (Hk : 0 <= k < len).
    { subst k. destruct (Z.leb_spec 0 p); [lia|]. subst len. lia. }
    destruct (lastIndex_from a search k Hk) as [[Hr Hnone]|[Hr [Hx Hmax]]].
    + rewrite Hr. cbn. split; [discriminate|]. intros [Hp Hx]. exfalso.
      apply (Hnone p); [|exact Hx]. subst k. destruct (Z.leb_spec 0 p); lia.
    + set (r := match indexFrom (rev (firstn (Z.to_nat (k + 1)) a)) search 0 with
                | -1 => -1
                | j => k - j
                end) in *.
      split.
      * intro H. apply andb_true_iff in H. destruct H as [_ H]. apply Z.eqb_eq in H.
        rewrite <- H. split; [lia | exact Hx].
      * intros [Hp Hxp]. apply andb_true_iff.
        assert (Hkp : k = p) by (subst k; destruct (Z.leb_spec 0 p); lia).
        assert (Hrp : r = p).
        { destruct (Z.eq_dec r p) as [E|E]; [exact E|]. exfalso.
          apply (Hmax p); [lia | exact Hxp]. }
        split; [apply negb_true_iff; apply Z.eqb_neq; lia | apply Z.eqb_eq; exact Hrp].
Qed.

(** X18: [includes] with the default position holds exactly when the search
    string is one of the receiver's characters and has no more code units
    than the receiver has characters. *)
Theorem includes_from_start (search : jsstring) (this : Jaco.t) :
  Wrapper.includes search (ofZ 0) this = true
  <-> Z.of_nat (List.length search) <= Jaco.length this /\ In search (Jaco._toArray this).
Proof.
  assert (Hidx : Jaco.indexOf search (ofZ 0) this
                 = indexFrom (Jaco._toArray this) search 0).
  { unfold Jaco.indexOf, Array_indexOf, ofZ, relativeIndex.
    rewrite Qtruncate_inject_Z. cbv zeta. cbn [Z.ltb Z.compare].
    rewrite Z.min_l by lia. reflexivity. }
  assert (Hunits : In search (Jaco._toArray this) ->
                   Wrapper.exceedsLength (ofZ 0) (Z.of_nat (List.length search))
                     (Jaco.length this)
                   = negb (Z.of_nat (List.length search) <=? Jaco.length this)).
  { intro Hin. apply exceedsLength_from_start. apply character_units.
    exact (toArray_characters (Jaco.str this) search Hin). }
  unfold Wrapper.includes. rewrite Hidx. split.
  - intro H.
    destruct (in_dec (list_eq_dec Z.eq_dec) search (Jaco._toArray this)) as [Hin|Hout].
    + rewrite (Hunits Hin) in H.
      destruct (Z.leb_spec (Z.of_nat (List.length search)) (Jaco.length this)) as [Hle|Hgt];
        [split; assumption | discriminate H].
    + exfalso. rewrite (indexFrom_not_found _ _ 0 Hout) in H.
      destruct (Wrapper.exceedsLength _ _ _); discriminate H.
  - intros [Hle Hin]. rewrite (Hunits Hin).
    apply Z.leb_le in Hle. rewrite Hle. cbn [negb].
    apply negb_true_iff. apply Z.eqb_neq. apply indexFrom_in; [lia | exact Hin].
Qed.

(** ** The size in bytes *)

Section ByteSize.

Import Props.

Lemma utf8_length (cp : Z) : Z.of_nat (List.length (utf8 cp)) = utf8Length cp.
Proof.
  unfold utf8, utf8Length.
  destruct (Z.ltb_spec cp 0x80), (Z.leb_spec cp 0x7F); try lia; [reflexivity|].
  destruct (Z.ltb_spec cp 0x800), (Z.leb_spec cp 0x7FF); try lia; [reflexivity|].
  destruct (Z.ltb_spec cp 0x10000), (Z.leb_spec cp 0xFFFF); try lia; reflexivity.
Qed.

Lemma hexDigit_not_terminator (d : Z) : isLineTerminator (hexDigit (Z.land d 0xF)) = false.
Proof.
  assert (H : 0 <= Z.land d 0xF < 16).
  { change 0xF with (Z.ones 4). rewrite Z.land_ones by lia. apply Z.mod_pos_bound. lia. }
  unfold hexDigit, isLineTerminator.
  destruct (Z.ltb_spec (Z.land d 15) 10);
    repeat (apply orb_false_iff; split); apply Z.eqb_neq; lia.
Qed.

Lemma replaceEscapes_escape (octet : Z) (t : jsstring) :
  Wrapper.replaceEscapes_aux 0 (escape octet ++ t) = 0x78 :: Wrapper.replaceEscapes_aux 0 t.
Proof.
  unfold escape. cbn [app Wrapper.replaceEscapes_aux].
  rewrite !hexDigit_not_terminator. reflexivity.
Qed.

Lemma replaceEscapes_escapes (octets : list Z) (t : jsstring) :
  List.length (Wrapper.replaceEscapes_aux 0 (flat_map escape octets ++ t))
  = (List.length octets + List.length (Wrapper.replaceEscapes_aux 0 t))%nat.
Proof.
  induction octets as [|o octets IH]; [reflexivity|].
  cbn [flat_map]. rewrite <- app_assoc, replaceEscapes_escape.
  cbn [List.length]. rewrite IH. reflexivity.
Qed.

Lemma replaceEscapes_other (c : unit16) (t : jsstring) :
  c <> 0x25 ->
  Wrapper.replaceEscapes_aux 0 (c :: t) = c :: Wrapper.replaceEscapes_aux 0 t.
Proof.
  intro H. apply Z.eqb_neq in H. cbn [Wrapper.replaceEscapes_aux].
  destruct t as [|a [|b t]]; try reflexivity. rewrite H. reflexivity.
Qed.

Lemma isUnreserved_ascii (c : unit16) :
  isUnreserved c = true -> c <> 0x25 /\ isSurrogate c = false /\ utf8Length c = 1.
Proof.
  unfold isUnreserved, isSurrogate, utf8Length.
  cbn [existsb]. intro H.
  assert (Hc : 0x21 <= c <= 0x7E /\ c <> 0x25).
  { repeat (apply orb_true_iff in H; destruct H as [H|H]);
      try (apply andb_true_iff in H; destruct H as [H1 H2];
           apply Z.leb_le in H1; apply Z.leb_le in H2; lia);
      try (apply Z.eqb_eq in H; lia); discriminate. }
  destruct Hc as [Hr Hn]. split; [exact Hn|]. split.
  - apply andb_false_iff. left. apply Z.leb_gt. lia.
  - destruct (Z.leb_spec c 0x7F); [reflexivity | lia].
Qed.

Lemma encodeURIComponent_step (c : unit16) (tl : jsstring) :
  encodeURIComponent (c :: tl)
  = if isUnreserved c then option_map (cons c) (encodeURIComponent tl)
    else if isLowSurrogate c then None
    else if isHighSurrogate c then
      match tl with
      | d :: rest =>
          if isLowSurrogate d
          then option_map (app (flat_map escape (utf8 (surrogatePairToCodePoint c d))))
                 (encodeURIComponent rest)
          else None
      | [] => None
      end
    else option_map (app (flat_map escape (utf8 c))) (encodeURIComponent tl).
Proof. destruct tl; reflexivity. Qed.

(** What [encodeURIComponent] followed by the replacement leaves of a well
    paired string. *)
Lemma encode_well_paired (s : jsstring) :
  Spec.wellPaired s = true ->
  exists encoded,
    encodeURIComponent s = Some encoded
    /\ Z.of_nat (List.length (Wrapper.replaceEscapes_aux 0 encoded))
       = utf8Size (Jaco.toArray_str s).
Proof.
  induction s as [| a | a b l IH1 IH2] using list_pair_ind; intro H.
  - exists []. split; reflexivity.
  - cbn [Spec.wellPaired] in H. apply negb_true_iff in H.
    cbn [Jaco.toArray_str]. rewrite encodeURIComponent_step. rewrite H.
    cbn [encodeURIComponent option_map].
    destruct (isUnreserved a) eqn:Eu.
    + exists [a]. split; [reflexivity|].
      destruct (isUnreserved_ascii a Eu) as [_ [_ Hl]].
      cbn [utf8Size fold_right codePoint Wrapper.replaceEscapes_aux List.length]. lia.
    + rewrite surrogate_cases in H. apply orb_false_iff in H. destruct H as [Hh Hl].
      rewrite Hl, Hh. exists (flat_map escape (utf8 a) ++ []). split; [reflexivity|].
      rewrite replaceEscapes_escapes.
      cbn [utf8Size fold_right codePoint Wrapper.replaceEscapes_aux List.length].
      rewrite <- utf8_length. lia.
  - rewrite wellPaired_step in H. rewrite toArray_str_step.
    rewrite encodeURIComponent_step.
    destruct (isHighSurrogate a && isLowSurrogate b) eqn:Hp.
    + apply andb_true_iff in Hp. destruct Hp as [Hh Hl].
      assert (Hu : isUnreserved a = false).
      { destruct (isUnreserved a) eqn:Eu; [|reflexivity].
        destruct (isUnreserved_ascii a Eu) as [_ [Hs _]].
        rewrite surrogate_cases, Hh in Hs. discriminate. }
      assert (Hal : isLowSurrogate a = false).
      { unfold isHighSurrogate, isLowSurrogate in *.
        apply andb_true_iff in Hh. destruct Hh as [H1 H2].
        apply Z.leb_le in H1. apply Z.leb_le in H2.
        apply andb_false_iff. left. apply Z.leb_gt. lia. }
      rewrite Hu, Hal, Hh, Hl.
      destruct (IH1 H) as [e [He Hn]]. rewrite He. cbn [option_map].
      exists (flat_map escape (utf8 (surrogatePairToCodePoint a b)) ++ e).
      split; [reflexivity|]. rewrite replaceEscapes_escapes.
      cbn [utf8Size fold_right codePoint]. fold (utf8Size (Jaco.toArray_str l)).
      rewrite <- Hn, <- utf8_length. unfold surrogatePairToCodePoint. lia.
    + apply andb_true_iff in H. destruct H as [Hs H]. apply negb_true_iff in Hs.
      rewrite Hs. destruct (IH2 H) as [e [He Hn]].
      destruct (isUnreserved a) eqn:Eu.
      * rewrite He. cbn [option_map]. exists (a :: e). split; [reflexivity|].
        destruct (isUnreserved_ascii a Eu) as [Hn25 [_ Hl]].
        rewrite (replaceEscapes_other a e Hn25).
        cbn [utf8Size fold_right codePoint List.length].
        fold (utf8Size (Jaco.toArray_str (b :: l))). rewrite <- Hn. lia.
      * rewrite surrogate_cases in Hs. apply orb_false_iff in Hs. destruct Hs as [Hh Hl].
        rewrite Hl, Hh, He. cbn [option_map].
        exists (flat_map escape (utf8 a) ++ e). split; [reflexivity|].
        rewrite replaceEscapes_escapes.
        cbn [utf8Size fold_right codePoint].
        fold (utf8Size (Jaco.toArray_str (b :: l))). rewrite <- Hn, <- utf8_length. lia.
Qed.

Lemma encode_lone_surrogate (s : jsstring) :
  Spec.wellPaired s = false -> encodeURIComponent s = None.
Proof.
  assert (Hun : forall a, isSurrogate a = true -> isUnreserved a = false).
  { intros a Ha. destruct (isUnreserved a) eqn:Eu; [|reflexivity].
    destruct (isUnreserved_ascii a Eu) as [_ [Hs _]]. congruence. }
  induction s as [| a | a b l IH1 IH2] using list_pair_ind; intro H.
  - discriminate.
  - cbn [Spec.wellPaired] in H. apply negb_false_iff in H.
    rewrite encodeURIComponent_step, (Hun a H).
    rewrite surrogate_cases in H.
    destruct (isLowSurrogate a); [reflexivity|].
    destruct (isHighSurrogate a); [reflexivity | discriminate].
  - rewrite wellPaired_step in H. rewrite encodeURIComponent_step.
    destruct (isHighSurrogate a && isLowSurrogate b) eqn:Hp.
    + apply andb_true_iff in Hp. destruct Hp as [Hh Hl].
      rewrite (Hun a (high_is_surrogate a Hh)), Hh, Hl, (IH1 H).
      destruct (isLowSurrogate a); reflexivity.
    + destruct (isSurrogate a) eqn:Hs.
      * rewrite (Hun a Hs). rewrite surrogate_cases in Hs.
        destruct (isLowSurrogate a); [reflexivity|].
        destruct (isHighSurrogate a); [|discriminate].
        cbn [andb] in Hp. rewrite Hp. reflexivity.
      * cbn [negb andb] in H. rewrite (IH2 H).
        rewrite surrogate_cases in Hs. apply orb_false_iff in Hs. destruct Hs as [Hh Hl].
        rewrite Hh, Hl. destruct (isUnreserved a); reflexivity.
Qed.

Lemma utf8Size_bounds (s : jsstring) :
  Spec.wellPaired s = true ->
  (forall c, In c s -> c <= 0xFFFF) ->
  Z.of_nat (List.length s) <= utf8Size (Jaco.toArray_str s) <= 3 * Z.of_nat (List.length s).
Proof.
  assert (Hone : forall c, c <= 0xFFFF -> 1 <= utf8Length c <= 3).
  { intros c Hc. unfold utf8Length.
    destruct (Z.leb_spec c 0x7F); [lia|]. destruct (Z.leb_spec c 0x7FF); [lia|].
    destruct (Z.leb_spec c 0xFFFF); lia. }
  induction s as [| a | a b l IH1 IH2] using list_pair_ind; intros H Hu.
  - cbn. lia.
  - cbn [Spec.wellPaired] in H. apply negb_true_iff in H.
    cbn [Jaco.toArray_str]. rewrite H.
    cbn [utf8Size fold_right codePoint List.length].
    specialize (Hone a (Hu a (or_introl eq_refl))). lia.
  - rewrite wellPaired_step in H. rewrite toArray_str_step.
    destruct (isHighSurrogate a && isLowSurrogate b) eqn:Hp.
    + apply andb_true_iff in Hp. destruct Hp as [Hh Hl].
      unfold isHighSurrogate in Hh. unfold isLowSurrogate in Hl.
      apply andb_true_iff in Hh. destruct Hh as [Hh1 Hh2].
      apply andb_true_iff in Hl. destruct Hl as [Hl1 Hl2].
      apply Z.leb_le in Hh1. apply Z.leb_le in Hh2.
      apply Z.leb_le in Hl1. apply Z.leb_le in Hl2.
      cbn [utf8Size fold_right codePoint]. fold (utf8Size (Jaco.toArray_str l)).
      assert (Hfour : utf8Length ((a - 0xD800) * 0x400 + (b - 0xDC00) + 0x10000) = 4).
      { unfold utf8Length.
        destruct (Z.leb_spec ((a - 0xD800) * 0x400 + (b - 0xDC00) + 0x10000) 0x7F); [lia|].
        destruct (Z.leb_spec ((a - 0xD800) * 0x400 + (b - 0xDC00) + 0x10000) 0x7FF); [lia|].
        destruct (Z.leb_spec ((a - 0xD800) * 0x400 + (b - 0xDC00) + 0x10000) 0xFFFF); lia. }
      rewrite Hfour.
      assert (IH := IH1 H (fun c Hc => Hu c (or_intror (or_intror Hc)))).
      cbn [List.length]. lia.
    + apply andb_true_iff in H. destruct H as [Hs H]. apply negb_true_iff in Hs.
      rewrite Hs. cbn [utf8Size fold_right codePoint].
      fold (utf8Size (Jaco.toArray_str (b :: l))).
      assert (IH := IH2 H (fun c Hc => Hu c (or_intror Hc))).
      specialize (Hone a (Hu a (or_introl eq_refl))).
      cbn [List.length] in *. lia.
Qed.

End ByteSize.

(** X19: for a string whose surrogates are all paired, [byteSize] is the
    number of octets of its UTF-8 form: one to four for each character, by
    the size of its code point. *)
Theorem byteSize_utf8 (this : Jaco.t) :
  Spec.wellPaired (Jaco.str this) = true ->
  Wrapper.byteSize this = Some (Props.utf8Size (Jaco._toArray this)).
Proof.
  intro H. unfold Wrapper.byteSize, Jaco._toArray.
  destruct (encode_well_paired (Jaco.str this) H) as [e [He Hn]].
  rewrite He, Hn. reflexivity.
Qed.

Lemma byteSize_utf8_witness :
  Wrapper.byteSize (Jaco.new [0x41; 0x25; 0xE9; 0x3042; 0xD842; 0xDFB7]) = Some 11.
Proof.
  apply (byteSize_utf8 (Jaco.new [0x41; 0x25; 0xE9; 0x3042; 0xD842; 0xDFB7])).
  reflexivity.
Defined.

(** X20: [byteSize] throws, the URIError of [encodeURIComponent], exactly
    when the string holds a surrogate outside a pair. *)
Theorem byteSize_throws (this : Jaco.t) :
  Wrapper.byteSize this = None <-> Spec.wellPaired (Jaco.str this) = false.
Proof.
  unfold Wrapper.byteSize. split.
  - intro H. destruct (Spec.wellPaired (Jaco.str this)) eqn:E; [|reflexivity].
    destruct (encode_well_paired (Jaco.str this) E) as [e [He _]].
    rewrite He in H. discriminate.
  - intro H. rewrite (encode_lone_surrogate (Jaco.str this) H). reflexivity.
Qed.

(** X21: when [byteSize] returns, on a string of 16-bit code units, the
    result lies between [size] and three times [size]. *)
Theorem byteSize_bounds (this : Jaco.t) (n : Z) :
  (forall c, In c (Jaco.str this) -> 0 <= c <= 0xFFFF) ->
  Wrapper.byteSize this = Some n ->
  Jaco.size this <= n <= 3 * Jaco.size this.
Proof.
  intros Hu Hn.
  destruct (Spec.wellPaired (Jaco.str this)) eqn:E.
  - unfold Wrapper.byteSize in Hn.
    destruct (encode_well_paired (Jaco.str this) E) as [e [He Hs]].
    rewrite He in Hn. injection Hn as <-. rewrite Hs. unfold Jaco.size.
    apply utf8Size_bounds; [exact E|]. intros c Hc. specialize (Hu c Hc). lia.
  - unfold Wrapper.byteSize in Hn. rewrite (encode_lone_surrogate _ E) in Hn. discriminate.
Qed.

Lemma byteSize_bounds_witness :
  Jaco.size (Jaco.new [0x41; 0x3042; 0xD842; 0xDFB7]) <= 8
  <= 3 * Jaco.size (Jaco.new [0x41; 0x3042; 0xD842; 0xDFB7]).
Proof.
  apply (byteSize_bounds (Jaco.new [0x41; 0x3042; 0xD842; 0xDFB7]) 8).
  - cbn [Jaco.str In]. intros c Hc.
    repeat (destruct Hc as [<-|Hc]; [lia|]). contradiction.
  - reflexivity.
Defined.

(** ** Hiragana and katakana *)

Section KanaScripts.

Import Props.

Variable HIRAGANA_CHARS KATAKANA_CHARS : jsstring.

Lemma toWideKatakana_without_narrow (s : jsstring) :
  (forall c, In c s -> classMatches NARROW_KATAKANA_CHARS c = false) ->
  Jaco.str (Jaco.toWideKatakana (Jaco.new s)) = s.
Proof.
  intro H. rewrite toWideKatakana_one_pass. cbn [Jaco.str].
  assert (Hfirst : forall c, classMatches NARROW_KATAKANA_CHARS c = false ->
                             memUnit (firstUnits wideKatakanaDigraphs) c = false).
  { intros c Hc. destruct (memUnit (firstUnits wideKatakanaDigraphs) c) eqn:E; [|reflexivity].
    unfold memUnit in E. apply existsb_exists in E. destruct E as [k [Hk E]].
    apply Z.eqb_eq in E. subst k.
    assert (Hall : forallb (classMatches NARROW_KATAKANA_CHARS)
                     (firstUnits wideKatakanaDigraphs) = true) by (vm_compute; reflexivity).
    rewrite forallb_forall in Hall. specialize (Hall _ Hk). congruence. }
  assert (Hpairs : replacePairs wideKatakanaDigraphs s = s).
  { induction s as [|c s IH]; [reflexivity|].
    rewrite (replacePairs_not_first (firstUnits wideKatakanaDigraphs)
               (secondUnits wideKatakanaDigraphs) wideKatakanaDigraphs c s
               (pairTable_entries _ wideKatakanaDigraphs_pairs)
               (Hfirst c (H c (or_introl eq_refl)))).
    rewrite IH; [reflexivity|]. intros d Hd. apply H. right. exact Hd. }
  rewrite Hpairs. rewrite <- (map_id s) at 2. apply map_ext_in. intros c Hc.
  unfold wideOf. apply lookupUnit_not_key. intro Hin.
  assert (Hall : forallb (classMatches NARROW_KATAKANA_CHARS)
                   (map fst (Spec.unitTable wideKatakanaSingles)) = true)
    by (vm_compute; reflexivity).
  rewrite forallb_forall in Hall. specialize (Hall _ Hin). rewrite (H c Hc) in Hall.
  discriminate.
Qed.

Lemma shift_all (body : jsstring) (n : Z) (s : jsstring) :
  (forall c, In c s -> classMatches body c = true) ->
  Jaco.str (Jaco._shift (AnyOf body) n (Jaco.new s)) = map (fun c => fromCharCode (c + n)) s.
Proof.
  intro H. unfold Jaco._shift. cbn [Jaco.str]. rewrite replaceAll_anyOf. cbn [nth].
  induction s as [|c s IH]; [reflexivity|].
  cbn [flat_map map]. rewrite (H c (or_introl eq_refl)). cbn [app].
  rewrite IH; [reflexivity|]. intros d Hd. apply H. right. exact Hd.
Qed.

Lemma pair_without_second (first second : jsstring) (s : jsstring) :
  (forall c, In c s -> classMatches second c = false) ->
  matchesSomewhere (Pair first second) s = false.
Proof.
  induction s as [|c s IH]; intro H; [reflexivity|].
  cbn [matchesSomewhere matchLen]. destruct s as [|d s'].
  - reflexivity.
  - rewrite (H d (or_intror (or_introl eq_refl))), andb_false_r.
    apply IH. intros e He. apply H. right. exact He.
Qed.

Lemma unit_key_absent (k : unit16) (s : jsstring) :
  ~ In k s -> matchesSomewhere (Literal [k]) s = false.
Proof.
  induction s as [|c s IH]; intro H; [reflexivity|].
  cbn [matchesSomewhere matchLen stripPrefix].
  destruct (Z.eqb_spec k c) as [E|E].
  - exfalso. apply H. left. symmetry. exact E.
  - apply IH. intro Hin. apply H. right. exact Hin.
Qed.

End KanaScripts.

(** X22: when the class HIRAGANA_CHARS holds the letters U+3041 to U+3096
    and the class KATAKANA_CHARS the letters U+30A1 to U+30F6, [toKatakana]
    moves a string of such hiragana up by 96, [toHiragana] brings it back,
    and a string of such katakana comes back from [toHiragana] followed by
    [toKatakana]. *)
Theorem kana_script_round_trip (HIRAGANA_CHARS KATAKANA_CHARS : jsstring) (s : jsstring) :
  (forall c, 0x3041 <= c <= 0x3096 -> classMatches HIRAGANA_CHARS c = true) ->
  (forall c, 0x30A1 <= c <= 0x30F6 -> classMatches KATAKANA_CHARS c = true) ->
  ((forall c, In c s -> 0x3041 <= c <= 0x3096) ->
   Jaco.str (Jaco.toKatakana HIRAGANA_CHARS true (Jaco.new s)) = map (fun c => c + 96) s
   /\ Jaco.str (Jaco.toHiragana KATAKANA_CHARS false
                  (Jaco.toKatakana HIRAGANA_CHARS true (Jaco.new s))) = s)
  /\ ((forall c, In c s -> 0x30A1 <= c <= 0x30F6) ->
      Jaco.str (Jaco.toHiragana KATAKANA_CHARS false (Jaco.new s)) = map (fun c => c - 96) s
      /\ Jaco.str (Jaco.toKatakana HIRAGANA_CHARS true
                     (Jaco.toHiragana KATAKANA_CHARS false (Jaco.new s))) = s).
Proof.
  intros Hh Hk.
  assert (Hnarrow : forall t : jsstring,
            (forall c, In c t -> 0x3041 <= c <= 0x30F6) ->
            forall c, In c t -> classMatches NARROW_KATAKANA_CHARS c = false).
  { intros t Ht c Hc. specialize (Ht c Hc). rewrite narrow_katakana_range.
    apply andb_false_iff. left. apply Z.leb_gt. lia. }
  assert (Hup : forall t : jsstring,
            (forall c, In c t -> 0x3041 <= c <= 0x3096) ->
            Jaco.str (Jaco.toKatakana HIRAGANA_CHARS true (Jaco.new t))
            = map (fun c => c + 96) t).
  { intros t Ht. unfold Jaco.toKatakana.
    assert (Hw : Jaco.toWideKatakana (Jaco.new t) = Jaco.new t).
    { pose proof (toWideKatakana_without_narrow t
                    (Hnarrow t (fun c Hc => ltac:(specialize (Ht c Hc); lia)))) as E.
      destruct (Jaco.toWideKatakana (Jaco.new t)) as [w]. cbn [Jaco.str] in E.
      rewrite E. reflexivity. }
    rewrite Hw.
    assert (Hmark : forall c, In c t -> classMatches Jaco.voicedSoundMarks c = false).
    { intros c Hc. specialize (Ht c Hc). unfold Jaco.voicedSoundMarks. cbn [classMatches].
      repeat (apply orb_false_iff; split); try reflexivity; apply Z.eqb_neq; lia. }
    unfold Jaco.replace. cbn [Jaco.str].
    rewrite !(replaceAll_no_match _ _ t) by (apply pair_without_second; exact Hmark).
    rewrite shift_all by (intros c Hc; apply Hh; apply Ht; exact Hc).
    apply map_ext_in. intros c Hc. specialize (Ht c Hc). unfold fromCharCode.
    apply Z.mod_small. lia. }
  assert (Hdown : forall t : jsstring,
            (forall c, In c t -> 0x30A1 <= c <= 0x30F6) ->
            Jaco.str (Jaco.toHiragana KATAKANA_CHARS false (Jaco.new t))
            = map (fun c => c - 96) t).
  { intros t Ht. unfold Jaco.toHiragana.
    assert (Hw : Jaco.toWideKatakana (Jaco.new t) = Jaco.new t).
    { pose proof (toWideKatakana_without_narrow t
                    (Hnarrow t (fun c Hc => ltac:(specialize (Ht c Hc); lia)))) as E.
      destruct (Jaco.toWideKatakana (Jaco.new t)) as [w]. cbn [Jaco.str] in E.
      rewrite E. reflexivity. }
    rewrite Hw. rewrite replaceFromMap_no_match.
    - rewrite shift_all by (intros c Hc; apply Hk; apply Ht; exact Hc).
      apply map_ext_in. intros c Hc. specialize (Ht c Hc). unfold fromCharCode.
      replace (c + -96) with (c - 96) by lia. apply Z.mod_small. lia.
    - unfold Jaco.archaicVoicedTable. cbn [forallb fst].
      rewrite !unit_key_absent; [reflexivity | | | |];
        intro Hin; specialize (Ht _ Hin); lia. }
  assert (Hwrap : forall j : Jaco.t, j = Jaco.new (Jaco.str j)) by (intros [x]; reflexivity).
  split; intro Hs.
  - split; [exact (Hup s Hs)|].
    rewrite (Hwrap (Jaco.toKatakana HIRAGANA_CHARS true (Jaco.new s))), (Hup s Hs).
    rewrite Hdown.
    + rewrite map_map. rewrite <- (map_id s) at 2. apply map_ext. intro c. lia.
    + intros c Hc. apply in_map_iff in Hc. destruct Hc as [c' [<- Hc']].
      specialize (Hs c' Hc'). lia.
  - split; [exact (Hdown s Hs)|].
    rewrite (Hwrap (Jaco.toHiragana KATAKANA_CHARS false (Jaco.new s))), (Hdown s Hs).
    rewrite Hup.
    + rewrite map_map. rewrite <- (map_id s) at 2. apply map_ext. intro c. lia.
    + intros c Hc. apply in_map_iff in Hc. destruct Hc as [c' [<- Hc']].
      specialize (Hs c' Hc'). lia.
Qed.

Lemma kana_script_round_trip_witness :
  Jaco.str (Jaco.toHiragana Const.KATAKANA_CHARS false
              (Jaco.toKatakana Const.HIRAGANA_CHARS true (Jaco.new [0x3042; 0x304C; 0x3093])))
  = [0x3042; 0x304C; 0x3093]
  /\ Jaco.str (Jaco.toKatakana Const.HIRAGANA_CHARS true
                 (Jaco.toHiragana Const.KATAKANA_CHARS false (Jaco.new [0x30A2; 0x30AC; 0x30F3])))
     = [0x30A2; 0x30AC; 0x30F3].
Proof.
  assert (Hh : forall c, 0x3041 <= c <= 0x3096 -> classMatches Const.HIRAGANA_CHARS c = true).
  { intros c Hc. unfold Const.HIRAGANA_CHARS. cbn [classMatches Z.eqb Pos.eqb].
    apply orb_true_iff. left. apply andb_true_iff. split; apply Z.leb_le; lia. }
  assert (Hk : forall c, 0x30A1 <= c <= 0x30F6 -> classMatches Const.KATAKANA_CHARS c = true).
  { intros c Hc. unfold Const.KATAKANA_CHARS. cbn [classMatches Z.eqb Pos.eqb].
    apply orb_true_iff. left. apply andb_true_iff. split; apply Z.leb_le; lia. }
  split.
  - apply (proj1 (kana_script_round_trip Const.HIRAGANA_CHARS Const.KATAKANA_CHARS
                    [0x3042; 0x304C; 0x3093] Hh Hk)).
    cbn [In]. intros c Hc. repeat (destruct Hc as [<-|Hc]; [lia|]). contradiction.
  - apply (proj2 (kana_script_round_trip Const.HIRAGANA_CHARS Const.KATAKANA_CHARS
                    [0x30A2; 0x30AC; 0x30F3] Hh Hk)).
    cbn [In]. intros c Hc. repeat (destruct Hc as [<-|Hc]; [lia|]). contradiction.
Defined.

(** ** trim *)

Section Trim.


Lemma trim_aux_skip (n : nat) (s : jsstring) :
  Wrapper.trim_aux false n s = Wrapper.trim_aux false O (skipn n s).
Proof.
  revert s. induction n as [|n IH]; intro s; [reflexivity|].
  destruct s as [|c tl]; [reflexivity|]. cbn [Wrapper.trim_aux skipn]. apply IH.
Qed.

(** After the start: the rest is kept up to its trailing white space. *)
Lemma trim_aux_tail (s : jsstring) :
  Wrapper.trim_aux false O s
  = match s with
    | [] => []
    | c :: tl => if forallb isWhiteSpace s then [] else c :: Wrapper.trim_aux false O tl
    end.
Proof.
  destruct s as [|c tl]; [reflexivity|].
  cbn [Wrapper.trim_aux]. unfold Wrapper.matchTrim.
  destruct (forallb isWhiteSpace (c :: tl)) eqn:E; [|reflexivity].
  cbn [List.length]. rewrite trim_aux_skip, skipn_all. reflexivity.
Qed.

Lemma trim_aux_tail_spec (s : jsstring) :
  exists trail,
    s = Wrapper.trim_aux false O s ++ trail
    /\ forallb isWhiteSpace trail = true
    /\ (forall front c, Wrapper.trim_aux false O s = front ++ [c] -> isWhiteSpace c = false)
    /\ (forall c tl, s = c :: tl -> isWhiteSpace c = false ->
                     exists tl', Wrapper.trim_aux false O s = c :: tl').
Proof.
  induction s as [|c tl IH].
  - exists []. repeat split; try reflexivity.
    + intros [|? ?] c H; discriminate.
    + intros c tl H; discriminate.
  - rewrite trim_aux_tail. destruct (forallb isWhiteSpace (c :: tl)) eqn:E.
    + exists (c :: tl). repeat split; try assumption.
      * intros [|? ?] d H; discriminate.
      * intros d tl' H Hd. injection H as <- <-. cbn [forallb] in E.
        rewrite Hd in E. discriminate.
    + destruct IH as [trail [Hs [Htrail [Hlast Hfirst]]]].
      exists trail. split; [cbn [app]; rewrite <- Hs; reflexivity|].
      split; [exact Htrail|]. split.
      * intros front d H. destruct front as [|f front].
        -- cbn [app] in H. injection H as <- Hnil.
           destruct (isWhiteSpace c) eqn:Ec; [|reflexivity].
           exfalso. rewrite Hnil in Hs. cbn [app] in Hs. subst tl.
           cbn [forallb] in E. rewrite Ec, Htrail in E. discriminate.
        -- cbn [app] in H. injection H as _ H. exact (Hlast front d H).
      * intros d tl' H _. injection H as <- <-. eexists. reflexivity.
Qed.

Lemma spaceRun_split (s : jsstring) :
  forallb isWhiteSpace (firstn (Wrapper.spaceRun s) s) = true
  /\ (forall c tl, skipn (Wrapper.spaceRun s) s = c :: tl -> isWhiteSpace c = false).
Proof.
  induction s as [|c tl IH]; [split; [reflexivity | intros ? ? H; discriminate]|].
  cbn [Wrapper.spaceRun]. destruct (isWhiteSpace c) eqn:E.
  - cbn [firstn skipn forallb]. rewrite E. exact IH.
  - cbn [firstn skipn forallb]. split; [reflexivity|].
    intros d tl' H. injection H as <- <-. exact E.
Qed.

(** The whole scan: the leading run goes, then the trailing one. *)
Lemma trim_aux_start (s : jsstring) :
  Wrapper.trim_aux true O s = Wrapper.trim_aux false O (skipn (Wrapper.spaceRun s) s).
Proof.
  destruct s as [|c tl]; [reflexivity|].
  cbn [Wrapper.trim_aux]. unfold Wrapper.matchTrim.
  destruct (Wrapper.spaceRun (c :: tl)) as [|n] eqn:E.
  - cbn [skipn]. rewrite (trim_aux_tail (c :: tl)).
    cbn [Wrapper.spaceRun] in E. destruct (isWhiteSpace c) eqn:Ec; [discriminate|].
    cbn [forallb]. rewrite Ec. reflexivity.
  - rewrite trim_aux_skip. reflexivity.
Qed.

(** The ends of the scan's result. *)
Lemma trim_aux_ends (s : jsstring) :
  exists lead trail,
    s = lead ++ Wrapper.trim_aux true O s ++ trail
    /\ forallb isWhiteSpace lead = true
    /\ forallb isWhiteSpace trail = true
    /\ (forall c tl, Wrapper.trim_aux true O s = c :: tl -> isWhiteSpace c = false)
    /\ (forall front c, Wrapper.trim_aux true O s = front ++ [c] -> isWhiteSpace c = false).
Proof.
  rewrite trim_aux_start.
  set (rest := skipn (Wrapper.spaceRun s) s).
  destruct (spaceRun_split s) as [Hlead Hrest]. fold rest in Hrest.
  destruct (trim_aux_tail_spec rest) as [trail [Hs [Htrail [Hlast Hfirst]]]].
  exists (firstn (Wrapper.spaceRun s) s), trail.
  split; [rewrite <- Hs; subst rest; symmetry; apply firstn_skipn|].
  split; [exact Hlead|]. split; [exact Htrail|]. split; [|exact Hlast].
  intros c tl H. destruct rest as [|r rest'] eqn:Er.
  - rewrite trim_aux_tail in H. discriminate.
  - pose proof (Hrest r rest' eq_refl) as Hr.
    destruct (Hfirst r rest' eq_refl Hr) as [tl' Htl]. rewrite Htl in H.
    injection H as <- _. exact Hr.
Qed.

End Trim.

(** X23: [trim] removes a run of white space at the start and one at the
    end and nothing else: the string is the run, the result and the run,
    and the result neither begins nor ends with white space. *)
Theorem trim_strips_both_ends (this : Jaco.t) :
  exists lead trail,
    Jaco.str this = lead ++ Jaco.str (Wrapper.trim this) ++ trail
    /\ forallb JS.isWhiteSpace lead = true
    /\ forallb JS.isWhiteSpace trail = true
    /\ (forall c tl, Jaco.str (Wrapper.trim this) = c :: tl -> JS.isWhiteSpace c = false)
    /\ (forall front c, Jaco.str (Wrapper.trim this) = front ++ [c] ->
                        JS.isWhiteSpace c = false).
Proof. unfold Wrapper.trim. cbn [Jaco.str]. apply trim_aux_ends. Qed.

(** X24: [trim] applied to its result changes nothing. *)
Theorem trim_idempotent (this : Jaco.t) :
  Wrapper.trim (Wrapper.trim this) = Wrapper.trim this.
Proof.
  destruct (trim_aux_ends (Jaco.str this)) as [lead [trail [_ [_ [_ [Hfirst Hlast]]]]]].
  unfold Wrapper.trim. cbn [Jaco.str]. f_equal.
  set (r := Wrapper.trim_aux true 0 (Jaco.str this)) in *.
  rewrite trim_aux_start.
  assert (Hrun : Wrapper.spaceRun r = O).
  { destruct r as [|c tl]; [reflexivity|]. cbn [Wrapper.spaceRun].
    rewrite (Hfirst c tl eq_refl). reflexivity. }
  rewrite Hrun. cbn [skipn].
  assert (Hgen : forall u : jsstring,
            (forall front c, u = front ++ [c] -> JS.isWhiteSpace c = false) ->
            Wrapper.trim_aux false 0 u = u).
  { induction u as [|c u IH]; intro Hu; [reflexivity|].
    rewrite trim_aux_tail.
    assert (Hns : forallb JS.isWhiteSpace (c :: u) = false).
    { destruct (exists_last (l := c :: u) ltac:(discriminate)) as [front [d Hd]].
      rewrite Hd, forallb_app. cbn [forallb]. rewrite (Hu front d Hd).
      apply andb_false_r. }
    rewrite Hns. f_equal. destruct u as [|d u']; [reflexivity|].
    apply IH. intros front e He. apply (Hu (c :: front) e). rewrite He. reflexivity. }
  apply Hgen. exact Hlast.
Qed.

(** ** Numbers *)

Section Numeric.

Import Wrapper Props.

Lemma remove_unit (k : unit16) (this : Jaco.t) :
  Jaco.str (Jaco.remove (Literal [k]) this)
  = filter (fun c : unit16 => negb (c =? k)) (Jaco.str this).
Proof.
  unfold Jaco.remove, Jaco.replace. cbn [Jaco.str]. rewrite replaceAll_unit_str.
  induction (Jaco.str this) as [|c s IH]; [reflexivity|].
  cbn [flat_map filter]. rewrite IH. destruct (c =? k); reflexivity.
Qed.

Lemma removeNoneOf_units (this : Jaco.t) :
  Jaco.str (removeNoneOf numericUnits this)
  = filter (fun c : unit16 => isDigit c || (c =? 0x2E) || (c =? 0x2D)) (Jaco.str this).
Proof.
  unfold removeNoneOf. cbn [Jaco.str].
  induction (Jaco.str this) as [|c s IH]; [reflexivity|].
  cbn [flat_map filter]. rewrite IH.
  assert (E : classMatches numericUnits c = isDigit c || (c =? 0x2E) || (c =? 0x2D)).
  { unfold numericUnits, isDigit. cbn [classMatches Z.eqb Pos.eqb].
    rewrite orb_false_r, orb_assoc. reflexivity. }
  rewrite E. destruct (isDigit c || (c =? 0x2E) || (c =? 0x2D)); reflexivity.
Qed.

Lemma digit_codes (c : unit16) :
  isDigit c = true -> c <> 0x2D /\ c <> 0x2E /\ c <> 0x5F /\ c <> 0x6E.
Proof.
  unfold isDigit. intro H. apply andb_true_iff in H. destruct H as [H1 H2].
  apply Z.leb_le in H1. apply Z.leb_le in H2. lia.
Qed.

Lemma replaceFirstUnit_absent (k v : unit16) (s : jsstring) :
  ~ In k s -> replaceFirstUnit k v s = s.
Proof.
  induction s as [|c s IH]; intro H; [reflexivity|].
  cbn [replaceFirstUnit]. destruct (Z.eqb_spec c k) as [E|E].
  - exfalso. apply H. left. exact E.
  - rewrite IH; [reflexivity|]. intro Hin. apply H. right. exact Hin.
Qed.

Lemma filter_digits_of_numeric (s : jsstring) :
  filter isDigit (filter (fun c : unit16 => isDigit c || (c =? 0x2E) || (c =? 0x2D)) s)
  = filter isDigit s.
Proof.
  induction s as [|c s IH]; [reflexivity|].
  cbn [filter]. destruct (isDigit c) eqn:E; cbn [orb filter].
  - rewrite E, IH. reflexivity.
  - destruct ((c =? 0x2E) || (c =? 0x2D)); cbn [filter]; rewrite ?E; exact IH.
Qed.

(** The sign: what the three steps for the hyphens leave. *)
Lemma hyphen_steps (negative : bool) (a : jsstring) :
  forallb (fun c : unit16 => isDigit c || (c =? 0x2E) || (c =? 0x2D)) a = true ->
  let b0 := if negative then replaceAtStart 0x2D 0x6E a else a in
  let b1 := filter (fun c : unit16 => negb (c =? 0x2D)) b0 in
  let b2 := if negative then replaceFirstUnit 0x6E 0x2D b1 else b1 in
  exists sign t,
    b2 = sign ++ t
    /\ (sign = [] \/ (sign = [0x2D] /\ negative = true))
    /\ forallb dotOrDigit t = true
    /\ filter isDigit t = filter isDigit a.
Proof.
  intros Ha b0 b1 b2.
  assert (Hfilter : forall u : jsstring,
            forallb (fun c : unit16 => isDigit c || (c =? 0x2E) || (c =? 0x2D)) u = true ->
            forallb dotOrDigit (filter (fun c : unit16 => negb (c =? 0x2D)) u) = true
            /\ filter isDigit (filter (fun c : unit16 => negb (c =? 0x2D)) u) = filter isDigit u
            /\ ~ In 0x6E (filter (fun c : unit16 => negb (c =? 0x2D)) u)).
  { induction u as [|c u IH]; intro Hu; [repeat split; intros []|].
    cbn [forallb] in Hu. apply andb_true_iff in Hu. destruct Hu as [Hc Hu].
    destruct (IH Hu) as [I1 [I2 I3]]. cbn [filter].
    destruct (Z.eqb_spec c 0x2D) as [E|E]; cbn [negb].
    - subst c. cbn [isDigit]. change (isDigit 45) with false. cbv iota.
      repeat split; assumption.
    - cbn [forallb filter]. unfold dotOrDigit at 1.
      assert (Hd : isDigit c || (c =? 0x2E) = true).
      { apply orb_true_iff in Hc. destruct Hc as [Hc|Hc]; [exact Hc | discriminate]. }
      rewrite Hd, I1. split; [reflexivity|]. split.
      + destruct (isDigit c); [rewrite I2; reflexivity | exact I2].
      + intros [Hn|Hn]; [|exact (I3 Hn)]. subst c.
        vm_compute in Hd. discriminate. }
  subst b2 b1 b0.
  destruct negative.
  - destruct a as [|c a'].
    + exists [], []. repeat split; try reflexivity. left. reflexivity.
    + cbn [replaceAtStart]. destruct (Z.eqb_spec c 0x2D) as [E|E].
      * subst c. cbn [forallb] in Ha. apply andb_true_iff in Ha. destruct Ha as [_ Ha].
        destruct (Hfilter a' Ha) as [I1 [I2 I3]].
        cbn [filter Z.eqb Pos.eqb negb replaceFirstUnit].
        exists [0x2D], (filter (fun c : unit16 => negb (c =? 0x2D)) a').
        split; [reflexivity|]. split; [right; split; reflexivity|].
        split; [exact I1|]. rewrite I2. reflexivity.
      * destruct (Hfilter (c :: a') Ha) as [I1 [I2 I3]].
        rewrite (replaceFirstUnit_absent _ _ _ I3).
        exists [], (filter (fun c0 : unit16 => negb (c0 =? 0x2D)) (c :: a')).
        split; [reflexivity|]. split; [left; reflexivity|]. split; assumption.
  - destruct (Hfilter a Ha) as [I1 [I2 I3]].
    exists [], (filter (fun c : unit16 => negb (c =? 0x2D)) a).
    split; [reflexivity|]. split; [left; reflexivity|]. split; assumption.
Qed.

Lemma filter_dots (t : jsstring) :
  forallb dotOrDigit t = true ->
  filter (fun c : unit16 => negb (c =? 0x2E)) t = filter isDigit t.
Proof.
  induction t as [|c t IH]; intro H; [reflexivity|].
  cbn [forallb] in H. apply andb_true_iff in H. destruct H as [Hc Ht].
  cbn [filter]. rewrite (IH Ht). unfold dotOrDigit in Hc.
  destruct (Z.eqb_spec c 0x2E) as [E|E].
  - subst c. reflexivity.
  - rewrite orb_false_r in Hc. rewrite Hc. reflexivity.
Qed.

Lemma filter_digits_all (t : jsstring) : forallb isDigit (filter isDigit t) = true.
Proof.
  induction t as [|c t IH]; [reflexivity|].
  cbn [filter]. destruct (isDigit c) eqn:E; [cbn [forallb]; rewrite E, IH; reflexivity | exact IH].
Qed.

Lemma replaceFirstDotDigit_step (c d : unit16) (tl : jsstring) :
  replaceFirstDotDigit (c :: d :: tl)
  = if (c =? 0x2E) && isDigit d then 0x5F :: d :: tl
    else c :: replaceFirstDotDigit (d :: tl).
Proof. reflexivity. Qed.

Lemma filter_digits_of_digits (l : jsstring) :
  forallb isDigit l = true -> filter isDigit l = l.
Proof.
  induction l as [|c l IH]; intro H; [reflexivity|].
  cbn [forallb] in H. apply andb_true_iff in H. destruct H as [Hc Hl].
  cbn [filter]. rewrite Hc, (IH Hl). reflexivity.
Qed.

(** The dot: what the three steps for the dots leave of a string of digits
    and dots. *)
Lemma dot_steps (t : jsstring) :
  forallb dotOrDigit t = true ->
  let g := replaceFirstUnit 0x5F 0x2E
             (filter (fun c : unit16 => negb (c =? 0x2E)) (replaceFirstDotDigit t)) in
  g = filter isDigit t
  \/ exists d1 d2,
       g = d1 ++ 0x2E :: d2
       /\ forallb isDigit d1 = true /\ forallb isDigit d2 = true /\ d2 <> []
       /\ filter isDigit t = d1 ++ d2.
Proof.
  induction t as [|c tl IH]; intros H g; [left; reflexivity|].
  cbn [forallb] in H. apply andb_true_iff in H. destruct H as [Hc Htl].
  specialize (IH Htl). cbv zeta in IH. subst g.
  destruct tl as [|d tl'].
  - left. cbn [replaceFirstDotDigit filter]. unfold dotOrDigit in Hc.
    destruct (Z.eqb_spec c 0x2E) as [E|E]; cbn [negb replaceFirstUnit].
    + subst c. reflexivity.
    + rewrite orb_false_r in Hc. rewrite Hc.
      destruct (digit_codes c Hc) as [_ [_ [H5 _]]]. apply Z.eqb_neq in H5.
      rewrite H5. reflexivity.
  - rewrite replaceFirstDotDigit_step.
    destruct ((c =? 0x2E) && isDigit d) eqn:E.
    + apply andb_true_iff in E. destruct E as [Ec Ed]. apply Z.eqb_eq in Ec. subst c.
      right. exists [], (filter isDigit (d :: tl')).
      set (rest := d :: tl') in *.
      cbn [filter Z.eqb Pos.eqb negb replaceFirstUnit app].
      rewrite (filter_dots rest Htl).
      split; [reflexivity|]. split; [reflexivity|].
      split; [apply filter_digits_all|]. split; [|reflexivity].
      subst rest. cbn [filter]. rewrite Ed. discriminate.
    + unfold dotOrDigit in Hc. destruct (Z.eqb_spec c 0x2E) as [Ec|Ec].
      * subst c. set (tl := d :: tl') in *. cbn [filter Z.eqb Pos.eqb negb].
        change (isDigit 46) with false. cbv iota. exact IH.
      * rewrite orb_false_r in Hc.
        destruct (digit_codes c Hc) as [_ [_ [H5 _]]]. apply Z.eqb_neq in H5.
        set (tl := d :: tl') in *.
        set (rest := replaceFirstDotDigit tl) in *.
        cbn [filter]. apply Z.eqb_neq in Ec. rewrite Ec. cbn [negb replaceFirstUnit].
        rewrite H5, Hc.
        destruct IH as [IH | [d1 [d2 [Hg [H1 [H2 [Hne Hf]]]]]]].
        -- left. rewrite IH. reflexivity.
        -- right. exists (c :: d1), d2. rewrite Hg, Hf. cbn [forallb app].
           rewrite Hc, H1. repeat split; assumption.
Qed.

Lemma digitsToEnd_digits (d : jsstring) :
  forallb isDigit d = true -> digitsToEnd d = existsb isDigit d.
Proof.
  destruct d as [|c d]; [reflexivity|]. intro H. cbn [digitsToEnd]. rewrite H.
  cbn [forallb] in H. apply andb_true_iff in H. cbn [existsb]. rewrite (proj1 H). reflexivity.
Qed.

Lemma fractionToEnd_split (d1 d2 : jsstring) :
  forallb isDigit d1 = true -> forallb isDigit d2 = true -> d2 <> [] ->
  fractionToEnd (d1 ++ 0x2E :: d2) = true.
Proof.
  intros H1 H2 Hne. unfold fractionToEnd. apply existsb_exists.
  exists (List.length d1). split.
  - apply in_seq. rewrite length_app. cbn [List.length]. lia.
  - rewrite firstn_app, Nat.sub_diag, firstn_all. cbn [firstn]. rewrite app_nil_r, H1.
    rewrite skipn_app, Nat.sub_diag, skipn_all. cbn [skipn app Z.eqb Pos.eqb andb].
    destruct d2 as [|c d2]; [congruence|]. exact H2.
Qed.

Lemma existsb_digits_filter (t : jsstring) :
  existsb isDigit (filter isDigit t) = existsb isDigit t.
Proof.
  induction t as [|c t IH]; [reflexivity|].
  cbn [filter existsb]. destruct (isDigit c) eqn:E; [cbn [existsb]; rewrite E; reflexivity|].
  exact IH.
Qed.

(** What the steps after the narrowing make of a string. *)
Lemma numeric_steps (negative floatingPoint : bool) (n : jsstring) :
  let a := filter (fun c : unit16 => isDigit c || (c =? 0x2E) || (c =? 0x2D)) n in
  let b0 := if negative then replaceAtStart 0x2D 0x6E a else a in
  let b1 := filter (fun c : unit16 => negb (c =? 0x2D)) b0 in
  let b2 := if negative then replaceFirstUnit 0x6E 0x2D b1 else b1 in
  let c0 := if floatingPoint then replaceFirstDotDigit b2 else b2 in
  let c1 := filter (fun c : unit16 => negb (c =? 0x2E)) c0 in
  let r := if floatingPoint then replaceFirstUnit 0x5F 0x2E c1 else c1 in
  filter isDigit r = filter isDigit n
  /\ isNumeric negative floatingPoint (Jaco.new r) = existsb isDigit r.
Proof.
  intros a b0 b1 b2 c0 c1 r.
  assert (Ha : forallb (fun c : unit16 => isDigit c || (c =? 0x2E) || (c =? 0x2D)) a = true).
  { subst a. apply forallb_forall. intros c Hc. apply filter_In in Hc. exact (proj2 Hc). }
  destruct (hyphen_steps negative a Ha) as [sign [t [Hb [Hsign [Ht Hdigits]]]]].
  cbv zeta in Hb. fold b0 in Hb. fold b1 in Hb. fold b2 in Hb.
  assert (Hn : filter isDigit t = filter isDigit n).
  { rewrite Hdigits. subst a. apply filter_digits_of_numeric. }
  (* the part after the sign *)
  set (g := if floatingPoint
            then replaceFirstUnit 0x5F 0x2E
                   (filter (fun c : unit16 => negb (c =? 0x2E)) (replaceFirstDotDigit t))
            else filter (fun c : unit16 => negb (c =? 0x2E)) t).
  assert (Hr : r = sign ++ g).
  { subst r c1 c0 g. rewrite Hb. destruct Hsign as [->|[-> _]].
    - destruct floatingPoint; reflexivity.
    - destruct floatingPoint; [|reflexivity].
      cbn [app]. destruct t as [|d t']; reflexivity. }
  assert (Hg : filter isDigit g = filter isDigit t
               /\ numberToEnd floatingPoint g = existsb isDigit g
               /\ (existsb isDigit g = false -> g = [])).
  { subst g. destruct floatingPoint.
    - destruct (dot_steps t Ht) as [E | [d1 [d2 [E [H1 [H2 [Hne Hf]]]]]]];
        cbv zeta in E; rewrite E.
      + pose proof (filter_digits_all t) as Hall.
        split; [|split].
        * apply filter_digits_of_digits. exact Hall.
        * unfold numberToEnd. rewrite (digitsToEnd_digits _ Hall).
          destruct (existsb isDigit (filter isDigit t)) eqn:Ex; [apply orb_true_r|].
          destruct (filter isDigit t) as [|c ft] eqn:Ef; [reflexivity|].
          cbn [forallb] in Hall. apply andb_true_iff in Hall.
          cbn [existsb] in Ex. rewrite (proj1 Hall) in Ex. discriminate.
        * intro Ex. destruct (filter isDigit t) as [|c ft] eqn:Ef; [reflexivity|].
          cbn [forallb] in Hall. apply andb_true_iff in Hall.
          cbn [existsb] in Ex. rewrite (proj1 Hall) in Ex. discriminate.
      + assert (Hex : existsb isDigit (d1 ++ 0x2E :: d2) = true).
        { rewrite existsb_app. cbn [existsb]. destruct d2 as [|c d2]; [congruence|].
          cbn [forallb] in H2. apply andb_true_iff in H2. cbn [existsb].
          rewrite (proj1 H2). rewrite !orb_true_r. reflexivity. }
        split; [|split].
        * rewrite Hf, filter_app. cbn [filter]. change (isDigit 46) with false. cbv iota.
          rewrite <- filter_app.
          assert (Hall : forallb isDigit (d1 ++ d2) = true)
            by (rewrite forallb_app; apply andb_true_iff; split; assumption).
          apply filter_digits_of_digits. exact Hall.
        * rewrite Hex. unfold numberToEnd. apply orb_true_iff. left. cbn [andb].
          apply fractionToEnd_split; assumption.
        * rewrite Hex. discriminate.
    - rewrite (filter_dots t Ht). pose proof (filter_digits_all t) as Hall.
      split; [|split].
      + apply filter_digits_of_digits. exact Hall.
      + unfold numberToEnd. cbn [andb orb]. apply digitsToEnd_digits. exact Hall.
      + intro Ex. destruct (filter isDigit t) as [|c ft] eqn:Ef; [reflexivity|].
        cbn [forallb] in Hall. apply andb_true_iff in Hall.
        cbn [existsb] in Ex. rewrite (proj1 Hall) in Ex. discriminate. }
  destruct Hg as [Hg1 [Hg2 Hg3]]. rewrite Hr.
  destruct Hsign as [->|[-> ->]]; cbn [app].
  - split; [rewrite Hg1; exact Hn|].
    unfold isNumeric. cbn [Jaco.str]. rewrite Hg2.
    destruct (existsb isDigit g) eqn:Ex; [apply orb_true_r|].
    rewrite (Hg3 eq_refl). destruct negative; reflexivity.
  - split; [cbn [filter]; change (isDigit 45) with false; cbv iota; rewrite Hg1; exact Hn|].
    unfold isNumeric. cbn [Jaco.str andb Z.eqb Pos.eqb existsb].
    change (isDigit 45) with false. cbn [orb]. rewrite Hg2.
    destruct (existsb isDigit g) eqn:Ex; [reflexivity|].
    rewrite (Hg3 eq_refl). destruct floatingPoint; reflexivity.
Qed.

End Numeric.

(** X25: [toNumeric] keeps the digits of the narrowed string, in order, and
    its result passes [isNumeric] with the same flags exactly when it holds
    a digit. *)
Theorem toNumeric_is_numeric
  (SPACE_CHARS FULLWIDTH_ALPHANUMERIC_CHARS_WITH_SIGN HIRAGANA_CHARS : jsstring)
  (negative floatingPoint : bool) (this : Jaco.t) :
  let narrowed :=
    Wrapper.toNarrow SPACE_CHARS FULLWIDTH_ALPHANUMERIC_CHARS_WITH_SIGN HIRAGANA_CHARS
      false this in
  let result :=
    Wrapper.toNumeric SPACE_CHARS FULLWIDTH_ALPHANUMERIC_CHARS_WITH_SIGN HIRAGANA_CHARS
      negative floatingPoint this in
  filter Wrapper.isDigit (Jaco.str result) = filter Wrapper.isDigit (Jaco.str narrowed)
  /\ Wrapper.isNumeric negative floatingPoint result
     = existsb Wrapper.isDigit (Jaco.str result).
Proof.
  intros narrowed result.
  pose proof (numeric_steps negative floatingPoint (Jaco.str narrowed)) as H.
  cbv zeta in H.
  assert (E : result
              = Jaco.new
                  (let a := filter (fun c : unit16 =>
                                      Wrapper.isDigit c || (c =? 0x2E) || (c =? 0x2D))
                              (Jaco.str narrowed) in
                   let b0 := if negative then Wrapper.replaceAtStart 0x2D 0x6E a else a in
                   let b1 := filter (fun c : unit16 => negb (c =? 0x2D)) b0 in
                   let b2 := if negative then Wrapper.replaceFirstUnit 0x6E 0x2D b1 else b1 in
                   let c0 := if floatingPoint then Wrapper.replaceFirstDotDigit b2 else b2 in
                   let c1 := filter (fun c : unit16 => negb (c =? 0x2E)) c0 in
                   if floatingPoint then Wrapper.replaceFirstUnit 0x5F 0x2E c1 else c1)).
  { subst result. unfold Wrapper.toNumeric. fold narrowed. cbv zeta.
    assert (Hwrap : forall j : Jaco.t, j = Jaco.new (Jaco.str j)) by (intros [x]; reflexivity).
    destruct negative, floatingPoint; cbn [Jaco.str];
      repeat first [ rewrite remove_unit | rewrite removeNoneOf_units | progress cbn [Jaco.str] ];
      try reflexivity; rewrite (Hwrap (Jaco.remove _ _)); rewrite !remove_unit;
      cbn [Jaco.str]; rewrite ?removeNoneOf_units; reflexivity. }
  rewrite E. cbn [Jaco.str]. exact H.
Qed.

(** ** The prolonged sound mark: when the loop ends *)

Section ProlongedPasses.

Import Jaco Props.

(** One replacement of [conv]: a class that does not hold the mark, and a
    kana that is not the mark. *)
Variable row : jsstring * unit16.
Hypothesis mark_not_in_class : classMatches (fst row) prolongedSoundMark = false.
Hypothesis kana_not_mark : snd row <> prolongedSoundMark.

Lemma prolongedPass_step (c d : unit16) (rest : jsstring) :
  prolongedPass row (c :: d :: rest)
  = if classMatches (fst row) c && (d =? prolongedSoundMark)
    then c :: snd row :: prolongedPass row rest
    else c :: prolongedPass row (d :: rest).
Proof.
  unfold prolongedPass, replaceAll.
  cbn [replaceAll_aux matchLen classMatches]. rewrite orb_false_r.
  destruct (classMatches (fst row) c && (d =? prolongedSoundMark)); reflexivity.
Qed.

Lemma prolongedPass_one (c : unit16) : prolongedPass row [c] = [c].
Proof. reflexivity. Qed.

Lemma countMarks_cons (c : unit16) (s : jsstring) :
  countMarks (c :: s) = ((if (c =? prolongedSoundMark)%Z then 1 else 0) + countMarks s)%nat.
Proof. unfold countMarks. cbn [filter]. destruct (c =? prolongedSoundMark); reflexivity. Qed.

Lemma class_member_not_mark (c : unit16) :
  classMatches (fst row) c = true -> (c =? prolongedSoundMark) = false.
Proof.
  intro H. destruct (Z.eqb_spec c prolongedSoundMark) as [E|E]; [|reflexivity].
  subst c. congruence.
Qed.

(** A pass never adds a mark, and takes one away where it matches. *)
Lemma prolongedPass_marks (s : jsstring) :
  (countMarks (prolongedPass row s) <= countMarks s)%nat
  /\ (matchesSomewhere (Pair (fst row) [prolongedSoundMark]) s = true ->
      (countMarks (prolongedPass row s) < countMarks s)%nat).
Proof.
  induction s as [| c | c d rest IH1 IH2] using list_pair_ind.
  - split; [cbn; lia | discriminate].
  - rewrite prolongedPass_one. split; [lia|]. cbn. discriminate.
  - rewrite prolongedPass_step.
    assert (Hm : matchesSomewhere (Pair (fst row) [prolongedSoundMark]) (c :: d :: rest)
                 = (classMatches (fst row) c && (d =? prolongedSoundMark))
                   || matchesSomewhere (Pair (fst row) [prolongedSoundMark]) (d :: rest)).
    { cbn [matchesSomewhere matchLen classMatches]. rewrite orb_false_r.
      destruct (classMatches (fst row) c && (d =? prolongedSoundMark)); reflexivity. }
    rewrite Hm. destruct (classMatches (fst row) c && (d =? prolongedSoundMark)) eqn:E.
    + apply andb_true_iff in E. destruct E as [Hc Hd].
      rewrite !countMarks_cons, (class_member_not_mark c Hc), Hd.
      assert (Hv : (snd row =? prolongedSoundMark) = false)
        by (apply Z.eqb_neq; exact kana_not_mark).
      rewrite Hv. destruct IH1 as [IH1 _]. split; [lia|]. intros _. lia.
    + rewrite !(countMarks_cons c). destruct IH2 as [IH2 IH2']. split; [lia|].
      cbn [orb]. intro H. specialize (IH2' H). lia.
Qed.

(** The units of a pass: those of the string and the kana. *)
Lemma prolongedPass_units (s : jsstring) (u : unit16) :
  In u (prolongedPass row s) -> In u s \/ u = snd row.
Proof.
  induction s as [| c | c d rest IH1 IH2] using list_pair_ind.
  - intros [].
  - rewrite prolongedPass_one. intro H. left. exact H.
  - rewrite prolongedPass_step. destruct (classMatches (fst row) c && (d =? prolongedSoundMark)).
    + intros [H|[H|H]].
      * left. left. exact H.
      * right. symmetry. exact H.
      * destruct (IH1 H) as [H'|H']; [left; right; right; exact H' | right; exact H'].
    + intros [H|H].
      * left. left. exact H.
      * destruct (IH2 H) as [H'|H']; [left; right; exact H' | right; exact H'].
Qed.

Lemma matchesSomewhere_cons (p : pattern) (c : unit16) (s : jsstring) :
  matchesSomewhere p s = true -> matchesSomewhere p (c :: s) = true.
Proof.
  intro H. cbn [matchesSomewhere]. destruct (matchLen p (c :: s)); [reflexivity | exact H].
Qed.

Lemma prolongedPass_head (c : unit16) (s : jsstring) :
  exists tl, prolongedPass row (c :: s) = c :: tl.
Proof.
  destruct s as [|d rest]; [exists []; reflexivity|].
  rewrite prolongedPass_step. destruct (classMatches (fst row) c && (d =? prolongedSoundMark));
    eexists; reflexivity.
Qed.

(** A kana outside the class keeps its mark. *)
Lemma prolongedPass_keeps (k : unit16) (s : jsstring) :
  classMatches (fst row) k = false -> k <> prolongedSoundMark ->
  matchesSomewhere (Pair [k] [prolongedSoundMark]) s = true ->
  matchesSomewhere (Pair [k] [prolongedSoundMark]) (prolongedPass row s) = true.
Proof.
  intros Hk HkM.
  assert (Hstep : forall (c d : unit16) (rest : jsstring),
            matchesSomewhere (Pair [k] [prolongedSoundMark]) (c :: d :: rest)
            = ((c =? k) && (d =? prolongedSoundMark))
              || matchesSomewhere (Pair [k] [prolongedSoundMark]) (d :: rest)).
  { intros c d rest. cbn [matchesSomewhere matchLen classMatches]. rewrite !orb_false_r.
    destruct ((c =? k) && (d =? prolongedSoundMark)); reflexivity. }
  induction s as [| c | c d rest IH1 IH2] using list_pair_ind.
  - discriminate.
  - cbn. discriminate.
  - rewrite prolongedPass_step, Hstep.
    destruct (classMatches (fst row) c && (d =? prolongedSoundMark)) eqn:E.
    + apply andb_true_iff in E. destruct E as [Hc Hd]. apply Z.eqb_eq in Hd. subst d.
      assert (Hck : (c =? k) = false).
      { destruct (Z.eqb_spec c k) as [->|]; [congruence | reflexivity]. }
      rewrite Hck. cbn [andb orb]. intro H.
      assert (Hrest : matchesSomewhere (Pair [k] [prolongedSoundMark]) rest = true).
      { destruct rest as [|e rest']; [cbn in H; discriminate|].
        rewrite Hstep in H.
        assert (HMk : (prolongedSoundMark =? k) = false) by (apply Z.eqb_neq; congruence).
        rewrite HMk in H. exact H. }
      apply matchesSomewhere_cons, matchesSomewhere_cons. exact (IH1 Hrest).
    + destruct ((c =? k) && (d =? prolongedSoundMark)) eqn:E'.
      * intros _. apply andb_true_iff in E'. destruct E' as [Hc Hd].
        apply Z.eqb_eq in Hc. apply Z.eqb_eq in Hd. subst c d.
        destruct (prolongedPass_head prolongedSoundMark rest) as [tl Htl]. rewrite Htl.
        rewrite Hstep, !Z.eqb_refl. reflexivity.
      * cbn [orb]. intro H. apply matchesSomewhere_cons. exact (IH2 H).
Qed.

End ProlongedPasses.

Section ProlongedLoop.

Import Jaco Props.

Lemma conv_passes (s : jsstring) :
  Jaco.conv s = fold_left (fun acc row => prolongedPass row acc) Jaco.prolongedTable s.
Proof. reflexivity. Qed.

Lemma rows_marks (rows : list (jsstring * unit16)) :
  forallb (fun row : jsstring * unit16 =>
             negb (classMatches (fst row) prolongedSoundMark)
             && negb (snd row =? prolongedSoundMark)) rows = true ->
  forall s,
    (countMarks (fold_left (fun acc row => prolongedPass row acc) rows s) <= countMarks s)%nat
    /\ (forall k, existsb (fun row : jsstring * unit16 => classMatches (fst row) k) rows = true ->
                  matchesSomewhere (Pair [k] [prolongedSoundMark]) s = true ->
                  (countMarks (fold_left (fun acc row => prolongedPass row acc) rows s)
                   < countMarks s)%nat).
Proof.
  induction rows as [|row rows IH]; intros Hrows s.
  - split; [apply Nat.le_refl | intros k Hk; discriminate].
  - cbn [forallb] in Hrows. apply andb_true_iff in Hrows. destruct Hrows as [Hrow Hrows].
    apply andb_true_iff in Hrow. destruct Hrow as [Hcls Hv].
    apply negb_true_iff in Hcls. apply negb_true_iff in Hv. apply Z.eqb_neq in Hv.
    destruct (prolongedPass_marks row Hcls Hv s) as [Hle Hlt].
    destruct (IH Hrows (prolongedPass row s)) as [IHle IHlt].
    cbn [fold_left]. split; [exact (Nat.le_trans _ _ _ IHle Hle)|].
    intros k Hk Hadj. cbn [existsb] in Hk.
    destruct (classMatches (fst row) k) eqn:Ek.
    + assert (Hmatch : matchesSomewhere (Pair (fst row) [prolongedSoundMark]) s = true).
      { clear - Ek Hadj. induction s as [|c s IHs]; [discriminate|].
        cbn [matchesSomewhere matchLen] in *. destruct s as [|d s'].
        - discriminate.
        - cbn [classMatches] in Hadj. rewrite !orb_false_r in Hadj.
          cbn [classMatches]. rewrite orb_false_r.
          destruct ((c =? k) && (d =? prolongedSoundMark)) eqn:E.
          + apply andb_true_iff in E. destruct E as [Hc Hd]. apply Z.eqb_eq in Hc.
            subst c. rewrite Ek, Hd. reflexivity.
          + destruct (classMatches (fst row) c && (d =? prolongedSoundMark)); [reflexivity|].
            apply IHs. exact Hadj. }
      specialize (Hlt Hmatch). exact (Nat.le_lt_trans _ _ _ IHle Hlt).
    + cbn [orb] in Hk.
      assert (HkM : k <> prolongedSoundMark).
      { intro E. subst k. clear - Hk Hrows. induction rows as [|r rows IHr]; [discriminate|].
        cbn [forallb existsb] in *. apply andb_true_iff in Hrows. destruct Hrows as [Hr Hrows].
        apply andb_true_iff in Hr. destruct Hr as [Hr _]. apply negb_true_iff in Hr.
        rewrite Hr in Hk. exact (IHr Hrows Hk). }
      pose proof (prolongedPass_keeps row k s Ek HkM Hadj) as Hkeep.
      specialize (IHlt k Hk Hkeep). exact (Nat.lt_le_trans _ _ _ IHlt Hle).
Qed.

Lemma rows_units (rows : list (jsstring * unit16)) (s : jsstring) (u : unit16) :
  In u (fold_left (fun acc row => prolongedPass row acc) rows s) ->
  In u s \/ In u (map snd rows).
Proof.
  revert s. induction rows as [|row rows IH]; intros s H; [left; exact H|].
  cbn [fold_left] in H. destruct (IH _ H) as [H'|H'].
  - destruct (prolongedPass_units row s u H') as [H''|H''].
    + left. exact H''.
    + right. left. symmetry. exact H''.
  - right. right. exact H'.
Qed.

Lemma class_single (k c : unit16) : classMatches [k] c = (c =? k).
Proof. cbn [classMatches]. apply orb_false_r. Qed.

Lemma matches_pair_class_step (first second : jsstring) (c d : unit16) (rest : jsstring) :
  matchesSomewhere (Pair first second) (c :: d :: rest)
  = (classMatches first c && classMatches second d)
    || matchesSomewhere (Pair first second) (d :: rest).
Proof.
  cbn [matchesSomewhere matchLen].
  destruct (classMatches first c && classMatches second d); reflexivity.
Qed.

Lemma test_names_kana (body : jsstring) (s : jsstring) :
  matchesSomewhere (Pair body [prolongedSoundMark]) s = true ->
  exists k, In k s /\ classMatches body k = true
            /\ matchesSomewhere (Pair [k] [prolongedSoundMark]) s = true.
Proof.
  induction s as [|c s IH]; [discriminate|].
  destruct s as [|d s']; [cbn; discriminate|].
  rewrite matches_pair_class_step, class_single.
  destruct (classMatches body c && (d =? prolongedSoundMark)) eqn:E.
  - intros _. apply andb_true_iff in E. destruct E as [Hc Hd].
    exists c. split; [left; reflexivity|]. split; [exact Hc|].
    rewrite matches_pair_class_step, !class_single, Z.eqb_refl, Hd. reflexivity.
  - cbn [orb]. intro H. destruct (IH H) as [k [Hin [Hk Hadj]]].
    exists k. split; [right; exact Hin|]. split; [exact Hk|].
    rewrite matches_pair_class_step, Hadj. apply orb_true_r.
Qed.

Lemma loop_ends (HIRAGANA_CHARS KATAKANA_CHARS : jsstring) (fuel : nat) :
  forall s,
    (countMarks s < fuel)%nat ->
    (forall c, In c s -> classMatches (HIRAGANA_CHARS ++ KATAKANA_CHARS) c = true ->
               inProlongedTable c = true) ->
    exists r,
      Jaco.convertProlongedSoundMarks_loop HIRAGANA_CHARS KATAKANA_CHARS fuel s = Some r.
Proof.
  induction fuel as [|fuel IH]; intros s Hfuel Hs; [lia|].
  cbn [Jaco.convertProlongedSoundMarks_loop].
  destruct (RegExp.test _ s) eqn:Et; [|exists s; reflexivity].
  unfold Jaco.kanaWithProlongedSoundMarksPattern, RegExp.test in Et.
  destruct (test_names_kana _ s Et) as [k [Hin [Hk Hadj]]].
  assert (Hrows : forallb (fun row : jsstring * unit16 =>
                             negb (classMatches (fst row) prolongedSoundMark)
                             && negb (snd row =? prolongedSoundMark))
                    Jaco.prolongedTable = true) by (vm_compute; reflexivity).
  destruct (rows_marks Jaco.prolongedTable Hrows s) as [_ Hlt].
  specialize (Hlt k (Hs k Hin Hk) Hadj). rewrite <- conv_passes in Hlt.
  apply IH; [lia|].
  intros c Hc Hclass. rewrite conv_passes in Hc.
  destruct (rows_units _ _ _ Hc) as [H|H]; [exact (Hs c H Hclass)|].
  assert (Hall : forallb inProlongedTable (map snd Jaco.prolongedTable) = true)
    by (vm_compute; reflexivity).
  rewrite forallb_forall in Hall. exact (Hall c H).
Qed.

End ProlongedLoop.

(** X26: when every character of the string that is in the class of
    the test pattern is listed by one of the fourteen replacements,
    [convertProlongedSoundMarks] returns: the loop ends within as many
    passes as the string has prolonged sound marks. *)
Theorem convertProlongedSoundMarks_returns
  (HIRAGANA_CHARS KATAKANA_CHARS : jsstring) (fuel : nat) (this : Jaco.t) :
  (forall c, In c (Jaco.str this) ->
             classMatches (HIRAGANA_CHARS ++ KATAKANA_CHARS) c = true ->
             Props.inProlongedTable c = true) ->
  (Props.countMarks (Jaco.str this) < fuel)%nat ->
  exists result,
    Jaco.convertProlongedSoundMarks HIRAGANA_CHARS KATAKANA_CHARS fuel this = Some result.
Proof.
  intros Hs Hfuel. unfold Jaco.convertProlongedSoundMarks.
  destruct (loop_ends HIRAGANA_CHARS KATAKANA_CHARS fuel (Jaco.str this) Hfuel Hs) as [r Hr].
  rewrite Hr. exists (Jaco.new r). reflexivity.
Qed.

Lemma convertProlongedSoundMarks_returns_witness :
  exists result,
    Jaco.convertProlongedSoundMarks Const.HIRAGANA_CHARS Const.KATAKANA_CHARS 3
      (Jaco.new [0x30B3; 0x30FC; 0x3072; 0x30FC]) = Some result.
Proof.
  apply (convertProlongedSoundMarks_returns Const.HIRAGANA_CHARS Const.KATAKANA_CHARS 3
           (Jaco.new [0x30B3; 0x30FC; 0x3072; 0x30FC])).
  - cbn [Jaco.str In]. intros c Hc Hclass.
    repeat (destruct Hc as [<-|Hc]; [first [reflexivity | vm_compute in Hclass; discriminate]|]).
    contradiction.
  - vm_compute. lia.
Defined.

(** ** The prolonged sound mark: what the result is *)

Section ProlongedResult.

Import Jaco Props.

Variable rows : list (jsstring * unit16).
Hypothesis rows_without_mark :
  forallb (fun row : jsstring * unit16 =>
             negb (classMatches (fst row) prolongedSoundMark)
             && negb (snd row =? prolongedSoundMark)) rows = true.

Lemma expandsMark_refl (prev : option unit16) (a : unit16) : expandsMark rows prev a a = true.
Proof. unfold expandsMark. rewrite Z.eqb_refl. reflexivity. Qed.

Lemma expansion_refl (s : jsstring) : forall prev, expansion rows prev s s = true.
Proof.
  induction s as [|a s IH]; intro prev; [reflexivity|].
  cbn [expansion]. rewrite expandsMark_refl, IH. reflexivity.
Qed.

(** What a replaced mark tells: the unit before it is no mark, and neither
    is the kana. *)
Lemma expandsMark_cases (prev : option unit16) (a b : unit16) :
  expandsMark rows prev a b = true ->
  b = a
  \/ (a = prolongedSoundMark /\ b <> prolongedSoundMark
      /\ exists p, prev = Some p /\ p <> prolongedSoundMark
                   /\ existsb (fun row : jsstring * unit16 =>
                                 classMatches (fst row) p && (b =? snd row)) rows = true).
Proof.
  unfold expandsMark. intro H. apply orb_true_iff in H. destruct H as [H|H].
  - left. apply Z.eqb_eq. exact H.
  - right. apply andb_true_iff in H. destruct H as [Ha H]. apply Z.eqb_eq in Ha.
    destruct prev as [p|]; [|discriminate].
    pose proof H as Hex. apply existsb_exists in H. destruct H as [row [Hin Hrow]].
    apply andb_true_iff in Hrow. destruct Hrow as [Hp Hb]. apply Z.eqb_eq in Hb.
    rewrite forallb_forall in rows_without_mark.
    specialize (rows_without_mark row Hin). apply andb_true_iff in rows_without_mark.
    destruct rows_without_mark as [Hcls Hv].
    apply negb_true_iff in Hcls. apply negb_true_iff in Hv. apply Z.eqb_neq in Hv.
    split; [exact Ha|]. split; [congruence|].
    exists p. split; [reflexivity|]. split; [|exact Hex].
    intro E. subst p. congruence.
Qed.

(** Two expansions in a row are one. The unit before the head may have been
    a mark after the first and a kana after the second. *)
Lemma expansion_trans (s : jsstring) :
  forall (t u : jsstring) (prevT prevU : option unit16),
    prevT = prevU \/ prevT = Some prolongedSoundMark ->
    expansion rows prevT s t = true ->
    expansion rows prevU t u = true ->
    expansion rows prevU s u = true.
Proof.
  induction s as [|a s IH]; intros t u prevT prevU Hprev Hst Htu.
  - destruct t as [|b t]; [|discriminate]. exact Htu.
  - destruct t as [|b t]; [discriminate|]. destruct u as [|c u]; [discriminate|].
    cbn [expansion] in *.
    apply andb_true_iff in Hst. destruct Hst as [Hab Hst].
    apply andb_true_iff in Htu. destruct Htu as [Hbc Htu].
    apply andb_true_iff. split.
    + destruct (expandsMark_cases _ _ _ Hab) as [->|[Ha [Hb [p [Hp [HpM Hex]]]]]].
      * exact Hbc.
      * destruct (expandsMark_cases _ _ _ Hbc) as [->|[Hb' _]]; [|congruence].
        destruct Hprev as [<-|E]; [exact Hab | congruence].
    + apply (IH t u (Some b) (Some c)); [|exact Hst|exact Htu].
      destruct (expandsMark_cases _ _ _ Hbc) as [->|[Hb' _]].
      * left. reflexivity.
      * right. rewrite Hb'. reflexivity.
Qed.

End ProlongedResult.

Section ProlongedPassResult.

Import Jaco Props.

Lemma expansion_cons (rows : list (jsstring * unit16)) (prev : option unit16)
      (a b : unit16) (s r : jsstring) :
  expansion rows prev (a :: s) (b :: r)
  = expandsMark rows prev a b && expansion rows (Some b) s r.
Proof. reflexivity. Qed.

(** One replacement is an expansion by its row. *)
Lemma prolongedPass_expansion (row : jsstring * unit16) (s : jsstring) :
  forall prev, expansion [row] prev s (prolongedPass row s) = true.
Proof.
  induction s as [| c | c d rest IH1 IH2] using list_pair_ind; intro prev.
  - reflexivity.
  - rewrite prolongedPass_one. apply expansion_refl.
  - rewrite prolongedPass_step.
    destruct (classMatches (fst row) c && (d =? prolongedSoundMark)) eqn:E.
    + apply andb_true_iff in E. destruct E as [Hc Hd].
      rewrite !expansion_cons, expandsMark_refl, IH1.
      unfold expandsMark. cbn [existsb]. rewrite Hd, Hc, Z.eqb_refl.
      cbn [andb orb]. rewrite orb_true_r. reflexivity.
    + rewrite expansion_cons, expandsMark_refl, IH2. reflexivity.
Qed.

Lemma expansion_more_rows (rows rows' : list (jsstring * unit16)) (s : jsstring) :
  (forall row, In row rows -> In row rows') ->
  forall (r : jsstring) (prev : option unit16),
    expansion rows prev s r = true -> expansion rows' prev s r = true.
Proof.
  intro Hsub. induction s as [|a s IH]; intros r prev H.
  - destruct r; [reflexivity | discriminate].
  - destruct r as [|b r]; [discriminate|]. cbn [expansion] in *.
    apply andb_true_iff in H. destruct H as [Hab H].
    rewrite (IH _ _ H), andb_true_r.
    unfold expandsMark in *. apply orb_true_iff in Hab. apply orb_true_iff.
    destruct Hab as [Hab|Hab]; [left; exact Hab | right].
    apply andb_true_iff in Hab. destruct Hab as [Ha Hex]. rewrite Ha. cbn [andb].
    destruct prev as [p|]; [|discriminate].
    apply existsb_exists in Hex. destruct Hex as [row [Hin Hrow]].
    apply existsb_exists. exists row. split; [apply Hsub; exact Hin | exact Hrow].
Qed.

Lemma table_without_mark :
  forallb (fun row : jsstring * unit16 =>
             negb (classMatches (fst row) prolongedSoundMark)
             && negb (snd row =? prolongedSoundMark)) prolongedTable = true.
Proof. vm_compute. reflexivity. Qed.

Lemma passes_expansion (rows : list (jsstring * unit16)) :
  (forall row, In row rows -> In row prolongedTable) ->
  forall s,
    expansion prolongedTable None s
      (fold_left (fun acc row => prolongedPass row acc) rows s) = true.
Proof.
  induction rows as [|row rows IH]; intros Hsub s.
  - apply expansion_refl.
  - cbn [fold_left].
    apply (expansion_trans prolongedTable table_without_mark s (prolongedPass row s) _
             None None); [left; reflexivity | |].
    + apply (expansion_more_rows [row]); [|apply prolongedPass_expansion].
      intros r [<-|[]]. apply Hsub. left. reflexivity.
    + apply IH. intros r Hr. apply Hsub. right. exact Hr.
Qed.

Lemma loop_expansion (HIRAGANA_CHARS KATAKANA_CHARS : jsstring) (fuel : nat) :
  forall s r,
    convertProlongedSoundMarks_loop HIRAGANA_CHARS KATAKANA_CHARS fuel s = Some r ->
    expansion prolongedTable None s r = true
    /\ matchesSomewhere (Pair (HIRAGANA_CHARS ++ KATAKANA_CHARS) [prolongedSoundMark]) r
       = false.
Proof.
  induction fuel as [|fuel IH]; intros s r H; [discriminate|].
  cbn [convertProlongedSoundMarks_loop] in H.
  destruct (RegExp.test _ s) eqn:Et.
  - destruct (IH _ _ H) as [Hexp Hno]. split; [|exact Hno].
    apply (expansion_trans prolongedTable table_without_mark s (conv s) r None None);
      [left; reflexivity | | exact Hexp].
    rewrite conv_passes. apply passes_expansion. intros row Hrow. exact Hrow.
  - injection H as <-. split; [apply expansion_refl | exact Et].
Qed.

End ProlongedPassResult.

(** X12: when [convertProlongedSoundMarks] returns, the result is the
    string with some of its prolonged sound marks replaced and every other
    character kept: each replaced mark became the kana of one of the
    fourteen replacements whose class holds the character that stands
    before it in the result; and no character of the test class is followed
    by a prolonged sound mark any more. *)
Theorem convertProlongedSoundMarks_expands
  (HIRAGANA_CHARS KATAKANA_CHARS : jsstring) (fuel : nat) (this result : Jaco.t) :
  Jaco.convertProlongedSoundMarks HIRAGANA_CHARS KATAKANA_CHARS fuel this = Some result ->
  Props.expansion Jaco.prolongedTable None (Jaco.str this) (Jaco.str result) = true
  /\ matchesSomewhere (Pair (HIRAGANA_CHARS ++ KATAKANA_CHARS) [Jaco.prolongedSoundMark])
       (Jaco.str result) = false.
Proof.
  unfold Jaco.convertProlongedSoundMarks.
  destruct (Jaco.convertProlongedSoundMarks_loop HIRAGANA_CHARS KATAKANA_CHARS fuel
              (Jaco.str this)) as [r|] eqn:E; [|discriminate].
  intro H. injection H as <-. cbn [Jaco.str].
  exact (loop_expansion HIRAGANA_CHARS KATAKANA_CHARS fuel _ _ E).
Qed.

Lemma convertProlongedSoundMarks_expands_witness :
  Props.expansion Jaco.prolongedTable None
    [0x3053; 0x30FC; 0x30FC; 0x30AB; 0x30FC] [0x3053; 0x304A; 0x304A; 0x30AB; 0x30A2] = true
  /\ matchesSomewhere
       (Pair (Const.HIRAGANA_CHARS ++ Const.KATAKANA_CHARS) [Jaco.prolongedSoundMark])
       [0x3053; 0x304A; 0x304A; 0x30AB; 0x30A2] = false.
Proof.
  apply (convertProlongedSoundMarks_expands Const.HIRAGANA_CHARS Const.KATAKANA_CHARS 3
           (Jaco.new [0x3053; 0x30FC; 0x30FC; 0x30AB; 0x30FC])
           (Jaco.new [0x3053; 0x304A; 0x304A; 0x30AB; 0x30A2])).
  reflexivity.
Defined.
